(** * download_stenos: a shallow embedding of the steno-protocol scraper

    The development follows [src/download_stenos.py].  Python [str] values
    are sequences of Unicode code points, Python [dict]s are insertion-ordered
    association lists, Python exceptions are an explicit error type, and the
    mutable attributes of [SessionParser] together with the on-disk cache and
    the output directory are threaded through a state-and-exception monad.
    The HTML parser (BeautifulSoup) and the network are outside the program:
    they enter the model as the two functions [soup_of] and [net]. *)

From Stdlib Require Import String Ascii DecimalString.
From Stdlib Require DecimalFacts DecimalPos DecimalZ.
From Stdlib Require Import List NArith ZArith Bool Arith Lia.
Import ListNotations.
Local Open Scope list_scope.

Set Implicit Arguments.

(* ================================================================== *)
(** * Python strings *)
(* ================================================================== *)

Module Py.

(** A character is a code point; a [str] is a list of them. *)
Abbreviation char := N (only parsing).
Abbreviation str := (list N) (only parsing).

(** Decoding of a UTF-8 byte sequence, used only to write literals. *)
Fixpoint utf8_decode (bs : list N) : str :=
  match bs with
  | [] => []
  | b :: r =>
      if (b <? 128)%N then b :: utf8_decode r
      else if (b <? 224)%N then
        match r with
        | b1 :: r1 => ((b - 192) * 64 + (b1 - 128))%N :: utf8_decode r1
        | [] => []
        end
      else if (b <? 240)%N then
        match r with
        | b1 :: b2 :: r2 =>
            ((b - 224) * 4096 + (b1 - 128) * 64 + (b2 - 128))%N :: utf8_decode r2
        | _ => []
        end
      else
        match r with
        | b1 :: b2 :: b3 :: r3 =>
            ((b - 240) * 262144 + (b1 - 128) * 4096 + (b2 - 128) * 64 + (b3 - 128))%N
              :: utf8_decode r3
        | _ => []
        end
  end.

Definition lit (s : string) : str :=
  utf8_decode (map N_of_ascii (list_ascii_of_string s)).
Arguments lit s%_string.

Definition ch (a : ascii) : char := N_of_ascii a.

Definition NBSP : char := 160%N.     (* '\xa0' *)
Definition SPACE : char := 32%N.
Definition NEWLINE : char := 10%N.
Definition COLON : char := 58%N.

Definition str_eqb (a b : str) : bool :=
  if list_eq_dec N.eq_dec a b then true else false.

(** [str.isspace] for one character; the regular-expression class [\s] on
    [str] patterns is the same set (CPython's [Py_UNICODE_ISSPACE]). *)
Definition isspace (c : char) : bool :=
  ((9 <=? c) && (c <=? 13) || (28 <=? c) && (c <=? 32)
   || (c =? 133) || (c =? 160) || (c =? 5760)
   || (8192 <=? c) && (c <=? 8202)
   || (c =? 8232) || (c =? 8233) || (c =? 8239) || (c =? 8287)
   || (c =? 12288))%N.

(** The decimal digits (category Nd, Unicode 14).  They come in runs of ten
    consecutive code points whose values are 0..9; the table lists the
    first code point of every run. *)
Definition digit_runs : list N :=
  [48; 1632; 1776; 1984; 2406; 2534; 2662; 2790; 2918; 3046; 3174; 3302;
   3430; 3558; 3664; 3792; 3872; 4160; 4240; 6112; 6160; 6470; 6608; 6784;
   6800; 6992; 7088; 7232; 7248; 42528; 43216; 43264; 43472; 43504; 43600;
   44016; 65296; 66720; 68912; 69734; 69872; 69942; 70096; 70384; 70736;
   70864; 71248; 71360; 71472; 71904; 72016; 72784; 73040; 73120; 92768;
   92864; 93008; 120782; 120792; 120802; 120812; 120822; 123200; 123632;
   125264; 130032]%N.

Fixpoint digit_in (runs : list N) (c : char) : option N :=
  match runs with
  | [] => None
  | r :: rs => if ((r <=? c) && (c <? r + 10))%N then Some (c - r)%N
               else digit_in rs c
  end.

Definition digit_value (c : char) : option N := digit_in digit_runs c.

(** The class [\d]. *)
Definition isdigit (c : char) : bool :=
  match digit_value c with Some _ => true | None => false end.

(** ** Slicing, stripping, searching *)

Fixpoint lstrip (s : str) : str :=
  match s with
  | c :: s' => if isspace c then lstrip s' else s
  | [] => []
  end.

Definition rstrip (s : str) : str := rev (lstrip (rev s)).

Definition strip (s : str) : str := rstrip (lstrip s).

Fixpoint startswith (p s : str) : bool :=
  match p, s with
  | [], _ => true
  | a :: p', b :: s' => (a =? b)%N && startswith p' s'
  | _ :: _, [] => false
  end.

(** [sub in s] *)
Fixpoint contains (sub s : str) : bool :=
  startswith sub s ||
  match s with
  | [] => false
  | _ :: s' => contains sub s'
  end.

(** [s[-1]], defined on non-empty strings only. *)
Definition last_char (s : str) : option char :=
  match rev s with c :: _ => Some c | [] => None end.

(** [s[:-1]] *)
Definition drop_last (s : str) : str := removelast s.

(** [s.replace(old, new)] for a non-empty [old]: the occurrences are taken
    from left to right and do not overlap.  [skip] counts the characters
    of the occurrence just replaced that are still to be dropped. *)
Fixpoint replace_from (old new : str) (skip : nat) (s : str) : str :=
  match s with
  | [] => []
  | c :: s' =>
      match skip with
      | S k => replace_from old new k s'
      | O => if startswith old s
             then new ++ replace_from old new (length old - 1) s'
             else c :: replace_from old new 0 s'
      end
  end.

(** [s.replace(old, new)]; an empty [old] puts [new] before every character
    and at the end. *)
Definition replace (old new s : str) : str :=
  match old with
  | [] => flat_map (fun c => new ++ [c]) s ++ new
  | _ => replace_from old new 0 s
  end.

(** ** Integers to and from text *)

Definition of_string (s : string) : str := map N_of_ascii (list_ascii_of_string s).

(** [str(n)] for an [int]. *)
Definition str_of_Z (n : Z) : str :=
  of_string (NilZero.string_of_int (Z.to_int n)).

(** The format specification [0>w]: pad on the left with ['0'] up to width
    [w]. *)
Definition pad0 (w : nat) (s : str) : str :=
  repeat 48%N (w - length s) ++ s.


(** Digits with single underscores between them, as [int] accepts. *)
Fixpoint int_body (acc : N) (after_digit : bool) (s : str) : option N :=
  match s with
  | [] => if after_digit then Some acc else None
  | c :: s' =>
      if (c =? 95)%N then
        if after_digit then int_body acc false s' else None
      else
        match digit_value c with
        | Some d => int_body (acc * 10 + d) true s'
        | None => None
        end
  end.

(** The number of digits [int] accepts in a string,
    [sys.get_int_max_str_digits()] as the interpreter starts. *)
Definition int_max_str_digits : N := 4300.

(** The number of digit characters of [s]: the sign, the underscores and
    the surrounding whitespace do not count, leading zeros do. *)
Definition count_digits (s : str) : N := N.of_nat (length (filter isdigit s)).

(** [int(s)] for a [str]: surrounding whitespace, an optional sign, decimal
    digits, no more of them than [int_max_str_digits].  [None] stands for
    [ValueError]. *)
Definition int_of_str (s : str) : option Z :=
  if (count_digits s <=? int_max_str_digits)%N then
    match strip s with
    | [] => None
    | c :: r =>
        if (c =? 45)%N then option_map (fun n => (- Z.of_N n)%Z) (int_body 0 false r)
        else if (c =? 43)%N then option_map Z.of_N (int_body 0 false r)
        else option_map Z.of_N (int_body 0 false (c :: r))
    end
  else None.

End Py.
Import Py.

(* ================================================================== *)
(** * Regular expressions *)
(* ================================================================== *)

(** The fragment of [re] the program uses: literals, character classes,
    greedy repetition of a single-character class, concatenation, capture
    groups, [^] and [$].  Matching is by backtracking, leftmost and greedy,
    as in [re]. *)
Module Re.

Inductive regex : Type :=
| Lit (l : str)                                   (* literal text *)
| Cls (p : char -> bool)                          (* one character of a class *)
| Rep (p : char -> bool) (lo : nat) (hi : option nat)   (* p{lo,hi}, greedy *)
| Cat (r1 r2 : regex)
| Grp (n : nat) (r : regex)                       (* n-th capture group *)
| Bol                                             (* ^ *)
| Eol.                                            (* $ *)

(** [.] without DOTALL, and with it. *)
Definition dot (c : char) : bool := negb (c =? NEWLINE)%N.
Definition dot_all (c : char) : bool := true.
Definition one (a : ascii) (c : char) : bool := (c =? ch a)%N.
Arguments one a%_char c.
Definition lower (c : char) : bool := ((97 <=? c) && (c <=? 122))%N.   (* [a-z] *)

Definition star (p : char -> bool) : regex := Rep p 0 None.
Definition plus (p : char -> bool) : regex := Rep p 1 None.
Definition opt (p : char -> bool) : regex := Rep p 0 (Some 1).

Fixpoint seq (rs : list regex) : regex :=
  match rs with
  | [] => Lit []
  | [r] => r
  | r :: rs' => Cat r (seq rs')
  end.

Definition captures := list (nat * str).

Section Exec.
Variable A : Type.

Definition hi_zero (hi : option nat) : bool :=
  match hi with Some O => true | _ => false end.

(** Greedy repetition: take one more character when possible, and fall
    back to stopping here when the rest of the pattern then fails. *)
Fixpoint rep (p : char -> bool) (lo : nat) (hi : option nat)
         (pos : nat) (s : str) (k : nat -> str -> option A) : option A :=
  let stop := match lo with O => k pos s | S _ => None end in
  match s with
  | c :: s' =>
      if p c && negb (hi_zero hi) then
        match rep p (pred lo) (option_map pred hi) (S pos) s' k with
        | Some m => Some m
        | None => stop
        end
      else stop
  | [] => stop
  end.

(** [exec r pos s cs k]: match [r] at offset [pos], where [s] is the text
    from [pos] on, then continue with [k]. *)
Fixpoint exec (r : regex) (pos : nat) (s : str) (cs : captures)
         (k : nat -> str -> captures -> option A) : option A :=
  match r with
  | Lit l =>
      if startswith l s then k (pos + length l) (skipn (length l) s) cs
      else None
  | Cls p =>
      match s with
      | c :: s' => if p c then k (S pos) s' cs else None
      | [] => None
      end
  | Rep p lo hi => rep p lo hi pos s (fun pos' s' => k pos' s' cs)
  | Cat r1 r2 =>
      exec r1 pos s cs (fun pos1 s1 cs1 => exec r2 pos1 s1 cs1 k)
  | Grp n r1 =>
      exec r1 pos s cs
           (fun pos1 s1 cs1 => k pos1 s1 ((n, firstn (pos1 - pos) s) :: cs1))
  | Bol => if (pos =? 0)%nat then k pos s cs else None
  | Eol =>
      match s with
      | [] => k pos s cs
      | [c] => if (c =? NEWLINE)%N then k pos s cs else None
      | _ => None
      end
  end.
End Exec.

(** A match object. *)
Record rmatch : Type := mkMatch {
  m_start : nat;
  m_end : nat;
  m_group0 : str;
  m_caps : captures
}.

Fixpoint cap_lookup (n : nat) (cs : captures) : option str :=
  match cs with
  | [] => None
  | (i, v) :: cs' => if (i =? n)%nat then Some v else cap_lookup n cs'
  end.

(** [m.group(n)] for [n >= 1]; [None] when the group took no part. *)
Definition group (m : rmatch) (n : nat) : option str := cap_lookup n (m_caps m).

Definition match_at (r : regex) (pos : nat) (s : str) : option rmatch :=
  exec r pos s [] (fun e _ cs => Some (mkMatch pos e (firstn (e - pos) s) cs)).

(** [re.compile(r).match(s)] *)
Definition rmatch_ (r : regex) (s : str) : option rmatch := match_at r 0 s.

(** [re.compile(r).search(s)] *)
Fixpoint search_from (r : regex) (pos : nat) (s : str) : option rmatch :=
  match match_at r pos s with
  | Some m => Some m
  | None =>
      match s with
      | [] => None
      | _ :: s' => search_from r (S pos) s'
      end
  end.

Definition search (r : regex) (s : str) : option rmatch := search_from r 0 s.

(** [re.sub(r, repl, s)] for a pattern that matches no empty string:
    every match, from left to right, is replaced by [repl].  [skip] counts
    the characters of the current match still to be dropped. *)
Fixpoint sub_from (r : regex) (repl : str) (skip : nat) (pos : nat) (s : str) : str :=
  match s with
  | [] => []
  | c :: s' =>
      match skip with
      | S k => sub_from r repl k (S pos) s'
      | O =>
          match match_at r pos s with
          | Some m =>
              if (pos <? m_end m)%nat
              then repl ++ sub_from r repl (m_end m - pos - 1) (S pos) s'
              else c :: sub_from r repl 0 (S pos) s'
          | None => c :: sub_from r repl 0 (S pos) s'
          end
      end
  end.

Definition sub (r : regex) (repl s : str) : str := sub_from r repl 0 0 s.

End Re.

(* ================================================================== *)
(** * Dictionaries *)
(* ================================================================== *)

(** A Python [dict]: keys are unique and kept in insertion order;
    assigning to a present key keeps its position. *)
Module Dict.

Class Key (K : Type) := { keqb : K -> K -> bool;
                          keqb_eq : forall a b, keqb a b = true <-> a = b }.

Definition t (K V : Type) := list (K * V).

Section Ops.
Context {K V : Type} `{Key K}.

Fixpoint get (k : K) (d : t K V) : option V :=
  match d with
  | [] => None
  | (k', v) :: d' => if keqb k' k then Some v else get k d'
  end.

Definition mem (k : K) (d : t K V) : bool :=
  match get k d with Some _ => true | None => false end.

Fixpoint set (k : K) (v : V) (d : t K V) : t K V :=
  match d with
  | [] => [(k, v)]
  | (k', v') :: d' => if keqb k' k then (k', v) :: d' else (k', v') :: set k v d'
  end.

Definition keys (d : t K V) : list K := map fst d.
Definition values (d : t K V) : list V := map snd d.
End Ops.

End Dict.
Import Re.

#[export] Instance str_key : Dict.Key str.
Proof.
  refine {| Dict.keqb := str_eqb |}.
  intros a b; unfold str_eqb; destruct (list_eq_dec N.eq_dec a b); split;
    intros; congruence.
Defined.

#[export] Instance Z_key : Dict.Key Z :=
  {| Dict.keqb := Z.eqb; Dict.keqb_eq := Z.eqb_eq |}.

(* ================================================================== *)
(** * Data model *)
(* ================================================================== *)

(** The three named tuples of the program. *)
Record InterventionInfo : Type := mkInfo {
  pageref : str;
  stenopage : str;
  reftag : str;
  steno_name : str;
  date : str
}.

Record Intervention : Type := mkIntervention {
  i_stenoname : str;
  i_text : str;
  i_speaker_key : str
}.

Record Speaker : Type := mkSpeaker {
  sp_stenoname : str;
  sp_pagename : str;
  sp_name : str;
  sp_titles : str;
  sp_function : str;
  sp_sex : str;
  sp_group : str;
  sp_birthdate : str;
  sp_link : str
}.

Definition info_eq_dec (a b : InterventionInfo) : {a = b} + {a <> b}.
Proof. repeat decide equality. Defined.

(** [x in l] for a list of named tuples. *)
Definition info_in (x : InterventionInfo) (l : list InterventionInfo) : bool :=
  if in_dec info_eq_dec x l then true else false.

(** ** Parsed documents

    What the program reads off a BeautifulSoup tree.  An [<a>] element is
    seen through its attributes, its text and the text of its next sibling
    ([None] when [next_sibling.text] raises); a paragraph is the sequence
    of its text pieces and anchors in document order. *)
Record Tag : Type := mkTag {
  attrs : Dict.t str str;
  text : str;
  next_sibling_text : option str
}.

Inductive node : Type :=
| Txt (s : str)
| Anchor (a : Tag).

Definition Para := list node.

Definition node_text (n : node) : str :=
  match n with Txt s => s | Anchor a => text a end.

(** [p.text] *)
Definition p_text (p : Para) : str := flat_map node_text p.

(** [p.find('a')] *)
Fixpoint p_find_a (p : Para) : option Tag :=
  match p with
  | [] => None
  | Anchor a :: _ => Some a
  | Txt _ :: p' => p_find_a p'
  end.

(** [p.find_all('a')] *)
Fixpoint p_find_all_a (p : Para) : list Tag :=
  match p with
  | [] => []
  | Anchor a :: p' => a :: p_find_all_a p'
  | Txt _ :: p' => p_find_all_a p'
  end.

(** The paragraph after [p.find('a').extract()]. *)
Fixpoint p_extract_a (p : Para) : Para :=
  match p with
  | [] => []
  | Anchor _ :: p' => p'
  | Txt s :: p' => Txt s :: p_extract_a p'
  end.

Definition has_attr (a : Tag) (k : str) : bool := Dict.mem k (attrs a).

(** The queries made on a parsed page.  [title] is
    [soup.find('title').string]: [None] when there is no title element,
    [Some None] when its [.string] is [None].  [main_content] is the list
    [text_paragraphs] of [parse_steno] (the paragraphs of the main-content
    division once nested divisions and centred blocks are removed), [None]
    when the division is missing.  [h1] is [soup.find('h1').text] and
    [figcaption] the texts of the divisions of class figcaption. *)
Record Soup : Type := mkSoup {
  title : option (option str);
  all_a : list Tag;
  all_p : list Para;
  main_content : option (list Para);
  h1 : option str;
  figcaption : list str
}.

(** [SessionParser.Page] *)
Record Page : Type := mkPage {
  pg_link : str;
  pg_date_string : str;
  pg_content : str;
  pg_soup : Soup
}.

(** ** Exceptions and logging *)

Inductive exn : Type :=
| KeyError
| IndexError
| AttributeError
| ValueError
| TypeError
| OSError                 (* and its subclasses, raised by the file system *)
| RequestFailed           (* [Exception()] of [request], or one of [requests.get] *)
| SystemExit (code : Z).

(** [except Exception] catches everything but [SystemExit]. *)
Definition is_Exception (e : exn) : bool :=
  match e with SystemExit _ => false | _ => true end.

Definition is_KeyError (e : exn) : bool :=
  match e with KeyError => true | _ => false end.

Inductive result (A : Type) : Type :=
| Ok (a : A)
| Raise (e : exn).
Arguments Ok {A} a.
Arguments Raise {A} e.

Inductive level : Type := DEBUG | INFO | WARNING | ERROR.

(** One constructor per logging call of the program. *)
Inductive event : Type :=
| Connected                              (* check_request, status ok *)
| UnableToOpen                           (* check_request, bad status *)
| Reusing (file : str)                   (* request, cache hit *)
| IgnoringTag (a : Tag)
| NoQid (sublink : str)
| TopicTitle (title : str) (topic_id : Z)
| NoHash (sublink : str)
| ParsingSession (link : str)
| CannotOpenSteno (link : str)
| NewSpeaker (name : str)
| FailedRetrieving
| TopicLength (topic_id : Z) (n : nat)
| SkipVisited (reftag stenopage : str)
| CannotFindKey (reftag stenopage : str)
| FilesGenerated (count : nat)
| NoPageName (sublink : str)
| NoDateInSteno (link : str)
| NoQSeparator (link : str)
| NoHashSeparator (link : str)
| NoDateInTitle (title : str)
| InvalidYear                            (* parse_args *)
| CannotConnect
| NoSessionNumber (link : str).

(** ** The file system

    The program names files after links and speaker labels, so whether
    the file system takes a name depends on the data: a name may be too
    long, hold a character no file name can hold, run through a file
    where a directory is needed, or denote a directory or a file the
    program did not write (two names can denote one file, a name that
    begins with a slash leaves the directory).  What the file system
    answers in these cases is not decided here: it is given by the
    [Disk], which every statement is free to choose.  Its answers may
    change as the run goes on, so each is a function of the files stored
    so far and of the log so far, which stands for the history of the
    run.  The exceptions are those of the file system ([OSError] and its
    subclasses) and those of the encoders (embedded null byte,
    [UnicodeEncodeError]: both [ValueError]). *)
Inductive io_error : Type := IoOSError | IoValueError.

Definition exn_of_io (e : io_error) : exn :=
  match e with IoOSError => OSError | IoValueError => ValueError end.

(** [cached_file_name.exists()] and then [read_text], for a name under
    which the program has stored nothing. *)
Inductive probe : Type :=
| Absent                          (* [exists()] is false *)
| ExistsRaises (e : io_error)     (* [exists()] raises *)
| ReadRaises (e : io_error)       (* [exists()] is true, [read_text] raises *)
| Reads (text : str).             (* [exists()] is true, [read_text] gives [text] *)

(** [open(name, 'w')] and then [fd.write(text)] in the output directory;
    when the write raises the file has been created and holds [partial]. *)
Inductive written : Type :=
| Written
| OpenRaises (e : io_error)
| WriteRaises (e : io_error) (partial : str).

Record Disk : Type := mkDisk {
  (* [exists()] and [read_text] in the cache directory *)
  probe_cache : Dict.t str str -> list (level * event) -> str -> probe;
  (* [mkdir] and [write_text] in the cache directory; [None] when both
     succeed *)
  store_cache : Dict.t str str -> list (level * event) -> str -> str -> option io_error;
  (* the text file of an intervention *)
  write_out : Dict.t str str -> list (level * event) -> str -> str -> written
}.

(** A file system that holds nothing but what the program stored and
    takes every name. *)
Definition plain_disk : Disk :=
  mkDisk (fun _ _ _ => Absent) (fun _ _ _ _ => None) (fun _ _ _ _ => Written).

(** ** The state

    The attributes of a [SessionParser] that change, followed by what
    lives outside the object: the files the program stored in the cache
    directory (name and text as given to [write_text]), the log, the
    output directory (one file per intervention and the two summaries,
    each a list of lines once it exists), and the file system they are
    in. *)
Record State : Type := mkState {
  pages : Dict.t str Page;
  stenos : Dict.t str (Dict.t str Intervention);
  topics : Dict.t Z (list InterventionInfo);
  topic_titles : Dict.t Z str;
  interventions_info : Dict.t str (list InterventionInfo);
  speakers : Dict.t str Speaker;
  request_counter : nat;
  session_soup : option Soup;
  cache : Dict.t str str;
  log : list (level * event);
  out_files : Dict.t str str;
  file_summary : option (list str);
  speakers_summary : option (list str);
  disk : Disk
}.

Definition set_pages v (st : State) : State :=
  mkState v (stenos st) (topics st) (topic_titles st) (interventions_info st)
          (speakers st) (request_counter st) (session_soup st) (cache st)
          (log st) (out_files st) (file_summary st) (speakers_summary st) (disk st).
Definition set_stenos v (st : State) : State :=
  mkState (pages st) v (topics st) (topic_titles st) (interventions_info st)
          (speakers st) (request_counter st) (session_soup st) (cache st)
          (log st) (out_files st) (file_summary st) (speakers_summary st) (disk st).
Definition set_topics v (st : State) : State :=
  mkState (pages st) (stenos st) v (topic_titles st) (interventions_info st)
          (speakers st) (request_counter st) (session_soup st) (cache st)
          (log st) (out_files st) (file_summary st) (speakers_summary st) (disk st).
Definition set_topic_titles v (st : State) : State :=
  mkState (pages st) (stenos st) (topics st) v (interventions_info st)
          (speakers st) (request_counter st) (session_soup st) (cache st)
          (log st) (out_files st) (file_summary st) (speakers_summary st) (disk st).
Definition set_interventions_info v (st : State) : State :=
  mkState (pages st) (stenos st) (topics st) (topic_titles st) v
          (speakers st) (request_counter st) (session_soup st) (cache st)
          (log st) (out_files st) (file_summary st) (speakers_summary st) (disk st).
Definition set_speakers v (st : State) : State :=
  mkState (pages st) (stenos st) (topics st) (topic_titles st) (interventions_info st)
          v (request_counter st) (session_soup st) (cache st)
          (log st) (out_files st) (file_summary st) (speakers_summary st) (disk st).
Definition set_request_counter v (st : State) : State :=
  mkState (pages st) (stenos st) (topics st) (topic_titles st) (interventions_info st)
          (speakers st) v (session_soup st) (cache st)
          (log st) (out_files st) (file_summary st) (speakers_summary st) (disk st).
Definition set_session_soup v (st : State) : State :=
  mkState (pages st) (stenos st) (topics st) (topic_titles st) (interventions_info st)
          (speakers st) (request_counter st) v (cache st)
          (log st) (out_files st) (file_summary st) (speakers_summary st) (disk st).
Definition set_cache v (st : State) : State :=
  mkState (pages st) (stenos st) (topics st) (topic_titles st) (interventions_info st)
          (speakers st) (request_counter st) (session_soup st) v
          (log st) (out_files st) (file_summary st) (speakers_summary st) (disk st).
Definition set_log v (st : State) : State :=
  mkState (pages st) (stenos st) (topics st) (topic_titles st) (interventions_info st)
          (speakers st) (request_counter st) (session_soup st) (cache st)
          v (out_files st) (file_summary st) (speakers_summary st) (disk st).
Definition set_out_files v (st : State) : State :=
  mkState (pages st) (stenos st) (topics st) (topic_titles st) (interventions_info st)
          (speakers st) (request_counter st) (session_soup st) (cache st)
          (log st) v (file_summary st) (speakers_summary st) (disk st).
Definition set_file_summary v (st : State) : State :=
  mkState (pages st) (stenos st) (topics st) (topic_titles st) (interventions_info st)
          (speakers st) (request_counter st) (session_soup st) (cache st)
          (log st) (out_files st) v (speakers_summary st) (disk st).
Definition set_speakers_summary v (st : State) : State :=
  mkState (pages st) (stenos st) (topics st) (topic_titles st) (interventions_info st)
          (speakers st) (request_counter st) (session_soup st) (cache st)
          (log st) (out_files st) (file_summary st) v (disk st).
Definition set_disk v (st : State) : State :=
  mkState (pages st) (stenos st) (topics st) (topic_titles st) (interventions_info st)
          (speakers st) (request_counter st) (session_soup st) (cache st)
          (log st) (out_files st) (file_summary st) (speakers_summary st) v.

(** ** State and exceptions

    A computation takes the state and gives a result or an exception,
    with the state reached: what a method changed before it raised stays
    changed. *)
Definition M (A : Type) : Type := State -> result A * State.

Definition ret {A} (a : A) : M A := fun st => (Ok a, st).

Definition raise {A} (e : exn) : M A := fun st => (Raise e, st).

Definition bind {A B} (m : M A) (f : A -> M B) : M B :=
  fun st =>
    match m st with
    | (Ok a, st') => f a st'
    | (Raise e, st') => (Raise e, st')
    end.

Declare Scope py_scope.
Delimit Scope py_scope with py.
Notation "x <- m ;; k" := (bind m (fun x => k))
  (at level 61, m at next level, right associativity) : py_scope.
Notation "' pat <- m ;; k" := (bind m (fun x => match x with pat => k end))
  (at level 61, pat pattern, m at next level, right associativity) : py_scope.
Notation "m ;; k" := (bind m (fun _ => k))
  (at level 61, right associativity) : py_scope.
Local Open Scope py_scope.

Definition get_state : M State := fun st => (Ok st, st).

Definition modify (f : State -> State) : M unit := fun st => (Ok tt, f st).

Definition logging (l : level) (e : event) : M unit :=
  modify (fun st => set_log (log st ++ [(l, e)]) st).

(** [try: m  except <caught>: h] *)
Definition try_except {A} (m : M A) (caught : exn -> bool) (h : M A) : M A :=
  fun st =>
    match m st with
    | (Ok a, st') => (Ok a, st')
    | (Raise e, st') => if caught e then h st' else (Raise e, st')
    end.

(** [d[k]] *)
Definition subscript {K V} `{Dict.Key K} (d : Dict.t K V) (k : K) : M V :=
  match Dict.get k d with
  | Some v => ret v
  | None => raise KeyError
  end.

(** [for x in xs: body], and the same with local variables [acc]. *)
Fixpoint for_each {A} (xs : list A) (body : A -> M unit) : M unit :=
  match xs with
  | [] => ret tt
  | x :: xs' => body x ;; for_each xs' body
  end.

Fixpoint for_fold {A B} (xs : list A) (acc : B) (body : A -> B -> M B) : M B :=
  match xs with
  | [] => ret acc
  | x :: xs' => acc' <- body x acc ;; for_fold xs' acc' body
  end.

(* ================================================================== *)
(** * The program *)
(* ================================================================== *)

Definition CzechMonths : Dict.t str Z :=
  [(lit "ledna", 1); (lit "února", 2); (lit "března", 3); (lit "dubna", 4);
   (lit "května", 5); (lit "června", 6); (lit "července", 7); (lit "srpna", 8);
   (lit "září", 9); (lit "října", 10); (lit "listopadu", 11);
   (lit "prosince", 12)]%Z.

(** ** The patterns, in the order they appear in the source

    In the comments a group that ends in a star is written with a space
    before its closing parenthesis. *)

(** [^.*schuz.*htm[l]?$] and [^.*schuz/$] *)
Definition reg_ex_steno_main (year : Z) : regex :=
  if (2010 <=? year)%Z
  then seq [Bol; star dot; Lit (lit "schuz"); star dot; Lit (lit "htm");
            opt (one "l"); Eol]
  else seq [Bol; star dot; Lit (lit "schuz/"); Eol].

(** [^.*html#(q[\d]+)$] *)
Definition reg_ex_topic_q : regex :=
  seq [Bol; star dot; Lit (lit "html#");
       Grp 1 (seq [Lit (lit "q"); plus isdigit]); Eol].

(** [^.*html#([\d]+)$] *)
Definition reg_ex_topic_digits : regex :=
  seq [Bol; star dot; Lit (lit "html#"); Grp 1 (plus isdigit); Eol].

(** [^.*html(#[a-z][\d]+)$] *)
Definition reg_ex_topic_hash : regex :=
  seq [Bol; star dot; Lit (lit "html");
       Grp 1 (seq [Lit (lit "#"); Cls lower; plus isdigit]); Eol].

(** [/sqw/detail.sqw\?id=(\d+)$] *)
Definition reg_ex_detail : regex :=
  seq [Lit (lit "/sqw/detail"); Cls dot; Lit (lit "sqw?id=");
       Grp 1 (plus isdigit); Eol].

(** [Narozen.?: ([\d]+)\..(\d+)\..(\d+).*Zvolen.? na kandidátce: (.* )$] *)
Definition figregex_elected : regex :=
  seq [Lit (lit "Narozen"); opt dot; Lit (lit ": "); Grp 1 (plus isdigit);
       Lit (lit "."); Cls dot; Grp 2 (plus isdigit);
       Lit (lit "."); Cls dot; Grp 3 (plus isdigit);
       star dot; Lit (lit "Zvolen"); opt dot; Lit (lit " na kandidátce: ");
       Grp 4 (star dot); Eol].

(** [Narozen: ([\d]+)\..(\d+)\..(\d+)$] with DOTALL *)
Definition figregex_born : regex :=
  seq [Lit (lit "Narozen: "); Grp 1 (plus isdigit);
       Lit (lit "."); Cls dot_all; Grp 2 (plus isdigit);
       Lit (lit "."); Cls dot_all; Grp 3 (plus isdigit); Eol].

(** [\s+] *)
Definition reg_ex_spaces : regex := plus isspace.

(** [^(.*.html).*] and [^.*schuz/(.*.html).*] *)
Definition reg_ex_page (year : Z) : regex :=
  if (2010 <=? year)%Z
  then seq [Bol; Grp 1 (seq [star dot; Cls dot; Lit (lit "html")]); star dot]
  else seq [Bol; star dot; Lit (lit "schuz/");
            Grp 1 (seq [star dot; Cls dot; Lit (lit "html")]); star dot].

(** [(s[\d]*.htm)#(r[\d]* )$] *)
Definition intervention_link : regex :=
  seq [Grp 1 (seq [Lit (lit "s"); star isdigit; Cls dot; Lit (lit "htm")]);
       Lit (lit "#"); Grp 2 (seq [Lit (lit "r"); star isdigit]); Eol].

(** [Stenografický zápis [\d]+. schůze, ([\d]+).\s(.* )\s(\d{4})] *)
Definition reg_ex_title_date : regex :=
  seq [Lit (lit "Stenografický zápis "); plus isdigit; Cls dot;
       Lit (lit " schůze, "); Grp 1 (plus isdigit); Cls dot; Cls isspace;
       Grp 2 (star dot); Cls isspace; Grp 3 (Rep isdigit 4 (Some 4))].

(** [^([\d]+)schuz/index.htm$] *)
Definition reg_ex_session_id : regex :=
  seq [Bol; Grp 1 (plus isdigit); Lit (lit "schuz/index"); Cls dot;
       Lit (lit "htm"); Eol].

(** A group that takes part in every match of its pattern. *)
Definition group_or_empty (m : rmatch) (n : nat) : str :=
  match group m n with Some s => s | None => [] end.

(** ** [SessionParser.filter_text] *)
Definition filter_text (text : str) : str :=
  match text with
  | [] => []
  | c :: rest =>
      let text := if (c =? COLON)%N then strip rest else text in
      let text := replace [NBSP] [SPACE] text in
      strip (sub reg_ex_spaces [SPACE] text)
  end.

(** The speaker key of [parse_steno] (lines 389-399): the filtered anchor
    text without one trailing colon is the display name; stripped, with
    spaces and commas turned into underscores and [__] into [_], it is the
    key.  [speaker_link_text[-1]] raises on an empty string. *)
Definition speaker_label (anchor_text : str) : result str :=
  let speaker_link_text := filter_text anchor_text in
  match last_char speaker_link_text with
  | None => Raise IndexError
  | Some c =>
      Ok (if (c =? COLON)%N then drop_last speaker_link_text
          else speaker_link_text)
  end.

Definition speaker_key_of (speaker_link_text : str) : str :=
  let speaker := replace [SPACE] (lit "_") (strip speaker_link_text) in
  replace (lit "__") (lit "_") (replace (lit ",") (lit "_") speaker).

(** ** [SessionParser.get_speakers_name] *)
Definition title_strings : list str :=
  map lit ["doc."; "Prof."; "RSDR."; "RSDr."; "RNDr."; "Ing."; "JUDr.";
           "PhDr."; "Mgr."; "MBA"; "ThMgr."; "CSc."; "PaedDr."; "Ph.D.";
           "MUDr."; "Bc."; "arch."; "Doc."; "MVDr."; "Thprof."; "MVDR.";
           "MgA."; "PhD.JU"; "ThDr."; "PhD."; "DrSc."; "Dr."]%string.

Definition male_strings : list str :=
  map lit ["Poslanec"; "Ministr"; "Místopředseda"; "Předseda"; "Senátor";
           "poslanec"; "ministr"; "místopředseda"; "předseda"; "senátor"]%string.

Definition female_strings : list str :=
  map lit ["Poslankyně"; "Ministryně"; "Členka"; "Senátorka";
           "Místopředsedkyně"; "poslankyně"; "ministryně"; "členka";
           "senátorka"; "místopředsedkyně"]%string.

(** The loop over [title_strings]: the titles found so far and the page
    name without them. *)
Fixpoint split_titles (ts : list str) (titles page_name : str) : str * str :=
  match ts with
  | [] => (titles, page_name)
  | t :: ts' =>
      if contains t page_name
      then split_titles ts' (titles ++ t ++ [SPACE]) (strip (replace t [] page_name))
      else split_titles ts' titles page_name
  end.

Definition get_speakers_name (page_name steno_name : str) : str * str * str * str :=
  let page_name := strip (replace (lit ",") [] page_name) in
  let '(titles, page_name) := split_titles title_strings [] page_name in
  let titles := strip titles in
  let name := page_name in
  let function := strip (replace page_name [] steno_name) in
  let sex :=
    if existsb (fun f => contains f function) female_strings then lit "Woman"
    else if existsb (fun m => contains m function) male_strings then lit "Man"
    else [] in
  (name, titles, function, sex).

(** ** [SessionParser.generate_file_name] *)
Definition generate_file_name (session_number : Z) (date_string : str)
           (topic_id : Z) (order : Z) (name : str) : str :=
  lit "s_" ++ pad0 3 (str_of_Z session_number) ++ lit "_" ++ date_string
    ++ lit "_t_" ++ pad0 3 (str_of_Z topic_id)
    ++ lit "_i_" ++ pad0 3 (str_of_Z order) ++ lit "_" ++ name ++ lit ".txt".

(** ** The immutable attributes of a [SessionParser] *)
Record Config : Type := mkConfig {
  year : Z;
  base_url : str;
  sublinks : str;
  session_link : str;
  session_number : Z
}.

(** The state a new [SessionParser] starts from: fresh dictionaries, the
    speakers handed over by the caller, and the outside world as it is. *)
Definition fresh_session (speakers0 : Dict.t str Speaker) (st : State) : State :=
  mkState [] [] [] [] [] speakers0 0 None (cache st) (log st)
          (out_files st) (file_summary st) (speakers_summary st) (disk st).

Definition empty_state : State :=
  mkState [] [] [] [] [] [] 0 None [] [] [] None None plain_disk.

(** The local variables of the loop of [parse_steno]. *)
Record Segmenter : Type := mkSeg {
  r_id : str;
  buffer : str;                       (* the variable [text] *)
  speaker : str;
  interventions : Dict.t str Intervention;
  speaker_key : str
}.

(** What [read_text] gives back for a text stored by [write_text]: a file
    is read with universal newlines, so ["\r\n"] and a lone ["\r"] both
    come back as ["\n"].  (The text is written as it is: the line
    separator of the system is taken to be ["\n"].) *)
Fixpoint universal_newlines (s : str) : str :=
  match s with
  | [] => []
  | c :: s' =>
      if (c =? 13)%N then
        match s' with
        | d :: s'' =>
            if (d =? NEWLINE)%N then NEWLINE :: universal_newlines s''
            else NEWLINE :: universal_newlines s'
        | [] => [NEWLINE]
        end
      else c :: universal_newlines s'
  end.

Section Program.

(** [requests.get(link)]: [None] when it raises, otherwise whether the
    status is ok, and the body. *)
Variable net : str -> option (bool * str).

(** [BeautifulSoup(text, 'html5lib')] *)
Variable soup_of : str -> Soup.

(** [check_request] *)
Definition check_request (ok : bool) : M bool :=
  if ok then logging INFO Connected ;; ret true
  else logging ERROR UnableToOpen ;; ret false.

(** [SessionParser.request]: the cache first, then the network.  A name
    under which the program stored a text is found and read back; for
    any other name the disk says whether something is there.  A page
    fetched from the network is stored before it is returned, and the
    store can fail. *)
Definition request (link : str) : M str :=
  let file_str := replace (lit "http://public.psp.cz/eknih/") [] link in
  st <- get_state ;;
  match Dict.get file_str (cache st) with
  | Some text => logging DEBUG (Reusing file_str) ;; ret (universal_newlines text)
  | None =>
      match probe_cache (disk st) (cache st) (log st) file_str with
      | ExistsRaises e => raise (exn_of_io e)
      | ReadRaises e => logging DEBUG (Reusing file_str) ;; raise (exn_of_io e)
      | Reads text => logging DEBUG (Reusing file_str) ;; ret text
      | Absent =>
          match net link with
          | None => raise RequestFailed
          | Some (ok, text) =>
              modify (fun st => set_request_counter (S (request_counter st)) st) ;;
              rc <- check_request ok ;;
              if negb rc then raise RequestFailed
              else
                st <- get_state ;;
                match store_cache (disk st) (cache st) (log st) file_str text with
                | Some e => raise (exn_of_io e)
                | None =>
                    modify (fun st => set_cache (Dict.set file_str text (cache st)) st) ;;
                    ret text
                end
          end
      end
  end.

(** [SessionParser.get_qid_for_topic] *)
Definition get_qid_for_topic (link : str) : M (option str) :=
  match rmatch_ reg_ex_topic_q link with
  | None => logging WARNING (NoQSeparator link) ;; ret None
  | Some topic => ret (Some (group_or_empty topic 1))
  end.

(** [SessionParser.get_hash_for_topic]; it reads the global [year],
    which the main program also hands to every [SessionParser]. *)
Definition get_hash_for_topic (year : Z) (link : str) : M (option str) :=
  let reg_ex_topic :=
    if (year =? 2013)%Z then reg_ex_topic_hash else reg_ex_topic_digits in
  match rmatch_ reg_ex_topic link with
  | None => logging WARNING (NoHashSeparator link) ;; ret None
  | Some topic => ret (Some (group_or_empty topic 1))
  end.

(** [SessionParser.get_steno_date] *)
Definition get_steno_date (soup : Soup) : M (bool * str) :=
  match title soup with
  | None => raise AttributeError
  | Some None => raise TypeError
  | Some (Some []) => ret (false, [])
  | Some (Some title) =>
      let title := replace [NBSP] [SPACE] title in
      match search reg_ex_title_date title with
      | None => logging ERROR (NoDateInTitle title) ;; ret (false, [])
      | Some d =>
          month <- subscript CzechMonths (group_or_empty d 2) ;;
          match int_of_str (group_or_empty d 1) with
          | None => raise ValueError
          | Some day =>
              ret (true, group_or_empty d 3 ++ pad0 2 (str_of_Z month)
                                            ++ pad0 2 (str_of_Z day))
          end
      end
  end.

(** One anchor of [parse_interventions_page]; [q_id] is the open group. *)
Definition interventions_page_step (date : str) (link : Tag) (q_id : str) : M str :=
  match Dict.get (lit "name") (attrs link) with
  | Some q_id =>
      st <- get_state ;;
      (if negb (Dict.mem q_id (interventions_info st))
       then modify (set_interventions_info (Dict.set q_id [] (interventions_info st)))
       else ret tt) ;;
      ret q_id
  | None =>
      match Dict.get (lit "href") (attrs link) with
      | Some href =>
          if negb (str_eqb q_id []) then
            match search intervention_link href with
            | Some info =>
                let new_intervention_info :=
                  mkInfo (m_group0 info) (group_or_empty info 1)
                         (group_or_empty info 2) (filter_text (text link)) date in
                st <- get_state ;;
                l <- subscript (interventions_info st) q_id ;;
                (if negb (info_in new_intervention_info l)
                 then modify (set_interventions_info
                                (Dict.set q_id (l ++ [new_intervention_info])
                                          (interventions_info st)))
                 else ret tt) ;;
                ret q_id
            | None => ret q_id
            end
          else ret q_id
      | None => ret q_id
      end
  end.

(** [SessionParser.parse_interventions_page] *)
Definition parse_interventions_page (page_soup : Soup) (date : str) : M unit :=
  for_fold (all_a page_soup) [] (interventions_page_step date) ;; ret tt.

Variable cfg : Config.

(** [SessionParser.parse_sublink_order] *)
Definition parse_sublink_order (order_id sublink : str) : M bool :=
  match rmatch_ (reg_ex_page (year cfg)) sublink with
  | None => logging ERROR (NoPageName sublink) ;; ret false
  | Some page_name =>
      let page_idx := group_or_empty page_name 1 in
      st <- get_state ;;
      if negb (Dict.mem page_idx (pages st)) then
        let link := if (2010 <=? year cfg)%Z then sublinks cfg ++ sublink
                    else sublinks cfg ++ group_or_empty page_name 1 in
        r <- try_except (text <- request link ;; ret (Some text))
                        is_Exception (ret None) ;;
        match r with
        | None => ret false
        | Some text =>
            let soup := soup_of text in
            '(rc, date) <- get_steno_date soup ;;
            if negb rc then logging ERROR (NoDateInSteno link) ;; ret false
            else
              parse_interventions_page soup date ;;
              modify (fun st => set_pages
                        (Dict.set page_idx (mkPage link date text soup) (pages st)) st) ;;
              ret true
        end
      else ret true
  end.

(** [self.topics[topic_id].extend(self.interventions_info[q_id])] *)
Definition extend_topic (topic_id : Z) (q_id : str) : M unit :=
  st <- get_state ;;
  topic <- subscript (topics st) topic_id ;;
  refs <- subscript (interventions_info st) q_id ;;
  modify (set_topics (Dict.set topic_id (topic ++ refs) (topics st))).

(** The body of the inner loop of [parse_session_post_2013]. *)
Definition post_2013_link (topic_id : Z) (link : Tag) : M unit :=
  try_except
    (sublink <- subscript (attrs link) (lit "href") ;;
     if negb (contains (lit "/sqw/historie.sqw") sublink) then
       q <- get_qid_for_topic sublink ;;
       match q with
       | None => logging WARNING (NoQid sublink)
       | Some q_id =>
           ok <- parse_sublink_order q_id sublink ;;
           if ok then extend_topic topic_id q_id else ret tt
       end
     else ret tt)
    is_KeyError (ret tt).

(** [int(s)] *)
Definition py_int (s : str) : M Z :=
  match int_of_str s with Some z => ret z | None => raise ValueError end.

(** [a.next_sibling.text] *)
Definition sibling_text (a : Tag) : M str :=
  match next_sibling_text a with Some s => ret s | None => raise AttributeError end.

(** The body of the outer loop of [parse_session_post_2013]. *)
Definition post_2013_topic (topic : Para) : M unit :=
  match p_find_all_a topic with
  | [] => ret tt
  | first :: rest =>
      r <- try_except
             (id <- subscript (attrs first) (lit "id") ;;
              topic_id <- py_int (skipn 1 id) ;;
              ret (Some topic_id))
             is_KeyError
             (logging INFO (IgnoringTag first) ;; ret None) ;;
      match r with
      | None => ret tt
      | Some topic_id =>
          st <- get_state ;;
          (if negb (Dict.mem topic_id (topics st)) then
             modify (set_topics (Dict.set topic_id [] (topics st))) ;;
             t <- sibling_text first ;;
             modify (fun st => set_topic_titles
                       (Dict.set topic_id t (topic_titles st)) st)
           else ret tt) ;;
          for_each rest (post_2013_link topic_id)
      end
  end.

(** [SessionParser.parse_session_post_2013] *)
Definition parse_session_post_2013 (session_soup : Soup) : M unit :=
  for_each (all_p session_soup) post_2013_topic.

(** One anchor of [parse_session_2013] and [parse_session_pre_2013],
    which differ in [reg_ex_topic] only; [topic_id] is the local
    variable, the result its new value. *)
Definition named_topic_step (reg_ex_topic : regex) (link : Tag) (topic_id : Z) : M Z :=
  r <- try_except
         (name <- subscript (attrs link) (lit "name") ;;
          topic_id <- py_int (replace (lit "b") [] (skipn 1 name)) ;;
          st <- get_state ;;
          if negb (Dict.mem topic_id (topics st)) then
            modify (set_topics (Dict.set topic_id [] (topics st))) ;;
            t <- sibling_text link ;;
            modify (fun st => set_topic_titles
                      (Dict.set topic_id (filter_text t) (topic_titles st)) st) ;;
            logging DEBUG (TopicTitle (filter_text t) topic_id) ;;
            ret (topic_id, true)
          else ret (topic_id, false))
         is_KeyError
         (logging DEBUG (IgnoringTag link) ;; ret (topic_id, false)) ;;
  let '(topic_id, continue) := r in
  if (continue : bool) then ret topic_id
  else
    try_except
      (sublink <- subscript (attrs link) (lit "href") ;;
       match rmatch_ reg_ex_topic sublink with
       | Some _ =>
           h <- get_hash_for_topic (year cfg) sublink ;;
           match h with
           | None => logging WARNING (NoHash sublink)
           | Some hash_id =>
               ok <- parse_sublink_order hash_id sublink ;;
               if ok then extend_topic topic_id hash_id else ret tt
           end
       | None => ret tt
       end)
      is_KeyError (ret tt) ;;
    ret topic_id.

(** [SessionParser.parse_session_2013] *)
Definition parse_session_2013 (session_soup : Soup) : M unit :=
  for_fold (all_a session_soup) 0%Z (named_topic_step reg_ex_topic_q) ;; ret tt.

(** [SessionParser.parse_session_pre_2013] *)
Definition parse_session_pre_2013 (session_soup : Soup) : M unit :=
  for_fold (all_a session_soup) 0%Z (named_topic_step reg_ex_topic_digits) ;; ret tt.

(** The flush of [parse_steno]:
    [interventions[r_id] = Intervention(speaker, text.strip(), speaker_key)]
    when a turn is open. *)
Definition flush (seg : Segmenter) : Dict.t str Intervention :=
  if negb (str_eqb (r_id seg) [])
  then Dict.set (r_id seg)
                (mkIntervention (speaker seg) (strip (buffer seg)) (speaker_key seg))
                (interventions seg)
  else interventions seg.

(** [text += self.filter_text(p.text.strip()) + "\n"] *)
Definition append_paragraph (p : Para) (text : str) : str :=
  text ++ filter_text (strip (p_text p)) ++ [NEWLINE].

(** The body of the loop of [parse_steno] for one paragraph. *)
Definition steno_step (p : Para) (seg : Segmenter) : M Segmenter :=
  if str_eqb (p_text p) [NBSP] || str_eqb (p_text p) [] then ret seg
  else
    match p_find_a p with
    | Some speaker_link =>
        match Dict.get (lit "id") (attrs speaker_link) with
        | Some id =>
            if match Dict.get (lit "href") (attrs speaker_link) with
               | Some href => contains (lit "hlasy.sqw") href
               | None => false
               end
            then ret seg
            else if str_eqb (text speaker_link) [] then ret seg
            else
              let interventions := flush seg in
              match speaker_label (text speaker_link) with
              | Raise e => raise e
              | Ok speaker_link_text =>
                  let speaker := speaker_key_of speaker_link_text in
                  let speaker_key := speaker in
                  let speaker_page :=
                    match Dict.get (lit "href") (attrs speaker_link) with
                    | Some href => href
                    | None => []
                    end in
                  st <- get_state ;;
                  (if negb (Dict.mem speaker_key (speakers st)) then
                     logging INFO (NewSpeaker speaker_link_text) ;;
                     modify (fun st => set_speakers
                               (Dict.set speaker_key
                                  (mkSpeaker speaker_link_text [] [] [] [] [] [] []
                                             speaker_page)
                                  (speakers st)) st)
                   else ret tt) ;;
                  ret (mkSeg id (append_paragraph (p_extract_a p) [])
                             speaker interventions speaker_key)
              end
        | None =>
            ret (mkSeg (r_id seg) (append_paragraph p (buffer seg)) (speaker seg)
                       (interventions seg) (speaker_key seg))
        end
    | None =>
        ret (mkSeg (r_id seg) (append_paragraph p (buffer seg)) (speaker seg)
                   (interventions seg) (speaker_key seg))
    end.

Definition initial_segmenter : Segmenter := mkSeg [] [] [] [] [].

(** [SessionParser.parse_steno] *)
Definition parse_steno (steno : Soup) : M (Dict.t str Intervention) :=
  match main_content steno with
  | None => raise AttributeError
  | Some text_paragraphs =>
      seg <- for_fold text_paragraphs initial_segmenter steno_step ;;
      ret (flush seg)
  end.

(** The body of the inner loop of [SessionParser.get_all_stenos]. *)
Definition fetch_steno (int_info : InterventionInfo) : M unit :=
  st <- get_state ;;
  if negb (Dict.mem (stenopage int_info) (stenos st)) then
    let link := sublinks cfg ++ stenopage int_info in
    r <- try_except (text <- request link ;; ret (Some text))
                    is_Exception
                    (logging ERROR (CannotOpenSteno link) ;; ret None) ;;
    match r with
    | None => ret tt
    | Some text =>
        parsed <- parse_steno (soup_of text) ;;
        modify (fun st => set_stenos
                  (Dict.set (stenopage int_info) parsed (stenos st)) st)
    end
  else ret tt.

(** [SessionParser.get_all_stenos] *)
Definition get_all_stenos : M unit :=
  st <- get_state ;;
  for_each (Dict.values (topics st)) (fun topic => for_each topic fetch_steno).

(** [SessionParser.parse_session]: [Some false] for the [False] returned
    when the session page cannot be fetched, [None] for falling off the
    end. *)
Definition parse_session : M (option bool) :=
  logging INFO (ParsingSession (session_link cfg)) ;;
  r <- try_except (text <- request (session_link cfg) ;; ret (Some text))
                  is_Exception (ret None) ;;
  match r with
  | None => ret (Some false)
  | Some text =>
      let main_soup := soup_of text in
      modify (set_session_soup (Some main_soup)) ;;
      (if (year cfg =? 2013)%Z then parse_session_2013 main_soup
       else if (2013 <? year cfg)%Z then parse_session_post_2013 main_soup
       else parse_session_pre_2013 main_soup) ;;
      get_all_stenos ;;
      ret None
  end.

(** [soup.find('h1').text] *)
Definition h1_text (soup : Soup) : M str :=
  match h1 soup with Some s => ret s | None => raise AttributeError end.

(** The caption block of a legislator page: the party and the birth
    date, each empty when its pattern does not match. *)
Definition parse_figcaption (soup : Soup) : str * str :=
  match figcaption soup with
  | [] => ([], [])
  | caption :: _ =>
      let text := filter_text caption in
      let figgs :=
        if contains (lit "Zvolen") text then search figregex_elected text
        else search figregex_born text in
      match figgs with
      | None => ([], [])
      | Some m =>
          (if contains (lit "Zvolen") text then group_or_empty m 4 else [],
           pad0 4 (group_or_empty m 3) ++ pad0 2 (group_or_empty m 2)
             ++ pad0 2 (group_or_empty m 1))
      end
  end.

(** The body of the loop of [parse_speakers] for one entry. *)
Definition enrich_speaker (key : str) (speaker : Speaker) : M unit :=
  if (0 <? length (sp_name speaker))%nat then ret tt
  else
    '(page_name, group, birth_date) <-
      (if contains (lit "https://www.vlada.cz/cz/") (sp_link speaker) then
         text <- try_except (request (sp_link speaker)) is_Exception
                   (logging ERROR FailedRetrieving ;; raise (SystemExit (-1))) ;;
         h <- h1_text (soup_of text) ;;
         ret (filter_text h, [], [])
       else if contains (lit "/sqw/detail.sqw") (sp_link speaker) then
         match search reg_ex_detail (sp_link speaker) with
         | Some _ =>
             let link := lit "http://www.psp.cz/" ++ sp_link speaker in
             (* the handler evaluates [speaker.values()], which a named
                tuple does not have, before it can log or exit *)
             text <- try_except (request link) is_Exception
                       (raise AttributeError) ;;
             let soup := soup_of text in
             h <- h1_text soup ;;
             let '(group, birth_date) := parse_figcaption soup in
             ret (filter_text h, group, birth_date)
         | None => ret ([], [], [])
         end
       else ret ([], [], [])) ;;
    let '(name, titles, function, sex) :=
      get_speakers_name page_name (sp_stenoname speaker) in
    modify (fun st => set_speakers
              (Dict.set key
                 (mkSpeaker (sp_stenoname speaker) page_name name titles function
                            sex group birth_date (sp_link speaker))
                 (speakers st)) st).

(** [SessionParser.parse_speakers] *)
Definition parse_speakers : M unit :=
  st <- get_state ;;
  for_each (speakers st) (fun '(key, speaker) => enrich_speaker key speaker).

Definition TAB : str := [9%N].

Fixpoint join_tab (fields : list str) : str :=
  match fields with
  | [] => []
  | [f] => f
  | f :: fs => f ++ TAB ++ join_tab fs
  end.

(** A line of a tab-separated summary. *)
Definition tsv (fields : list str) : str := join_tab fields ++ [NEWLINE].

Definition file_summary_header : str :=
  tsv (map lit ["session"; "date"; "topic_idx"; "topic_str"; "order"; "name";
                "steno_name"; "file_name"]%string).

Definition speakers_summary_header : str :=
  tsv (map lit ["name"; "titles"; "function"; "steno_name"; "sex"; "party";
                "birthdate"; "web_page"]%string).

Definition append_line (line : str) (f : option (list str)) : option (list str) :=
  match f with
  | Some ls => Some (ls ++ [line])
  | None => Some [line]
  end.

(** The part of the loop body of [generate_files_and_report] after the
    visited-links test: look the intervention up, write its file, append
    its row.  The result tells whether [count] is incremented.  The file
    is opened and written before the row is put together, so a
    [KeyError] of the row leaves the file behind; an exception of the
    file itself is no [KeyError] and is not caught. *)
Definition write_intervention (topic_id : Z) (idx : nat) (int_info : InterventionInfo)
  : M bool :=
  try_except
    (st <- get_state ;;
     page <- subscript (stenos st) (stenopage int_info) ;;
     steno <- subscript page (reftag int_info) ;;
     let file_name :=
       generate_file_name (session_number cfg) (date int_info) topic_id
                          (Z.of_nat idx + 1) (i_stenoname steno) in
     match write_out (disk st) (out_files st) (log st) file_name (i_text steno) with
     | OpenRaises e => raise (exn_of_io e)
     | WriteRaises e partial =>
         modify (fun st => set_out_files (Dict.set file_name partial (out_files st)) st) ;;
         raise (exn_of_io e)
     | Written =>
         modify (fun st => set_out_files
                   (Dict.set file_name (i_text steno) (out_files st)) st) ;;
         topic_title <- subscript (topic_titles st) topic_id ;;
         sp <- subscript (speakers st) (i_speaker_key steno) ;;
         let tsv_line :=
           tsv [str_of_Z (session_number cfg); date int_info; str_of_Z topic_id;
                topic_title; str_of_Z (Z.of_nat idx + 1); sp_name sp;
                i_stenoname steno; file_name] in
         modify (fun st => set_file_summary (append_line tsv_line (file_summary st)) st) ;;
         ret true
     end)
    is_KeyError
    (logging ERROR (CannotFindKey (reftag int_info) (stenopage int_info)) ;;
     ret false).

(** The loop body of [generate_files_and_report] for entry [idx] of topic
    [topic_id]; the local variables are [visited_links] and [count]. *)
Definition generate_step (topic_id : Z) (idx : nat) (int_info : InterventionInfo)
           (loc : Dict.t str (list str) * nat) : M (Dict.t str (list str) * nat) :=
  let '(visited_links, count) := loc in
  let proceed (visited_links : Dict.t str (list str)) :=
    written <- write_intervention topic_id idx int_info ;;
    ret (visited_links, if written : bool then S count else count) in
  match Dict.get (stenopage int_info) visited_links with
  | None => proceed (Dict.set (stenopage int_info) [] visited_links)
  | Some tags =>
      if existsb (str_eqb (reftag int_info)) tags then
        logging WARNING (SkipVisited (reftag int_info) (stenopage int_info)) ;;
        ret (visited_links, count)
      else
        proceed (Dict.set (stenopage int_info) (tags ++ [reftag int_info])
                          visited_links)
  end.

(** [for idx, int_info in enumerate(topic)] *)
Fixpoint generate_topic (topic_id : Z) (idx : nat) (topic : list InterventionInfo)
         (loc : Dict.t str (list str) * nat) : M (Dict.t str (list str) * nat) :=
  match topic with
  | [] => ret loc
  | int_info :: rest =>
      loc' <- generate_step topic_id idx int_info loc ;;
      generate_topic topic_id (S idx) rest loc'
  end.

(** [SessionParser.generate_files_and_report] *)
Definition generate_files_and_report (create_new_report : bool) : M unit :=
  st <- get_state ;;
  let create_new_report :=
    match file_summary st with None => true | Some _ => create_new_report end in
  (if create_new_report
   then modify (set_file_summary (Some [file_summary_header]))
   else ret tt) ;;
  '(_, count) <-
    for_fold (topics st) ([], 0)
      (fun '(topic_id, topic) loc =>
         logging DEBUG (TopicLength topic_id (length topic)) ;;
         generate_topic topic_id 0 topic loc) ;;
  logging INFO (FilesGenerated count).

(** [SessionParser.generate_speakers_report] *)
Definition generate_speakers_report (speakers : Dict.t str Speaker)
           (create_new_report : bool) : M unit :=
  st <- get_state ;;
  let create_new_report :=
    match speakers_summary st with None => true | Some _ => create_new_report end in
  (if create_new_report
   then modify (set_speakers_summary (Some [speakers_summary_header]))
   else ret tt) ;;
  for_each speakers
    (fun '(page, speaker) =>
       modify (fun st => set_speakers_summary
                 (append_line
                    (tsv [sp_name speaker; sp_titles speaker; sp_function speaker;
                          sp_stenoname speaker; sp_sex speaker; sp_group speaker;
                          sp_birthdate speaker; page])
                    (speakers_summary st)) st)).

End Program.

(** ** The main program *)

(** [SessionParser.__init__] *)
Definition new_config (year : Z) (base_url session_number session_link : str)
  : result Config :=
  match int_of_str session_number with
  | None => Raise ValueError
  | Some n =>
      Ok (mkConfig year base_url (base_url ++ session_number ++ lit "schuz/")
                   (base_url ++ session_link) n)
  end.

Definition valid_years : list Z := [1993; 1996; 1998; 2002; 2006; 2010; 2013; 2017]%Z.

Section Main.
Variable net : str -> option (bool * str).
Variable soup_of : str -> Soup.

(** The module-level [get_all_stenos]: the links of the index page that
    lead to a session.  [l.get('href')] is [None] for an anchor without
    the attribute, and searching [None] raises. *)
Fixpoint session_links_of (reg_ex_steno_main : regex) (anchors : list Tag)
  : M (list str) :=
  match anchors with
  | [] => ret []
  | l :: ls =>
      match Dict.get (lit "href") (attrs l) with
      | None => raise TypeError
      | Some href =>
          rest <- session_links_of reg_ex_steno_main ls ;;
          ret (match search reg_ex_steno_main href with
               | Some _ => href :: rest
               | None => rest
               end)
      end
  end.

Definition get_all_stenos_links (res : str) (year : Z) : M (list str) :=
  session_links_of (reg_ex_steno_main year) (all_a (soup_of res)).

(** The body of the loop over the session links.  The locals are the
    last session created (here, whether there is one) and
    [create_new_report]; [speakers] travels in the state. *)
Definition run_session (year : Z) (base_page_url : str) (link : str)
           (loc : bool * bool) : M (bool * bool) :=
  let '(have_session, create_new_report) := loc in
  let link := if (year <? 2010)%Z then link ++ lit "index.htm" else link in
  match rmatch_ reg_ex_session_id link with
  | None => logging DEBUG (NoSessionNumber link) ;; ret (have_session, create_new_report)
  | Some session_id =>
      match new_config year base_page_url (group_or_empty session_id 1) link with
      | Raise e => raise e
      | Ok cfg =>
          modify (fun st => fresh_session (speakers st) st) ;;
          parse_session net soup_of cfg ;;
          parse_speakers net soup_of ;;
          generate_files_and_report cfg create_new_report ;;
          ret (true, false)
      end
  end.

(** The script under [if __name__ == "__main__"], from the command-line
    arguments [--year] and [--new-report]. *)
Definition main (year : Z) (create_new_report : bool) : M unit :=
  if negb (existsb (Z.eqb year) valid_years)
then logging ERROR InvalidYear ;; raise (SystemExit (-1))
  else
    let base_page_url :=
      if (2010 <=? year)%Z
      then lit "http://psp.cz/eknih/" ++ str_of_Z year ++ lit "ps/stenprot/"
      else lit "http://public.psp.cz/eknih/" ++ str_of_Z year ++ lit "ps/stenprot/" in
    let steno_page_url := base_page_url ++ lit "index.htm" in
    match net steno_page_url with
    | None => raise RequestFailed
    | Some (ok, text) =>
        rc <- check_request ok ;;
        if negb rc then logging ERROR CannotConnect ;; raise (SystemExit (-1))
        else
          session_links <- get_all_stenos_links text year ;;
          '(have_session, _) <-
            for_fold session_links (false, create_new_report)
                     (run_session year base_page_url) ;;
          if have_session : bool then
            st <- get_state ;;
            generate_speakers_report (speakers st) true
          else raise AttributeError
    end.
End Main.

(* ================================================================== *)
(** * Notions used to state the properties *)
(* ================================================================== *)

(** The length of the longest prefix of [s] in the class [p]. *)
Fixpoint span (p : char -> bool) (s : str) : nat :=
  match s with
  | c :: s' => if p c then S (span p s') else 0
  | [] => 0
  end.

(** Every run of whitespace becomes one space; [in_run] tells that the
    previous character was whitespace. *)
Fixpoint squeeze (in_run : bool) (s : str) : str :=
  match s with
  | [] => []
  | c :: s' =>
      if isspace c then (if in_run then squeeze true s' else SPACE :: squeeze true s')
      else c :: squeeze false s'
  end.

(** Every whitespace character of [s] is an ordinary space and does not
    follow another whitespace character; [prev_ws] stands for the
    character before [s]. *)
Fixpoint tidy (prev_ws : bool) (s : str) : bool :=
  match s with
  | [] => true
  | c :: s' =>
      if isspace c then (c =? SPACE)%N && negb prev_ws && tidy true s'
      else tidy false s'
  end.

(* ================================================================== *)
(** * Sample documents *)
(* ================================================================== *)

(** A paragraph that opens the turn of "Poslanec Jan Novák:". *)
Definition sample_turn : Para :=
  [Anchor (mkTag [(lit "id", lit "r1"); (lit "href", lit "/sqw/detail.sqw?id=5")]
                 (lit "Poslanec Jan Novák:") None);
   Txt (lit " Dobrý den,  pane.")].

(** What a successful match says about the matched text [w] and the
    captures, read off the pattern: [cs] are the captures before, [cs']
    after (the latest first). *)
Definition hi_ok (hi : option nat) (n : nat) : Prop :=
  match hi with Some h => n <= h | None => True end.

Fixpoint den (r : regex) (w : str) (cs cs' : captures) : Prop :=
  match r with
  | Lit l => w = l /\ cs' = cs
  | Cls p => (exists c, w = [c] /\ p c = true) /\ cs' = cs
  | Rep p lo hi =>
      Forall (fun c => p c = true) w /\ lo <= length w /\ hi_ok hi (length w)
      /\ cs' = cs
  | Cat r1 r2 =>
      exists w1 w2 cs1, w = w1 ++ w2 /\ den r1 w1 cs cs1 /\ den r2 w2 cs1 cs'
  | Grp n r1 => exists cs1, den r1 w cs cs1 /\ cs' = (n, w) :: cs1
  | Bol => w = [] /\ cs' = cs
  | Eol => w = [] /\ cs' = cs
  end.



(** A page seen only through its title. *)
Definition titled (t : str) : Soup := mkSoup (Some (Some t)) [] [] None None [].


(** ** Paragraphs of a transcript, as the segmenter sorts them *)

(** A paragraph without content. *)
Definition blank (p : Para) : bool :=
  str_eqb (p_text p) [NBSP] || str_eqb (p_text p) [].

(** An anchor that carries an [id] but is no speaker label: it points at
    a voting record, or it has no text. *)
Definition not_a_label (a : Tag) : bool :=
  match Dict.get (lit "id") (attrs a) with
  | Some _ =>
      match Dict.get (lit "href") (attrs a) with
      | Some href => contains (lit "hlasy.sqw") href
      | None => false
      end || str_eqb (text a) []
  | None => false
  end.

(** The paragraphs the loop leaves with [continue]. *)
Definition skipped (p : Para) : bool :=
  blank p || match p_find_a p with Some a => not_a_label a | None => false end.

(** The paragraphs that open a speaker turn. *)
Definition opens (p : Para) : bool :=
  negb (skipped p) &&
  match p_find_a p with Some a => has_attr a (lit "id") | None => false end.

(** What a paragraph that is not skipped adds to the buffer: its filtered
    text, without the speaker anchor when it opens a turn, and a newline. *)
Definition contribution (p : Para) : str :=
  filter_text (strip (p_text (if opens p then p_extract_a p else p))) ++ [NEWLINE].

(** A paragraph whose anchor carries an [id] and points at a voting
    record, and a segmenter in the middle of a turn. *)
Definition sample_vote : Para :=
  [Anchor (mkTag [(lit "id", lit "h5"); (lit "href", lit "/sqw/hlasy.sqw?G=60005")]
                 (lit "Hlasování č. 5") None);
   Txt (lit " bylo přijato.")].

Definition sample_segmenter : Segmenter :=
  mkSeg (lit "r1") (lit "Dobrý den, pane.") (lit "Poslanec_Jan_Novák") []
        (lit "Poslanec_Jan_Novák").

(** A paragraph with a plain link (no [id]) to a voting record. *)
Definition sample_plain_vote : Para :=
  [Txt (lit "Viz ");
   Anchor (mkTag [(lit "href", lit "/sqw/hlasy.sqw?G=60005")] (lit "hlasování č. 5") None);
   Txt (lit ".")].


(** ** A session ready for its report

    One topic whose list holds the same reference twice, as it does when
    the session page links the same group of a sub-page twice. *)
Definition sample_info : InterventionInfo :=
  mkInfo (lit "s005001.htm#r1") (lit "s005001.htm") (lit "r1")
         (lit "Poslanec Jan Novák") (lit "20150203").

Definition sample_config : Config :=
  mkConfig 2017 (lit "http://psp.cz/eknih/2017ps/stenprot/")
           (lit "http://psp.cz/eknih/2017ps/stenprot/005schuz/")
           (lit "http://psp.cz/eknih/2017ps/stenprot/005schuz/index.htm") 5.

Definition sample_report_state : State :=
  mkState []
          [(lit "s005001.htm",
            [(lit "r1", mkIntervention (lit "Poslanec_Jan_Novák")
                                       (lit "Dobrý den, pane.")
                                       (lit "Poslanec_Jan_Novák"))])]
          [(1%Z, [sample_info; sample_info])]
          [(1%Z, lit "Návrh zákona")]
          []
          [(lit "Poslanec_Jan_Novák",
            mkSpeaker (lit "Poslanec Jan Novák") (lit "Jan Novák") (lit "Jan Novák")
                      [] (lit "Poslanec") (lit "Man") [] [] [])]
          0 None [] [] [] None None plain_disk.


(** ** A sample site

    The session page of sitting 5 lists one topic and links the same
    group [q1] of the sub-page [s005001.html] twice; the sub-page lists
    one intervention of that group; the transcript holds its text. *)
Definition sample_session_page : Soup :=
  mkSoup (Some (Some (lit "5. schůze")))
         []
         [[Anchor (mkTag [(lit "id", lit "b1")] [] (Some (lit "Návrh zákona")));
           Anchor (mkTag [(lit "href", lit "s005001.html#q1")] (lit "3. února") None);
           Anchor (mkTag [(lit "href", lit "s005001.html#q1")] (lit "3. února") None)]]
         None None [].

Definition sample_sub_page : Soup :=
  mkSoup (Some (Some (lit "Stenografický zápis 5. schůze, 3. února 2015")))
         [mkTag [(lit "name", lit "q1")] [] None;
          mkTag [(lit "href", lit "s005001.htm#r1")] (lit "Poslanec Jan Novák") None]
         [] None None [].

Definition sample_transcript : Soup :=
  mkSoup (Some (Some (lit "Stenografický zápis 5. schůze, 3. února 2015")))
         [] [] (Some [sample_turn; sample_vote; sample_plain_vote]) None [].

Definition sample_index : Soup :=
  mkSoup (Some (Some (lit "Stenoprotokoly")))
         [mkTag [(lit "href", lit "005schuz/index.htm")] (lit "5. schůze") None]
         [] None None [].

Definition sample_biography : Soup :=
  mkSoup (Some (Some (lit "Ing. Jan Novák"))) [] [] None
         (Some (lit "Ing. Jan Novák"))
         [lit "Narozen: 12. 5. 1960 Zvolen na kandidátce: ODS"].

(** The site without the biography page of the speaker, and with it. *)
Definition sample_net_no_biography (link : str) : option (bool * str) :=
  if str_eqb link (lit "http://psp.cz/eknih/2017ps/stenprot/index.htm")
  then Some (true, lit "index page")
  else if str_eqb link (session_link sample_config)
  then Some (true, lit "session page")
  else if str_eqb link (sublinks sample_config ++ lit "s005001.html#q1")
  then Some (true, lit "sub-page")
  else if str_eqb link (sublinks sample_config ++ lit "s005001.htm")
  then Some (true, lit "transcript")
  else None.

Definition sample_net (link : str) : option (bool * str) :=
  if str_eqb link (lit "http://www.psp.cz//sqw/detail.sqw?id=5")
  then Some (true, lit "biography")
  else sample_net_no_biography link.

Definition sample_soup_of (text : str) : Soup :=
  if str_eqb text (lit "index page") then sample_index
  else if str_eqb text (lit "session page") then sample_session_page
  else if str_eqb text (lit "sub-page") then sample_sub_page
  else if str_eqb text (lit "transcript") then sample_transcript
  else if str_eqb text (lit "biography") then sample_biography
  else mkSoup None [] [] None None [].

(** A network on which every request raises, and one that answers every
    request with a bad status. *)
Definition dead_net (link : str) : option (bool * str) := None.

Definition refusing_net (link : str) : option (bool * str) := Some (false, []).

(** Two speakers as [parse_steno] registers them: a member of the
    government and a legislator. *)
Definition sample_minister : Speaker :=
  mkSpeaker (lit "Ministr financí Petr Svoboda") [] [] [] [] [] [] []
            (lit "https://www.vlada.cz/cz/clenove-vlady/petr-svoboda/").

Definition sample_deputy : Speaker :=
  mkSpeaker (lit "Poslanec Jan Novák") [] [] [] [] [] [] []
            (lit "/sqw/detail.sqw?id=5").

(** ** What a fetch may change *)

(** Two states that differ at most in the request counter, the cache and
    the log. *)
Definition same_session (a b : State) : Prop :=
  pages a = pages b /\ stenos a = stenos b /\ topics a = topics b /\
  topic_titles a = topic_titles b /\
  interventions_info a = interventions_info b /\ speakers a = speakers b /\
  session_soup a = session_soup b /\ out_files a = out_files b /\
  file_summary a = file_summary b /\ speakers_summary a = speakers_summary b.

(** No list of the interventions index holds a reference twice. *)
Definition entries_nodup (d : Dict.t str (list InterventionInfo)) : Prop :=
  forall k l, Dict.get k d = Some l -> NoDup l.


(** The open group of [parse_interventions_page] is either none or a key
    of the interventions index. *)
Definition open_group_known (q_id : str) (d : Dict.t str (list InterventionInfo)) : Prop :=
  q_id = [] \/ Dict.mem q_id d = true.

(** The address [parse_sublink_order] fetches for [sublink], whose page
    name is [page_idx]. *)
Definition sub_page_link (cfg : Config) (sublink page_idx : str) : str :=
  if (2010 <=? year cfg)%Z then sublinks cfg ++ sublink else sublinks cfg ++ page_idx.

(** The page name [parse_sublink_order] reads off a link. *)
Definition page_name_of (cfg : Config) (sublink : str) : option str :=
  option_map (fun m => group_or_empty m 1) (rmatch_ (reg_ex_page (year cfg)) sublink).

(** A network that answers every request with the session page, whose
    title carries no date. *)
Definition undated_net (link : str) : option (bool * str) :=
  Some (true, lit "session page").


(** A parser that reads every page as a sub-page whose title has the
    shape of a date line but a misspelt month. *)
Definition misdated_soup_of (text : str) : Soup :=
  titled (lit "Stenografický zápis 5. schůze, 3. unora 2015").


(** ** What a computation leaves alone *)

(** [m] never changes the part [proj] of the state, however it ends. *)
Definition keeps {X A : Type} (proj : State -> X) (m : M A) : Prop :=
  forall st r st', m st = (r, st') -> proj st' = proj st.



(** The parts of the state a resolution of a sub-page never touches. *)
Definition beyond_resolver (st : State) :=
  (stenos st, topics st, topic_titles st, speakers st, session_soup st,
   out_files st, file_summary st, speakers_summary st).


(** A turn as [parse_steno] stores it: under a tag that is not empty,
    with the speaker key as its name, a text without whitespace at either
    end, and a speaker that is in the table [sps]. *)
Definition stored_turn (sps : Dict.t str Speaker) (k : str) (i : Intervention) : Prop :=
  k <> [] /\ i_stenoname i = i_speaker_key i /\ strip (i_text i) = i_text i /\
  Dict.mem (i_speaker_key i) sps = true.

(** The state of the loop of [parse_steno] agrees with the table. *)
Definition segmenter_sound (seg : Segmenter) (sps : Dict.t str Speaker) : Prop :=
  (r_id seg <> [] -> Dict.mem (speaker_key seg) sps = true) /\
  speaker seg = speaker_key seg /\
  (forall k i, In (k, i) (interventions seg) -> stored_turn sps k i).


(** [rows] have been appended to the summary between two states. *)
Definition appended (rows : list str) (st st' : State) : Prop :=
  forall base, file_summary st = Some base -> file_summary st' = Some (base ++ rows).

(** What writing the report never touches. *)
Definition beyond_report (st : State) :=
  (pages st, stenos st, topics st, topic_titles st, interventions_info st,
   speakers st, request_counter st, session_soup st, cache st,
   speakers_summary st).

(** An exception of the file system or of an encoder. *)
Definition is_io_exn (e : exn) : bool :=
  match e with OSError | ValueError => true | _ => false end.

(** The disk does not take every text file. *)
Definition refuses (d : Disk) : Prop :=
  exists files history name text, write_out d files history name text <> Written.

(** What a step of the report has done: it appended [rows] to the
    summary and left the disk as it is; it ended normally, [count] then
    telling the rows, or with the exception of a file the disk refused. *)
Definition report_step {A} (count : A -> nat) (st : State) (r : result A) (st' : State)
           (rows : list str) : Prop :=
  appended rows st st' /\ disk st' = disk st /\
  match r with
  | Ok a => count a = length rows
  | Raise e => is_io_exn e = true /\ refuses (disk st)
  end.



(** The tag [t] is entered under the page [p] in [visited_links]. *)
Definition visited_has (visited : Dict.t str (list str)) (p t : str) : Prop :=
  exists tags, Dict.get p visited = Some tags /\ existsb (str_eqb t) tags = true.


(** An index page whose only link leads into a sitting but not to its
    index page, and a site that serves it under every address. *)
Definition sample_stray_index : Soup :=
  mkSoup (Some (Some (lit "Stenoprotokoly")))
         [mkTag [(lit "href", lit "005schuz/s005001.htm")] (lit "5. schůze") None]
         [] None None [].

Definition stray_net (link : str) : option (bool * str) := Some (true, []).

Definition stray_soup_of (text : str) : Soup := sample_stray_index.

(** A session page whose first anchor is named [top]. *)
Definition sample_top_page : Soup :=
  mkSoup None [mkTag [(lit "name", lit "top")] [] None] [] None None [].


(** [m] never leaves the set of states [I]. *)
Definition preserves {A : Type} (I : State -> Prop) (m : M A) : Prop :=
  forall st r st', I st -> m st = (r, st') -> I st'.

(** No key of the interventions index begins with [#]. *)
Definition no_hash_key (d : Dict.t str (list InterventionInfo)) : Prop :=
  forall k, startswith (lit "#") k = true -> Dict.get k d = None.

(** No anchor of the page has a [name] that begins with [#]. *)
Definition names_without_hash (soup : Soup) : bool :=
  forallb (fun a => match Dict.get (lit "name") (attrs a) with
                    | Some n => negb (startswith (lit "#") n)
                    | None => true
                    end)
          (all_a soup).

(** Every topic has an empty list of references. *)
Definition topics_empty (d : Dict.t Z (list InterventionInfo)) : Prop :=
  forall topic_id refs, In (topic_id, refs) d -> refs = [].

Definition hashless (st : State) : Prop :=
  no_hash_key (interventions_info st) /\ topics_empty (topics st).

(** A sitting of the 2013 term: a page with a topic anchor, a link to the
    group [q1] of a sub-page, the anchor that opens this group and one
    reference in it; the site serves this page under every address. *)
Definition sample_config_2013 : Config :=
  mkConfig 2013 (lit "http://psp.cz/eknih/2013ps/stenprot/")
           (lit "http://psp.cz/eknih/2013ps/stenprot/005schuz/")
           (lit "http://psp.cz/eknih/2013ps/stenprot/005schuz/index.htm") 5.

Definition sample_page_2013 : Soup :=
  mkSoup (Some (Some (lit "Stenografický zápis 5. schůze, 3. února 2015")))
         [mkTag [(lit "name", lit "b1")] [] (Some (lit "Návrh zákona"));
          mkTag [(lit "href", lit "s005001.html#q1")] (lit "3. února") None;
          mkTag [(lit "name", lit "q1")] [] None;
          mkTag [(lit "href", lit "s005001.htm#r1")] (lit "Poslanec Jan Novák") None]
         [] None None [].

Definition soup_of_2013 (text : str) : Soup := sample_page_2013.


(** ** Decimal numerals *)

(** An ASCII decimal digit. *)
Definition ascii_digit (c : char) : Prop := (48 <= c <= 57)%N.

(** A numeral without a leading zero: [0] itself, or one that begins with
    another character. *)
Definition canonical (s : str) : Prop :=
  s = [48%N] \/ exists c r, s = c :: r /\ c <> 48%N.

(** [s] without its leading zeros. *)
Fixpoint drop_zeros (s : str) : str :=
  match s with
  | c :: r => if (c =? 48)%N then drop_zeros r else s
  | [] => []
  end.


(** The topic is known and its title is [title] (or missing). *)
Definition titled_as (topic : Z) (title : option str) (s : State) : Prop :=
  Dict.mem topic (topics s) = true /\ Dict.get topic (topic_titles s) = title.


(** The report written for the sample state, with a new summary. *)
Definition sample_report_run : result unit * State :=
  generate_files_and_report sample_config true sample_report_state.

(* ================================================================== *)
(** * Properties *)
(* ================================================================== *)

Unset Implicit Arguments.

(** ** Strings *)

Lemma lstrip_suffix (s : str) : exists t, s = t ++ lstrip s.
Proof.
  induction s as [|c s [t IH]]; simpl.
  - now exists [].
  - destruct (isspace c).
    + exists (c :: t). simpl. now f_equal.
    + now exists [].
Qed.

Lemma lstrip_head (s : str) c r : lstrip s = c :: r -> isspace c = false.
Proof.
  induction s as [|a s IH]; simpl; [discriminate|].
  destruct (isspace a) eqn:E; [exact IH|].
  intros H; injection H as -> _. exact E.
Qed.

Lemma rstrip_prefix (s : str) : exists t, s = rstrip s ++ t.
Proof.
  unfold rstrip. destruct (lstrip_suffix (rev s)) as [t H].
  exists (rev t). rewrite <- rev_app_distr, <- H. now rewrite rev_involutive.
Qed.

Lemma rstrip_last (s : str) c r : rstrip s = r ++ [c] -> isspace c = false.
Proof.
  unfold rstrip. intros H.
  apply (f_equal (@rev _)) in H. rewrite rev_involutive, rev_app_distr in H.
  simpl in H. exact (lstrip_head _ _ _ H).
Qed.

Lemma lstrip_fixed (s : str) :
  (forall c r, s = c :: r -> isspace c = false) -> lstrip s = s.
Proof.
  destruct s as [|c r]; [reflexivity|]. intros H. simpl.
  now rewrite (H c r eq_refl).
Qed.

Lemma strip_head (s : str) c r : strip s = c :: r -> isspace c = false.
Proof.
  unfold strip. intros H.
  destruct (rstrip_prefix (lstrip s)) as [t Ht]. rewrite H in Ht.
  simpl in Ht. exact (lstrip_head _ _ _ Ht).
Qed.

Lemma strip_last (s : str) c r : strip s = r ++ [c] -> isspace c = false.
Proof. unfold strip. apply rstrip_last. Qed.

(** ** The whitespace pattern *)

Lemma rep_star_total (A : Type) (p : char -> bool) (k : nat -> str -> option A) :
  (forall e r, k e r <> None) ->
  forall s pos, rep p 0 None pos s k = k (pos + span p s) (skipn (span p s) s).
Proof.
  intros Hk. induction s as [|c s IH]; intros pos; simpl.
  - now rewrite Nat.add_0_r.
  - destruct (p c); simpl.
    + rewrite IH. rewrite Nat.add_succ_r. simpl.
      destruct (k (S (pos + span p s)) (skipn (span p s) s)) eqn:E; [reflexivity|].
      now apply Hk in E.
    + now rewrite Nat.add_0_r.
Qed.

Lemma match_at_spaces (pos : nat) (c : char) (s : str) :
  match_at reg_ex_spaces pos (c :: s) =
  if isspace c
  then Some (mkMatch pos (S pos + span isspace s)
                     (firstn (S pos + span isspace s - pos) (c :: s)) [])
  else None.
Proof.
  unfold match_at, reg_ex_spaces, plus. simpl.
  destruct (isspace c); simpl; [|reflexivity].
  rewrite rep_star_total by discriminate.
  reflexivity.
Qed.

Lemma sub_spaces_squeeze (s : str) :
  (forall pos, sub_from reg_ex_spaces [SPACE] 0 pos s = squeeze false s) /\
  (forall pos, sub_from reg_ex_spaces [SPACE] (span isspace s) pos s = squeeze true s).
Proof.
  induction s as [|c s [IHa IHb]]; [split; reflexivity|].
  assert (A : forall pos,
             sub_from reg_ex_spaces [SPACE] 0 pos (c :: s) = squeeze false (c :: s)).
  { intros pos. cbn [sub_from squeeze]. rewrite match_at_spaces.
    destruct (isspace c); cbn [m_end].
    - replace (pos <? S pos + span isspace s)%nat with true
        by (symmetry; apply Nat.ltb_lt; lia).
      replace (S pos + span isspace s - pos - 1)%nat with (span isspace s) by lia.
      simpl. now rewrite IHb.
    - now rewrite IHa. }
  split; [exact A|].
  intros pos. specialize (A pos). cbn [span squeeze] in *.
  destruct (isspace c) eqn:E.
  - cbn [sub_from]. apply IHb.
  - exact A.
Qed.

Lemma sub_spaces (s : str) : sub reg_ex_spaces [SPACE] s = squeeze false s.
Proof. apply sub_spaces_squeeze. Qed.

Lemma squeeze_tidy (s : str) : forall b, tidy b (squeeze b s) = true.
Proof.
  induction s as [|c s IH]; intros b; simpl; [reflexivity|].
  destruct (isspace c) eqn:E.
  - destruct b; [apply IH|]. simpl. apply IH.
  - simpl. rewrite E. apply IH.
Qed.

Lemma tidy_weaken (s : str) b : tidy b s = true -> tidy false s = true.
Proof.
  destruct s as [|c s]; simpl; [reflexivity|].
  destruct (isspace c); [|easy].
  intros H. apply andb_prop in H as [H1 H2]. apply andb_prop in H1 as [H0 _].
  now rewrite H0, H2.
Qed.

Lemma tidy_app_l (s t : str) : forall b, tidy b (s ++ t) = true -> tidy b s = true.
Proof.
  induction s as [|c s IH]; intros b; simpl; [reflexivity|].
  destruct (isspace c).
  - intros H. apply andb_prop in H as [H1 H2]. rewrite H1. simpl. now apply IH.
  - apply IH.
Qed.

Lemma tidy_app_r (s t : str) : forall b, tidy b (s ++ t) = true -> tidy false t = true.
Proof.
  induction s as [|c s IH]; intros b; simpl; [apply tidy_weaken|].
  destruct (isspace c).
  - intros H. apply andb_prop in H as [_ H2]. now apply IH in H2.
  - apply IH.
Qed.

Lemma tidy_strip (s : str) b : tidy b s = true -> tidy false (strip s) = true.
Proof.
  intros H. unfold strip.
  destruct (lstrip_suffix s) as [t Ht]. rewrite Ht in H.
  apply tidy_app_r in H.
  destruct (rstrip_prefix (lstrip s)) as [u Hu]. rewrite Hu in H.
  now apply tidy_app_l in H.
Qed.

Lemma tidy_nth (s : str) : forall b i c,
  tidy b s = true -> nth_error s i = Some c -> isspace c = true ->
  c = SPACE /\ forall d, nth_error s (S i) = Some d -> isspace d = false.
Proof.
  induction s as [|a s IH]; intros b i c Ht Hn Hc; [now destruct i|].
  simpl in Ht. destruct i as [|i]; simpl in Hn.
  - injection Hn as ->. rewrite Hc in Ht.
    apply andb_prop in Ht as [H1 H2]. apply andb_prop in H1 as [H0 _].
    split; [now apply N.eqb_eq|].
    intros d Hd. destruct s as [|a' s]; [discriminate|].
    simpl in Hd. injection Hd as ->. simpl in H2.
    destruct (isspace d); [|reflexivity]. now rewrite andb_false_r in H2.
  - destruct (isspace a).
    + apply andb_prop in Ht as [_ H2]. exact (IH _ _ _ H2 Hn Hc).
    + exact (IH _ _ _ Ht Hn Hc).
Qed.

Lemma tidy_no_nbsp (s : str) : forall b, tidy b s = true -> ~ In NBSP s.
Proof.
  intros b Ht Hin. apply In_nth_error in Hin as [i Hi].
  destruct (tidy_nth _ _ _ _ Ht Hi eq_refl) as [H _]. discriminate H.
Qed.

Lemma filter_text_tidy (t : str) : tidy false (filter_text t) = true.
Proof.
  destruct t as [|c r]; [reflexivity|].
  unfold filter_text. rewrite sub_spaces.
  apply tidy_strip with (b := false), squeeze_tidy.
Qed.

(** C10.  Whatever the input, [filter_text] returns a text without
    non-breaking space, without whitespace at either end, and in which
    every whitespace character is an ordinary space that is not followed
    by more whitespace; the empty text is mapped to the empty text. *)
Theorem filter_text_normal_form (t : str) :
  ~ In NBSP (filter_text t) /\
  (forall c r, filter_text t = c :: r -> isspace c = false) /\
  (forall c r, filter_text t = r ++ [c] -> isspace c = false) /\
  (forall i c, nth_error (filter_text t) i = Some c -> isspace c = true ->
     c = SPACE /\
     forall d, nth_error (filter_text t) (S i) = Some d -> isspace d = false) /\
  filter_text [] = [].
Proof.
  pose proof (filter_text_tidy t) as Ht.
  split; [exact (tidy_no_nbsp _ _ Ht)|].
  split; [|split; [|split; [|reflexivity]]].
  - destruct t as [|a t']; [discriminate|]. unfold filter_text. apply strip_head.
  - destruct t as [|a t']; [now destruct r|]. unfold filter_text. apply strip_last.
  - intros i c. now apply tidy_nth with (b := false).
Qed.

Lemma filter_text_normal_form_witness :
  filter_text (lit ":  Dobrý   den, ") = lit "Dobrý den," /\
  isspace (ch "D") = false /\ isspace (ch ",") = false /\
  ~ In NBSP (filter_text (lit ":  Dobrý   den, ")).
Proof.
  split; [vm_compute; reflexivity|].
  destruct (filter_text_normal_form (lit ":  Dobrý   den, ")) as (Hn & Hh & Hl & _).
  split; [|split].
  - apply (Hh (ch "D") (lit "obrý den,")). vm_compute. reflexivity.
  - apply (Hl (ch ",") (lit "Dobrý den")). vm_compute. reflexivity.
  - exact Hn.
Defined.

(** ** The speaker key *)

Lemma replace_nonempty (c : char) (old new s : str) :
  replace (c :: old) new s = replace_from (c :: old) new 0 s.
Proof. reflexivity. Qed.

Lemma replace_from_in (old new : str) (x : char) (s : str) : forall k,
  In x (replace_from old new k s) -> In x new \/ In x s.
Proof.
  induction s as [|a s IH]; intros k H; simpl in H; [now right|].
  destruct k as [|k].
  - destruct (startswith old (a :: s)).
    + apply in_app_or in H as [H|H]; [now left|].
      apply IH in H as [H|H]; [now left | right; now right].
    + destruct H as [H|H]; [right; now left|].
      apply IH in H as [H|H]; [now left | right; now right].
  - apply IH in H as [H|H]; [now left | right; now right].
Qed.

Lemma replace_char_gone (c : char) (new s : str) :
  ~ In c new -> ~ In c (replace_from [c] new 0 s).
Proof.
  intros Hn. induction s as [|a s IH]; simpl; [easy|].
  rewrite andb_true_r. destruct (c =? a)%N eqn:E.
  - intros H. apply in_app_or in H as [H|H]; [now apply Hn | now apply IH].
  - intros [H|H]; [|now apply IH].
    subst a. now rewrite N.eqb_refl in E.
Qed.








(** C5 (as stated, refuted).  The key can hold a doubled underscore: for
    the label "Ministr financí ČR , Andrej Babiš:" the space, the comma
    and the space give three underscores, of which the one pass of the
    last replacement leaves two. *)
Lemma doubled_underscore_survives :
  speaker_label (lit "Ministr financí ČR , Andrej Babiš:")
    = Ok (lit "Ministr financí ČR , Andrej Babiš") /\
  speaker_key_of (lit "Ministr financí ČR , Andrej Babiš")
    = lit "Ministr_financí_ČR__Andrej_Babiš" /\
  contains (lit "__") (speaker_key_of (lit "Ministr financí ČR , Andrej Babiš")) = true /\
  exists seg st,
    steno_step [Anchor (mkTag [(lit "id", lit "r1")]
                              (lit "Ministr financí ČR , Andrej Babiš:") None);
                Txt (lit " Děkuji.")]
               initial_segmenter empty_state = (Ok seg, st) /\
    speaker_key seg = lit "Ministr_financí_ČR__Andrej_Babiš".
Proof.
  split; [vm_compute; reflexivity|]. split; [vm_compute; reflexivity|].
  split; [vm_compute; reflexivity|].
  eexists. eexists. split; [vm_compute; reflexivity | reflexivity].
Qed.



(** ** Soundness of the matcher *)

Lemma startswith_split (l s : str) :
  startswith l s = true -> firstn (length l) s = l.
Proof.
  revert s. induction l as [|a l IH]; intros s H; [reflexivity|].
  destruct s as [|b s]; [discriminate|]. simpl in H.
  apply andb_prop in H as [E H]. apply N.eqb_eq in E. subst b.
  simpl. f_equal. now apply IH.
Qed.

Lemma startswith_length (l s : str) :
  startswith l s = true -> length l <= length s.
Proof.
  revert s. induction l as [|a l IH]; intros s H; simpl; [lia|].
  destruct s as [|b s]; [discriminate|]. simpl in H.
  apply andb_prop in H as [_ H]. apply IH in H. simpl. lia.
Qed.

Lemma firstn_plus (n1 n2 : nat) : forall s : str,
  firstn (n1 + n2) s = firstn n1 s ++ firstn n2 (skipn n1 s).
Proof.
  induction n1 as [|n1 IH]; intros s; [reflexivity|].
  destruct s as [|c s]; simpl; [now rewrite firstn_nil|].
  now rewrite IH.
Qed.

Lemma rep_sound (A : Type) (p : char -> bool) (k : nat -> str -> option A) (a : A) :
  forall s lo hi pos,
    rep p lo hi pos s k = Some a ->
    exists n, k (pos + n) (skipn n s) = Some a /\ n <= length s /\
              Forall (fun c => p c = true) (firstn n s) /\ lo <= n /\ hi_ok hi n.
Proof.
  assert (Stop : forall s lo hi pos,
             match lo with O => k pos s | S _ => None end = Some a ->
             exists n, k (pos + n) (skipn n s) = Some a /\ n <= length s /\
                       Forall (fun c => p c = true) (firstn n s) /\ lo <= n /\ hi_ok hi n).
  { intros s lo hi pos H. destruct lo; [|discriminate]. exists 0.
    rewrite Nat.add_0_r. simpl. repeat split; try lia; auto.
    destruct hi; simpl; [lia|exact I]. }
  induction s as [|c s IH]; intros lo hi pos H; simpl in H; [now apply Stop|].
  destruct (p c && negb (hi_zero hi)) eqn:E; [|now apply Stop].
  destruct (rep p (pred lo) (option_map pred hi) (S pos) s k) as [m|] eqn:R;
    [|now apply Stop].
  injection H as ->. apply IH in R as (n & Hk & Hn & Hf & Hlo & Hhi).
  apply andb_prop in E as [Ec Eh].
  exists (S n). rewrite Nat.add_succ_r. simpl.
  repeat split; try lia; auto.
  destruct hi as [[|h]|]; simpl in *; try discriminate; try lia; exact I.
Qed.

Lemma exec_sound (A : Type) (r : regex) :
  forall pos s cs (k : nat -> str -> captures -> option A) a,
    exec r pos s cs k = Some a ->
    exists n cs', k (pos + n) (skipn n s) cs' = Some a /\ n <= length s /\
                  den r (firstn n s) cs cs'.
Proof.
  induction r as [l|p|p lo hi|r1 IH1 r2 IH2|g r1 IH1| |];
    intros pos s cs k a H; simpl in H.
  - destruct (startswith l s) eqn:E; [|discriminate].
    exists (length l), cs. split; [exact H|]. split; [now apply startswith_length|].
    simpl. split; [now apply startswith_split | reflexivity].
  - destruct s as [|c s]; [discriminate|]. destruct (p c) eqn:E; [|discriminate].
    exists 1, cs. rewrite Nat.add_1_r. simpl. split; [exact H|].
    split; [lia|]. split; [|reflexivity]. now exists c.
  - apply rep_sound in H as (n & Hk & Hn & Hf & Hlo & Hhi).
    exists n, cs. split; [exact Hk|]. split; [exact Hn|]. simpl.
    rewrite length_firstn, Nat.min_l by exact Hn. auto.
  - apply IH1 in H as (n1 & cs1 & H & Hn1 & D1).
    apply IH2 in H as (n2 & cs2 & H & Hn2 & D2).
    rewrite length_skipn in Hn2.
    exists (n1 + n2), cs2. rewrite Nat.add_assoc.
    rewrite skipn_skipn, (Nat.add_comm n2 n1) in H.
    split; [exact H|]. split; [lia|]. simpl.
    exists (firstn n1 s), (firstn n2 (skipn n1 s)), cs1.
    split; [|now split]. apply firstn_plus.
  - apply IH1 in H as (n & cs1 & H & Hn & D).
    exists n, ((g, firstn n s) :: cs1).
    replace (pos + n - pos) with n in H by lia.
    split; [exact H|]. split; [exact Hn|]. simpl. now exists cs1.
  - destruct (pos =? 0); [|discriminate]. exists 0, cs.
    rewrite Nat.add_0_r. simpl. auto with arith.
  - assert (E : k pos s cs = Some a).
    { destruct s as [|c [|d s]]; try discriminate; [exact H|].
      destruct (c =? NEWLINE)%N; [exact H | discriminate]. }
    exists 0, cs. rewrite Nat.add_0_r. simpl. auto with arith.
Qed.

Lemma match_at_sound (r : regex) (pos : nat) (s : str) (m : rmatch) :
  match_at r pos s = Some m ->
  exists n, n <= length s /\ m_start m = pos /\ m_end m = pos + n /\
            m_group0 m = firstn n s /\ den r (firstn n s) [] (m_caps m).
Proof.
  unfold match_at. intros H. apply exec_sound in H as (n & cs & H & Hn & D).
  injection H as <-. exists n. simpl.
  replace (pos + n - pos) with n by lia. auto.
Qed.


(** ** Digits *)














(** ** The date of a page *)





(** ** The transcript segmenter *)

Lemma has_attr_get (a : Tag) (k : str) :
  has_attr a k = match Dict.get k (attrs a) with Some _ => true | None => false end.
Proof. reflexivity. Qed.

(** A skipped paragraph changes nothing: no flush, no label, no text. *)
Lemma steno_step_skipped (p : Para) (seg : Segmenter) (st : State) :
  skipped p = true -> steno_step p seg st = (Ok seg, st).
Proof.
  unfold skipped, blank, steno_step. intros H.
  destruct (str_eqb (p_text p) [NBSP] || str_eqb (p_text p) []); [reflexivity|].
  simpl in H. destruct (p_find_a p) as [a|]; [|discriminate].
  unfold not_a_label in H.
  destruct (Dict.get (lit "id") (attrs a)); [|discriminate].
  destruct (match Dict.get (lit "href") (attrs a) with
            | Some href => contains (lit "hlasy.sqw") href
            | None => false
            end); [reflexivity|].
  simpl in H. now rewrite H.
Qed.

(** A paragraph that is neither skipped nor an opener is appended to the
    buffer and changes nothing else. *)
Lemma steno_step_continues (p : Para) (seg : Segmenter) (st : State) :
  skipped p = false -> opens p = false ->
  steno_step p seg st =
  (Ok (mkSeg (r_id seg) (buffer seg ++ contribution p) (speaker seg)
             (interventions seg) (speaker_key seg)), st).
Proof.
  unfold contribution. intros Hs Ho. rewrite Ho.
  unfold opens in Ho. rewrite Hs in Ho. simpl in Ho.
  unfold skipped, blank in Hs. apply orb_false_elim in Hs as [Hb Hs].
  unfold steno_step. rewrite Hb.
  destruct (p_find_a p) as [a|]; [|reflexivity].
  rewrite has_attr_get in Ho.
  destruct (Dict.get (lit "id") (attrs a)); [discriminate | reflexivity].
Qed.


Lemma for_fold_aborts {A B} (body : A -> B -> M B) (x : A) (xs2 : list A) e :
  forall (xs1 : list A) (acc acc1 : B) (st st1 st2 : State),
    for_fold xs1 acc body st = (Ok acc1, st1) ->
    body x acc1 st1 = (Raise e, st2) ->
    for_fold (xs1 ++ x :: xs2) acc body st = (Raise e, st2).
Proof.
  induction xs1 as [|y xs1 IH]; intros acc acc1 st st1 st2 H E; simpl in *.
  - injection H as -> ->. unfold bind. now rewrite E.
  - unfold bind in *. destruct (body y acc st) as [[a|e'] s]; [|discriminate].
    now apply (IH a acc1 s st1 st2).
Qed.

(** An opener whose label is empty once filtered raises [IndexError] at
    [speaker[-1]], before anything is flushed or registered. *)
Lemma steno_step_empty_label (p : Para) (a : Tag) (seg : Segmenter) (st : State) :
  opens p = true -> p_find_a p = Some a -> filter_text (text a) = [] ->
  steno_step p seg st = (Raise IndexError, st).
Proof.
  intros Ho Ha Hl. unfold opens in Ho. apply andb_prop in Ho as [Hs Hi].
  apply negb_true_iff in Hs. rewrite Ha in Hi. rewrite has_attr_get in Hi.
  unfold skipped, blank in Hs. apply orb_false_elim in Hs as [Hb Hs].
  rewrite Ha in Hs. unfold not_a_label in Hs.
  unfold steno_step. rewrite Hb, Ha.
  destruct (Dict.get (lit "id") (attrs a)) as [id|]; [|discriminate].
  apply orb_false_elim in Hs as [Hh Ht]. rewrite Hh, Ht.
  unfold speaker_label. rewrite Hl. reflexivity.
Qed.

Lemma steno_fold_continues (rest : list Para) :
  (forall p, In p rest -> opens p = false) ->
  forall seg st,
    for_fold rest seg steno_step st =
    (Ok (mkSeg (r_id seg)
               (buffer seg ++ flat_map contribution
                                (filter (fun p => negb (skipped p)) rest))
               (speaker seg) (interventions seg) (speaker_key seg)), st).
Proof.
  induction rest as [|p rest IH]; intros Hr seg st; simpl.
  - rewrite app_nil_r. now destruct seg.
  - unfold bind. destruct (skipped p) eqn:Hs; simpl.
    + rewrite (steno_step_skipped _ _ _ Hs). apply IH. intros q Hq. apply Hr. now right.
    + rewrite (steno_step_continues _ _ _ Hs (Hr p (or_introl eq_refl))).
      rewrite IH by (intros q Hq; apply Hr; now right).
      simpl. now rewrite app_assoc.
Qed.




(** ** The report *)

(** C1 (the code departs from it).  With a topic that holds the same
    (sub-page, reference tag) pair twice, [generate_files_and_report]
    writes two files, orders 001 and 002, and two rows, and logs no skip:
    the first pair met on a page only creates the empty list of visited
    tags for that page and is not entered in it. *)
Theorem duplicate_reference_written_twice :
  exists st',
    generate_files_and_report sample_config true sample_report_state = (Ok tt, st') /\
    Dict.keys (out_files st') =
      [lit "s_005_20150203_t_001_i_001_Poslanec_Jan_Novák.txt";
       lit "s_005_20150203_t_001_i_002_Poslanec_Jan_Novák.txt"] /\
    option_map (@length str) (file_summary st') = Some 3 /\
    log st' = [(DEBUG, TopicLength 1 2); (INFO, FilesGenerated 2)].
Proof. eexists. vm_compute. repeat split. Qed.

(** Only from its third occurrence on is that pair skipped. *)
Lemma third_reference_skipped :
  exists st',
    generate_files_and_report sample_config true
      (set_topics [(1%Z, [sample_info; sample_info; sample_info])] sample_report_state)
    = (Ok tt, st') /\
    length (out_files st') = 2 /\
    log st' = [(DEBUG, TopicLength 1 3);
               (WARNING, SkipVisited (lit "r1") (lit "s005001.htm"));
               (INFO, FilesGenerated 2)].
Proof. eexists. vm_compute. repeat split. Qed.

(** ** Dictionaries *)

Lemma keqb_refl {K} `{Dict.Key K} (k : K) : Dict.keqb k k = true.
Proof. now apply Dict.keqb_eq. Qed.

Lemma get_set_same {K V} `{Dict.Key K} (k : K) (v : V) (d : Dict.t K V) :
  Dict.get k (Dict.set k v d) = Some v.
Proof.
  induction d as [|[k' v'] d IH]; simpl.
  - now rewrite keqb_refl.
  - destruct (Dict.keqb k' k) eqn:E; simpl; rewrite E; [reflexivity | exact IH].
Qed.

Lemma get_set_other {K V} `{Dict.Key K} (k k' : K) (v : V) (d : Dict.t K V) :
  k <> k' -> Dict.get k (Dict.set k' v d) = Dict.get k d.
Proof.
  intros Hne. induction d as [|[k0 v0] d IH]; simpl.
  - destruct (Dict.keqb k' k) eqn:E; [|reflexivity].
    apply Dict.keqb_eq in E. congruence.
  - destruct (Dict.keqb k0 k') eqn:E; simpl.
    + apply Dict.keqb_eq in E. subst k0.
      destruct (Dict.keqb k' k) eqn:E'; [|reflexivity].
      apply Dict.keqb_eq in E'. congruence.
    + destruct (Dict.keqb k0 k); [reflexivity | exact IH].
Qed.

Lemma mem_set_same {K V} `{Dict.Key K} (k : K) (v : V) (d : Dict.t K V) :
  Dict.mem k (Dict.set k v d) = true.
Proof. unfold Dict.mem. now rewrite get_set_same. Qed.

Lemma str_eqb_eq (a b : str) : str_eqb a b = true <-> a = b.
Proof. exact (Dict.keqb_eq a b). Qed.

Lemma str_eq_dec (a b : str) : {a = b} + {a <> b}.
Proof. apply list_eq_dec, N.eq_dec. Qed.

Lemma entries_nodup_set (k : str) (l : list InterventionInfo)
      (d : Dict.t str (list InterventionInfo)) :
  entries_nodup d -> NoDup l -> entries_nodup (Dict.set k l d).
Proof.
  intros Hd Hl k' l' Hg. destruct (str_eq_dec k' k) as [->|Hne].
  - rewrite get_set_same in Hg. now injection Hg as <-.
  - rewrite get_set_other in Hg by exact Hne. exact (Hd _ _ Hg).
Qed.

Lemma info_in_false (x : InterventionInfo) (l : list InterventionInfo) :
  info_in x l = false -> ~ In x l.
Proof. unfold info_in. now destruct (in_dec info_eq_dec x l). Qed.

Lemma nodup_snoc (x : InterventionInfo) (l : list InterventionInfo) :
  NoDup l -> ~ In x l -> NoDup (l ++ [x]).
Proof.
  intros Hl Hx. apply NoDup_rev in Hl. apply (NoDup_cons x) in Hl.
  - apply NoDup_rev in Hl. simpl in Hl. now rewrite rev_involutive in Hl.
  - now rewrite <- in_rev.
Qed.

(** ** What a fetch changes *)

Lemma same_session_refl (st : State) : same_session st st.
Proof. unfold same_session. repeat split. Qed.

Lemma same_session_trans (a b c : State) :
  same_session a b -> same_session b c -> same_session a c.
Proof. unfold same_session. intuition congruence. Qed.

Lemma same_session_log (st : State) l : same_session st (set_log l st).
Proof. unfold same_session. repeat split. Qed.

(** The ways [request] can go, once its definition is unfolded for the
    state [st]: the name is stored, or the disk is asked and, if nothing
    is there, the network. *)
Ltac request_cases net st :=
  unfold check_request, logging; unfold bind, get_state, modify, ret, raise;
  destruct (Dict.get _ (cache st));
  [|match goal with
    | |- context [probe_cache ?d ?c ?l ?n] =>
        destruct (probe_cache d c l n) as [|?e|?e|?t]
    end;
    [destruct (net _) as [[[|] ?text]|]; cbv beta iota delta [negb];
     [match goal with
      | |- context [store_cache ?d ?c ?l ?n ?t] => destruct (store_cache d c l n t)
      end| |]| | |]].

Lemma request_frame (net : str -> option (bool * str)) (link : str)
      (st : State) r st' :
  request net link st = (r, st') -> same_session st st'.
Proof.
  unfold request.
  generalize (replace (lit "http://public.psp.cz/eknih/") [] link). intros f.
  request_cases net st; intros H; injection H as <- <-; unfold same_session; repeat split.
Qed.

(** A failed request can only raise an exception the callers catch. *)
Lemma request_raises (net : str -> option (bool * str)) (link : str)
      (st : State) e st' :
  request net link st = (Raise e, st') -> is_Exception e = true.
Proof.
  unfold request.
  generalize (replace (lit "http://public.psp.cz/eknih/") [] link). intros f.
  request_cases net st; intros H; try discriminate H; injection H as <- _;
    try reflexivity; match goal with e : io_error |- _ => now destruct e end.
Qed.

Lemma get_steno_date_frame (soup : Soup) (st : State) r st' :
  get_steno_date soup st = (r, st') -> same_session st st'.
Proof.
  unfold get_steno_date.
  destruct (title soup) as [[[|c t]|]|];
    try (intros H; injection H as <- <-; apply same_session_refl).
  destruct (search _ _).
  - unfold bind, subscript, ret, raise. destruct (Dict.get _ CzechMonths).
    + destruct (int_of_str _);
        intros H; injection H as <- <-; apply same_session_refl.
    + intros H; injection H as <- <-; apply same_session_refl.
  - unfold bind, logging, modify, ret. intros H; injection H as <- <-.
    apply same_session_log.
Qed.


(** ** The sub-page resolver *)

Lemma interventions_page_step_ok (date : str) (link : Tag) (q_id : str) (st : State) :
  open_group_known q_id (interventions_info st) ->
  exists q' st',
    interventions_page_step date link q_id st = (Ok q', st') /\
    open_group_known q' (interventions_info st') /\
    (entries_nodup (interventions_info st) -> entries_nodup (interventions_info st')).
Proof.
  intros Hq. unfold interventions_page_step.
  destruct (Dict.get (lit "name") (attrs link)) as [q0|].
  - unfold bind, get_state, modify, ret.
    destruct (negb (Dict.mem q0 (interventions_info st))) eqn:E.
    + do 2 eexists. split; [reflexivity|]. cbn [interventions_info set_interventions_info].
      split; [right; apply mem_set_same|].
      intros Hd. apply entries_nodup_set; [exact Hd | constructor].
    + exists q0, st. split; [reflexivity|]. apply negb_false_iff in E.
      split; [now right | auto].
  - destruct (Dict.get (lit "href") (attrs link)) as [href|];
      [|exists q_id, st; now repeat split].
    destruct (negb (str_eqb q_id [])) eqn:Eq; [|exists q_id, st; now repeat split].
    destruct (search intervention_link href) as [info|];
      [|exists q_id, st; now repeat split].
    destruct Hq as [->|Hq]; [discriminate Eq|].
    unfold bind, get_state, subscript, modify, ret.
    unfold Dict.mem in Hq.
    destruct (Dict.get q_id (interventions_info st)) as [l|] eqn:G; [|discriminate].
    match goal with
    | |- context [negb (info_in ?x l)] => destruct (negb (info_in x l)) eqn:Ein
    end.
    + do 2 eexists. split; [reflexivity|]. cbn [interventions_info set_interventions_info].
      split; [right; apply mem_set_same|].
      intros Hd. apply entries_nodup_set; [exact Hd|].
      apply nodup_snoc; [exact (Hd _ _ G)|].
      apply info_in_false. now apply negb_true_iff.
    + exists q_id, st. split; [reflexivity|]. split; [|auto].
      right. unfold Dict.mem. now rewrite G.
Qed.

Lemma interventions_page_fold_ok (date : str) (links : list Tag) :
  forall q_id st,
    open_group_known q_id (interventions_info st) ->
    exists q' st',
      for_fold links q_id (interventions_page_step date) st = (Ok q', st') /\
      (entries_nodup (interventions_info st) -> entries_nodup (interventions_info st')).
Proof.
  induction links as [|link links IH]; intros q_id st Hq; simpl.
  - exists q_id, st. now split.
  - destruct (interventions_page_step_ok date link q_id st Hq)
      as (q1 & st1 & E & Hq1 & Hd1).
    destruct (IH q1 st1 Hq1) as (q2 & st2 & E2 & Hd2).
    exists q2, st2. unfold bind. rewrite E. split; [exact E2 | auto].
Qed.

(** Scanning a sub-page always succeeds and keeps the lists of the index
    free of duplicates. *)
Lemma parse_interventions_page_ok (page_soup : Soup) (date : str) (st : State) :
  exists st',
    parse_interventions_page page_soup date st = (Ok tt, st') /\
    (entries_nodup (interventions_info st) -> entries_nodup (interventions_info st')).
Proof.
  destruct (interventions_page_fold_ok date (all_a page_soup) [] st (or_introl eq_refl))
    as (q & st' & E & Hd).
  exists st'. unfold parse_interventions_page, bind.
  change (list char) with str. rewrite E. now split.
Qed.

Section Resolver.
Variable net : str -> option (bool * str).
Variable soup_of : str -> Soup.
Variable cfg : Config.

(** The ways [parse_sublink_order] can end. *)
Lemma parse_sublink_order_cases (order_id sublink : str) (st : State) r st' :
  parse_sublink_order net soup_of cfg order_id sublink st = (r, st') ->
  (page_name_of cfg sublink = None /\ r = Ok false /\ same_session st st') \/
  (exists page_idx,
      page_name_of cfg sublink = Some page_idx /\
      ((Dict.mem page_idx (pages st) = true /\ r = Ok true /\ st' = st) \/
       (Dict.mem page_idx (pages st) = false /\ r <> Ok true /\ same_session st st') \/
       (Dict.mem page_idx (pages st) = false /\ r = Ok true /\
        Dict.mem page_idx (pages st') = true /\
        (entries_nodup (interventions_info st) ->
         entries_nodup (interventions_info st'))))).
Proof.
  unfold parse_sublink_order, page_name_of.
  destruct (rmatch_ (reg_ex_page (year cfg)) sublink) as [m|]; cbn [option_map].
  - intros H. right. exists (group_or_empty m 1). split; [reflexivity|].
    revert H. unfold bind at 1. unfold get_state.
    destruct (negb (Dict.mem (group_or_empty m 1) (pages st))) eqn:E.
    + apply negb_true_iff in E. unfold bind at 1, try_except, bind at 1.
      match goal with
      | |- context [request net ?l st] =>
          destruct (request net l st) as [[text|e] st0] eqn:R
      end.
      * pose proof (request_frame _ _ _ _ _ R) as F0. unfold ret at 1.
        unfold bind at 1.
        destruct (get_steno_date (soup_of text) st0) as [[[rc date]|e] st1] eqn:D.
        -- pose proof (get_steno_date_frame _ _ _ _ D) as F1.
           pose proof (same_session_trans _ _ _ F0 F1) as F.
           destruct rc; cbn [negb].
           ++ destruct (parse_interventions_page_ok (soup_of text) date st1)
                as (st2 & P & Hd).
              unfold bind at 1. rewrite P. unfold bind, modify, ret.
              intros H; injection H as <- <-.
              right. right. split; [exact E|]. split; [reflexivity|].
              cbn [pages set_pages interventions_info]. split; [apply mem_set_same|].
              intros Hn. apply Hd.
              destruct F as (_ & _ & _ & _ & <- & _). exact Hn.
           ++ unfold bind, logging, modify, ret. intros H; injection H as <- <-.
              right. left. split; [exact E|]. split; [discriminate|].
              eapply same_session_trans; [exact F | apply same_session_log].
        -- intros H; injection H as <- <-. right. left.
           split; [exact E|]. split; [discriminate|].
           exact (same_session_trans _ _ _ F0 (get_steno_date_frame _ _ _ _ D)).
      * pose proof (request_frame _ _ _ _ _ R) as F0.
        rewrite (request_raises _ _ _ _ _ R).
        unfold ret, bind. intros H; injection H as <- <-.
        right. left. split; [exact E|]. split; [discriminate | exact F0].
    + apply negb_false_iff in E. unfold ret. intros H; injection H as <- <-.
      left. auto.
  - unfold bind, logging, modify, ret. intros H; injection H as <- <-.
    left. split; [reflexivity|]. split; [reflexivity | apply same_session_log].
Qed.

Lemma parse_sublink_order_nodup (order_id sublink : str) (st : State) r st' :
  parse_sublink_order net soup_of cfg order_id sublink st = (r, st') ->
  entries_nodup (interventions_info st) -> entries_nodup (interventions_info st').
Proof.
  intros H Hn. apply parse_sublink_order_cases in H.
  destruct H as [(_ & _ & F)|(p & _ & [(_ & _ & ->)|[(_ & _ & F)|(_ & _ & _ & Hd)]])];
    auto; destruct F as (_ & _ & _ & _ & <- & _); exact Hn.
Qed.

End Resolver.

Lemma page_name_of_some (cfg : Config) (sublink page_idx : str) :
  page_name_of cfg sublink = Some page_idx ->
  exists m, rmatch_ (reg_ex_page (year cfg)) sublink = Some m /\
            group_or_empty m 1 = page_idx.
Proof.
  unfold page_name_of. destruct (rmatch_ _ sublink) as [m|]; [|discriminate].
  intros H; injection H as <-. now exists m.
Qed.

(** C6.  Once a sub-page has been resolved, resolving it again (through
    the same link or another link to the same page) returns true and
    leaves the whole state as it was: the request counter, the cache and
    the log show no fetch, and the interventions index is unchanged.  The
    first resolution keeps the lists of the index free of duplicates. *)
Theorem resolve_twice_is_noop
        (net : str -> option (bool * str)) (soup_of : str -> Soup) (cfg : Config)
        (order_id order_id' sublink sublink' : str) (st st1 : State) :
  parse_sublink_order net soup_of cfg order_id sublink st = (Ok true, st1) ->
  page_name_of cfg sublink' = page_name_of cfg sublink ->
  parse_sublink_order net soup_of cfg order_id' sublink' st1 = (Ok true, st1) /\
  (entries_nodup (interventions_info st) -> entries_nodup (interventions_info st1)).
Proof.
  intros H Hp. split; [|exact (parse_sublink_order_nodup _ _ _ _ _ _ _ _ H)].
  apply parse_sublink_order_cases in H.
  assert (K : exists page_idx, page_name_of cfg sublink = Some page_idx /\
                               Dict.mem page_idx (pages st1) = true).
  { destruct H as [(_ & E & _)|(p & Hn & [(Hm & _ & ->)|[(_ & E & _)|(_ & _ & Hm & _)]])];
      try discriminate E; try (now elim E); now exists p. }
  destruct K as (p & Hn & Hm). rewrite Hn in Hp.
  apply page_name_of_some in Hp as (m & Em & <-).
  unfold parse_sublink_order. rewrite Em. unfold bind, get_state.
  now rewrite Hm.
Qed.

Lemma resolve_twice_is_noop_witness :
  exists st1,
    parse_sublink_order sample_net sample_soup_of sample_config
                        (lit "q1") (lit "s005001.html#q1") empty_state = (Ok true, st1) /\
    parse_sublink_order sample_net sample_soup_of sample_config
                        (lit "q2") (lit "s005001.html#q2") st1 = (Ok true, st1).
Proof.
  eexists. split; [vm_compute; reflexivity|].
  apply (resolve_twice_is_noop sample_net sample_soup_of sample_config
           (lit "q1") (lit "q2") (lit "s005001.html#q1") (lit "s005001.html#q2")
           empty_state).
  - vm_compute. reflexivity.
  - vm_compute. reflexivity.
Defined.



(** When the title has the shape of a date line but its month is not in
    the table, the resolver does not return: the lookup raises
    [KeyError].  Nothing has been recorded by then, and the handler of the
    calling loop skips the link. *)
Lemma unknown_month_is_skipped :
  let link := mkTag [(lit "href", lit "s005002.html#q1")] [] None in
  exists st',
    parse_sublink_order undated_net misdated_soup_of sample_config
                        (lit "q1") (lit "s005002.html#q1") empty_state
      = (Raise KeyError, st') /\
    post_2013_link undated_net misdated_soup_of sample_config 1%Z link empty_state
      = (Ok tt, st') /\
    pages st' = [] /\ interventions_info st' = [] /\ topics st' = [].
Proof. eexists. vm_compute. repeat split. Qed.

(** ** Topics and the interventions index *)

(** C2 (as stated, refuted).  The session page of the sample site links
    the same group of a sub-page twice under one topic; after the scan the
    list of that topic holds the same reference twice. *)
Lemma topic_list_with_duplicate :
  exists st',
    parse_session_post_2013 sample_net sample_soup_of sample_config
                            sample_session_page empty_state = (Ok tt, st') /\
    Dict.get 1%Z (topics st') = Some [sample_info; sample_info] /\
    ~ NoDup [sample_info; sample_info].
Proof.
  eexists. split; [vm_compute; reflexivity|]. split; [reflexivity|].
  intros H. inversion H as [|x l Hin _]. apply Hin. now left.
Qed.

(** C2 (amended).  Duplicates are removed inside the interventions index,
    not inside a topic: scanning a sub-page always succeeds and never puts
    a reference twice in the list of a reference tag, and a resolution of
    a sub-page keeps that so; when a topic is extended, the whole list of
    the tag is appended to the list of the topic as it is. *)
Theorem index_entries_without_duplicates :
  (forall page_soup date st,
      exists st',
        parse_interventions_page page_soup date st = (Ok tt, st') /\
        (entries_nodup (interventions_info st) ->
         entries_nodup (interventions_info st'))) /\
  (forall net soup_of cfg order_id sublink st r st',
      parse_sublink_order net soup_of cfg order_id sublink st = (r, st') ->
      entries_nodup (interventions_info st) ->
      entries_nodup (interventions_info st')) /\
  (forall topic_id q_id st topic refs,
      Dict.get topic_id (topics st) = Some topic ->
      Dict.get q_id (interventions_info st) = Some refs ->
      exists st',
        extend_topic topic_id q_id st = (Ok tt, st') /\
        Dict.get topic_id (topics st') = Some (topic ++ refs) /\
        interventions_info st' = interventions_info st).
Proof.
  split; [exact parse_interventions_page_ok|].
  split; [exact parse_sublink_order_nodup|].
  intros topic_id q_id st topic refs Ht Hr.
  unfold extend_topic, bind, get_state, subscript. rewrite Ht, Hr.
  unfold ret, modify. eexists. split; [reflexivity|].
  cbn [topics set_topics interventions_info]. split; [apply get_set_same | reflexivity].
Qed.

Lemma index_entries_without_duplicates_witness :
  exists st',
    parse_sublink_order sample_net sample_soup_of sample_config
                        (lit "q1") (lit "s005001.html#q1") empty_state = (Ok true, st') /\
    entries_nodup (interventions_info st').
Proof.
  eexists. split; [vm_compute; reflexivity|].
  apply (proj1 (proj2 index_entries_without_duplicates)
               sample_net sample_soup_of sample_config
               (lit "q1") (lit "s005001.html#q1") empty_state (Ok true)).
  - vm_compute. reflexivity.
  - intros k l H. discriminate H.
Defined.

(** ** The speaker identity resolver *)

Lemma get_in_nodup {V} (k : str) (v : V) (d : Dict.t str V) :
  NoDup (Dict.keys d) -> In (k, v) d -> Dict.get k d = Some v.
Proof.
  induction d as [|[k0 v0] d IH]; intros Hn Hin; [easy|].
  cbn [In] in Hin. cbn [Dict.get]. unfold Dict.keys in Hn. cbn [map fst] in Hn.
  inversion Hn as [|? ? Hk Hn']; subst.
  destruct Hin as [E|Hin].
  - injection E as -> ->. now rewrite keqb_refl.
  - destruct (Dict.keqb k0 k) eqn:E; [|now apply IH].
    apply Dict.keqb_eq in E. subst k0. exfalso. apply Hk.
    unfold Dict.keys. apply in_map_iff. now exists (k, v).
Qed.

Section Speakers.
Variable net : str -> option (bool * str).
Variable soup_of : str -> Soup.

Lemma enrich_speaker_named (key : str) (sp : Speaker) (st : State) :
  sp_name sp <> [] -> enrich_speaker net soup_of key sp st = (Ok tt, st).
Proof.
  intros H. unfold enrich_speaker.
  destruct (sp_name sp) as [|c n]; [easy | reflexivity].
Qed.

(** Whatever happens, an entry of the loop touches at most its own
    record. *)
Lemma enrich_speaker_speakers (key : str) (sp : Speaker) (st : State) r st' :
  enrich_speaker net soup_of key sp st = (r, st') ->
  speakers st' = speakers st \/ exists v, speakers st' = Dict.set key v (speakers st).
Proof.
  unfold enrich_speaker.
  destruct (0 <? length (sp_name sp)); [intros H; injection H as <- <-; now left|].
  unfold bind at 1.
  match goal with
  | |- (let (r0, st0) := ?m st in _) = _ -> _ =>
      assert (F : forall x s1, m st = (x, s1) -> speakers s1 = speakers st);
      [|destruct (m st) as [[[[page_name group] birth]|e] s1] eqn:E;
        specialize (F _ _ eq_refl)]
  end.
  - intros x s1.
    destruct (contains (lit "https://www.vlada.cz/cz/") (sp_link sp)).
    + unfold bind at 1, try_except.
      destruct (request net (sp_link sp) st) as [[text|e] s0] eqn:R;
        pose proof (request_frame _ _ _ _ _ R) as (_ & _ & _ & _ & _ & Hs & _).
      * unfold bind, h1_text. destruct (h1 (soup_of text));
          intros H; injection H as <- <-; now rewrite Hs.
      * rewrite (request_raises _ _ _ _ _ R).
        unfold bind, logging, modify, raise.
        intros H; injection H as <- <-. now rewrite Hs.
    + destruct (contains (lit "/sqw/detail.sqw") (sp_link sp));
        [|intros H; injection H as <- <-; reflexivity].
      destruct (search reg_ex_detail (sp_link sp));
        [|intros H; injection H as <- <-; reflexivity].
      unfold bind at 1, try_except.
      match goal with
      | |- context [request net ?l st] =>
          destruct (request net l st) as [[text|e] s0] eqn:R
      end; pose proof (request_frame _ _ _ _ _ R) as (_ & _ & _ & _ & _ & Hs & _).
      * unfold bind, h1_text. destruct (h1 (soup_of text)).
        -- destruct (parse_figcaption (soup_of text)).
           intros H; injection H as <- <-; now rewrite Hs.
        -- intros H; injection H as <- <-; now rewrite Hs.
      * rewrite (request_raises _ _ _ _ _ R).
        unfold raise. intros H; injection H as <- <-. now rewrite Hs.
  - destruct (get_speakers_name page_name (sp_stenoname sp)) as [[[n t] f] s].
    unfold modify. intros H; injection H as <- <-. right.
    cbn [speakers set_speakers]. rewrite F. eauto.
  - intros H; injection H as <- <-. now left.
Qed.

Lemma parse_speakers_loop_keeps (key : str) (sp : Speaker) (l : Dict.t str Speaker) :
  sp_name sp <> [] ->
  (forall sp', In (key, sp') l -> sp' = sp) ->
  forall st r st',
    Dict.get key (speakers st) = Some sp ->
    for_each l (fun '(key, speaker) => enrich_speaker net soup_of key speaker) st
      = (r, st') ->
    Dict.get key (speakers st') = Some sp.
Proof.
  intros Hn. induction l as [|[k s] l IH]; intros Hl st r st' Hg; simpl.
  - intros H; injection H as <- <-. exact Hg.
  - unfold bind.
    destruct (enrich_speaker net soup_of k s st) as [[u|e] st1] eqn:E.
    + apply IH; [intros sp' Hin; apply Hl; now right|].
      destruct (str_eq_dec k key) as [->|Hne].
      * rewrite (Hl s (or_introl eq_refl)) in E.
        rewrite enrich_speaker_named in E by exact Hn. inversion E; subst. exact Hg.
      * apply enrich_speaker_speakers in E as [->|[v ->]]; [exact Hg|].
        rewrite get_set_other by congruence. exact Hg.
    + intros H; injection H as <- <-.
      destruct (str_eq_dec k key) as [->|Hne].
      * rewrite (Hl s (or_introl eq_refl)) in E.
        rewrite enrich_speaker_named in E by exact Hn. discriminate E.
      * apply enrich_speaker_speakers in E as [->|[v ->]]; [exact Hg|].
        rewrite get_set_other by congruence. exact Hg.
Qed.

Lemma parse_speakers_all_named (l : Dict.t str Speaker) :
  (forall k sp, In (k, sp) l -> sp_name sp <> []) ->
  forall st,
    for_each l (fun '(key, speaker) => enrich_speaker net soup_of key speaker) st
      = (Ok tt, st).
Proof.
  induction l as [|[k s] l IH]; intros Hl st; [reflexivity|].
  simpl. unfold bind. rewrite enrich_speaker_named by (apply (Hl k); now left).
  apply IH. intros k' sp' Hin. apply (Hl k'). now right.
Qed.

End Speakers.

(** C7.  A speaker record whose normalized name is not empty is left
    alone by the resolver: its entry of the loop returns at once with the
    state untouched (no request, no log line, no field rewritten); a run
    of [parse_speakers] over a table in which every record has a name
    changes nothing; and in any run, however it ends, such a record is
    still in the table unchanged. *)
Theorem enrichment_is_idempotent
        (net : str -> option (bool * str)) (soup_of : str -> Soup) :
  (forall key sp st,
      sp_name sp <> [] -> enrich_speaker net soup_of key sp st = (Ok tt, st)) /\
  (forall st,
      (forall k sp, In (k, sp) (speakers st) -> sp_name sp <> []) ->
      parse_speakers net soup_of st = (Ok tt, st)) /\
  (forall st key sp r st',
      NoDup (Dict.keys (speakers st)) ->
      Dict.get key (speakers st) = Some sp -> sp_name sp <> [] ->
      parse_speakers net soup_of st = (r, st') ->
      Dict.get key (speakers st') = Some sp).
Proof.
  split; [exact (enrich_speaker_named net soup_of)|]. split.
  - intros st H. unfold parse_speakers, bind, get_state.
    now apply parse_speakers_all_named.
  - intros st key sp r st' Hn Hg Hs. unfold parse_speakers, bind, get_state.
    apply parse_speakers_loop_keeps; [exact Hs| |exact Hg].
    intros sp' Hin. apply (get_in_nodup _ _ _ Hn) in Hin. congruence.
Qed.

Lemma enrichment_is_idempotent_witness :
  parse_speakers dead_net sample_soup_of sample_report_state
    = (Ok tt, sample_report_state).
Proof.
  apply (proj1 (proj2 (enrichment_is_idempotent dead_net sample_soup_of))).
  intros k sp [E|[]]. injection E as <- <-. discriminate.
Defined.

(** ** Fetch failures *)

Section Failures.
Variable net : str -> option (bool * str).
Variable soup_of : str -> Soup.

Lemma enrich_government_failure (key : str) (sp : Speaker) (st st0 : State) e :
  sp_name sp = [] ->
  contains (lit "https://www.vlada.cz/cz/") (sp_link sp) = true ->
  request net (sp_link sp) st = (Raise e, st0) ->
  enrich_speaker net soup_of key sp st
    = (Raise (SystemExit (-1)), set_log (log st0 ++ [(ERROR, FailedRetrieving)]) st0).
Proof.
  intros Hn Hc R. unfold enrich_speaker. rewrite Hn, Hc. cbn [length Nat.ltb Nat.leb].
  unfold bind at 1. unfold bind at 1, try_except. rewrite R.
  rewrite (request_raises _ _ _ _ _ R). reflexivity.
Qed.

Lemma enrich_legislator_failure (key : str) (sp : Speaker) (st st0 : State) e m :
  sp_name sp = [] ->
  contains (lit "https://www.vlada.cz/cz/") (sp_link sp) = false ->
  contains (lit "/sqw/detail.sqw") (sp_link sp) = true ->
  search reg_ex_detail (sp_link sp) = Some m ->
  request net (lit "http://www.psp.cz/" ++ sp_link sp) st = (Raise e, st0) ->
  enrich_speaker net soup_of key sp st = (Raise AttributeError, st0).
Proof.
  intros Hn Hv Hc Hs R. unfold enrich_speaker. rewrite Hn, Hv, Hc, Hs.
  cbn [length Nat.ltb Nat.leb].
  unfold bind at 1. unfold bind at 1, try_except.
  match goal with
  | |- context [request net ?l st] =>
      change (request net l st)
        with (request net (lit "http://www.psp.cz/" ++ sp_link sp) st)
  end.
  rewrite R. rewrite (request_raises _ _ _ _ _ R). reflexivity.
Qed.

Lemma for_each_aborts {A} (body : A -> M unit) (x : A) (xs2 : list A) e :
  forall (xs1 : list A) (st st1 st2 : State),
    for_each xs1 body st = (Ok tt, st1) ->
    body x st1 = (Raise e, st2) ->
    for_each (xs1 ++ x :: xs2) body st = (Raise e, st2).
Proof.
  induction xs1 as [|y xs1 IH]; intros st st1 st2 H E; simpl in *.
  - injection H as ->. unfold bind. now rewrite E.
  - unfold bind in *. destruct (body y st) as [[[]|e'] s]; [|discriminate].
    now apply (IH s st1 st2).
Qed.

(** The loop of [parse_speakers] has no handler: the first entry that
    raises ends it, whatever the entries before it were. *)
Lemma parse_speakers_aborts (key : str) (sp : Speaker) (l1 l2 : Dict.t str Speaker)
      (st st1 st' : State) x :
  speakers st = l1 ++ (key, sp) :: l2 ->
  for_each l1 (fun '(k, s) => enrich_speaker net soup_of k s) st = (Ok tt, st1) ->
  enrich_speaker net soup_of key sp st1 = (Raise x, st') ->
  parse_speakers net soup_of st = (Raise x, st').
Proof.
  intros Hs Hl E. unfold parse_speakers, bind at 1, get_state. rewrite Hs.
  exact (for_each_aborts (fun '(k, s) => enrich_speaker net soup_of k s)
           (key, sp) l2 x l1 st st1 st' Hl E).
Qed.

(** Nor has the loop of the main program: what [parse_speakers] raises
    goes through [run_session]. *)
Lemma run_session_aborts (year : Z) (base_page_url link : str) (loc : bool * bool)
      (st st1 st2 : State) cfg sid r x :
  rmatch_ reg_ex_session_id
          (if (year <? 2010)%Z then link ++ lit "index.htm" else link) = Some sid ->
  new_config year base_page_url (group_or_empty sid 1)
             (if (year <? 2010)%Z then link ++ lit "index.htm" else link) = Ok cfg ->
  parse_session net soup_of cfg (fresh_session (speakers st) st) = (Ok r, st1) ->
  parse_speakers net soup_of st1 = (Raise x, st2) ->
  run_session net soup_of year base_page_url link loc st = (Raise x, st2).
Proof.
  intros Hm Hc P S. unfold run_session. destruct loc as [have create].
  cbv zeta. rewrite Hm, Hc. unfold bind at 1, modify. unfold bind at 1. rewrite P.
  unfold bind. now rewrite S.
Qed.

(** The other three requests of a session are made under a handler that
    gives up the unit and goes on. *)
Lemma resolver_fetch_failure (cfg : Config) (order_id sublink page_idx : str)
      (st st0 : State) e :
  page_name_of cfg sublink = Some page_idx ->
  Dict.mem page_idx (pages st) = false ->
  request net (sub_page_link cfg sublink page_idx) st = (Raise e, st0) ->
  parse_sublink_order net soup_of cfg order_id sublink st = (Ok false, st0).
Proof.
  intros Hn Hm R. apply page_name_of_some in Hn as (m & Em & <-).
  unfold parse_sublink_order. rewrite Em. unfold bind at 1. unfold get_state.
  rewrite Hm. cbn [negb]. unfold bind at 1, try_except, bind at 1.
  match goal with
  | |- context [request net ?l st] =>
      change (request net l st)
        with (request net (sub_page_link cfg sublink (group_or_empty m 1)) st)
  end.
  rewrite R. rewrite (request_raises _ _ _ _ _ R). reflexivity.
Qed.

Lemma steno_fetch_failure (cfg : Config) (int_info : InterventionInfo)
      (st st0 : State) e :
  Dict.mem (stenopage int_info) (stenos st) = false ->
  request net (sublinks cfg ++ stenopage int_info) st = (Raise e, st0) ->
  fetch_steno net soup_of cfg int_info st
    = (Ok tt, set_log (log st0 ++ [(ERROR, CannotOpenSteno
                                             (sublinks cfg ++ stenopage int_info))]) st0).
Proof.
  intros Hm R. unfold fetch_steno. unfold bind at 1. unfold get_state.
  rewrite Hm. cbn [negb]. unfold bind at 1, try_except, bind at 1.
  match goal with
  | |- context [request net ?l st] =>
      change (request net l st)
        with (request net (sublinks cfg ++ stenopage int_info) st)
  end.
  rewrite R. rewrite (request_raises _ _ _ _ _ R). reflexivity.
Qed.

Lemma session_fetch_failure (cfg : Config) (st st0 : State) e :
  request net (session_link cfg)
          (set_log (log st ++ [(INFO, ParsingSession (session_link cfg))]) st)
    = (Raise e, st0) ->
  parse_session net soup_of cfg st = (Ok (Some false), st0).
Proof.
  intros R. unfold parse_session. unfold bind at 1, logging, modify.
  unfold bind at 1, try_except, bind at 1. rewrite R.
  rewrite (request_raises _ _ _ _ _ R). reflexivity.
Qed.

(** The index page is fetched by the main program itself, which exits
    when the status is bad. *)
Lemma index_fetch_failure (year : Z) (create_new_report : bool) (text : str)
      (st : State) :
  existsb (Z.eqb year) valid_years = true ->
  net ((if (2010 <=? year)%Z
        then lit "http://psp.cz/eknih/" ++ str_of_Z year ++ lit "ps/stenprot/"
        else lit "http://public.psp.cz/eknih/" ++ str_of_Z year ++ lit "ps/stenprot/")
         ++ lit "index.htm") = Some (false, text) ->
  main net soup_of year create_new_report st
    = (Raise (SystemExit (-1)),
       set_log ((log st ++ [(ERROR, UnableToOpen)]) ++ [(ERROR, CannotConnect)]) st).
Proof.
  intros Hy Hn. unfold main. rewrite Hy. cbn [negb].
  match goal with
  | |- context [net ?l] =>
      change (net l)
        with (net ((if (2010 <=? year)%Z
                    then lit "http://psp.cz/eknih/" ++ str_of_Z year ++ lit "ps/stenprot/"
                    else lit "http://public.psp.cz/eknih/" ++ str_of_Z year
                           ++ lit "ps/stenprot/") ++ lit "index.htm"))
  end.
  rewrite Hn. reflexivity.
Qed.

Lemma session_links_of_pure (re : regex) (anchors : list Tag) (s1 s2 : State) :
  session_links_of re anchors s1 = (fst (session_links_of re anchors s2), s1).
Proof.
  induction anchors as [|l ls IH]; [reflexivity|]. cbn [session_links_of].
  destruct (Dict.get (lit "href") (attrs l)); [|reflexivity].
  unfold bind. rewrite IH.
  destruct (session_links_of re ls s2) as [[rest|e] s]; reflexivity.
Qed.

(** The loop of the main program has no handler either: the first
    session that raises ends the run, before the speakers report. *)
Lemma main_aborts (year : Z) (create_new_report : bool) (text : str)
      (pre post : list str) (link : str) (loc : bool * bool) (st st1 st' : State) x :
  let base_page_url :=
    if (2010 <=? year)%Z
    then lit "http://psp.cz/eknih/" ++ str_of_Z year ++ lit "ps/stenprot/"
    else lit "http://public.psp.cz/eknih/" ++ str_of_Z year ++ lit "ps/stenprot/" in
  existsb (Z.eqb year) valid_years = true ->
  net (base_page_url ++ lit "index.htm") = Some (true, text) ->
  fst (get_all_stenos_links soup_of text year st) = Ok (pre ++ link :: post) ->
  for_fold pre (false, create_new_report) (run_session net soup_of year base_page_url)
           (set_log (log st ++ [(INFO, Connected)]) st) = (Ok loc, st1) ->
  run_session net soup_of year base_page_url link loc st1 = (Raise x, st') ->
  main net soup_of year create_new_report st = (Raise x, st').
Proof.
  intros base Hy Hn Hl Hp Hr. unfold main. rewrite Hy. cbn [negb].
  fold base. rewrite Hn. unfold check_request, logging.
  unfold bind at 1. unfold bind at 1, modify, ret. cbn [negb].
  unfold bind at 1. unfold get_all_stenos_links in *.
  rewrite (session_links_of_pure _ _ _ st), Hl.
  unfold bind at 1.
  now rewrite (for_fold_aborts _ link post x pre _ loc _ st1 st' Hp Hr).
Qed.

(** From the biography page to the end of the run. *)
Lemma biography_failure_ends_run (year : Z) (create_new_report : bool) (text : str)
      (pre post : list str) (link : str) (loc : bool * bool)
      (st st1 st2 st3 st' : State) cfg sid r
      (key : str) (sp : Speaker) (l1 l2 : Dict.t str Speaker) x :
  let base_page_url :=
    if (2010 <=? year)%Z
    then lit "http://psp.cz/eknih/" ++ str_of_Z year ++ lit "ps/stenprot/"
    else lit "http://public.psp.cz/eknih/" ++ str_of_Z year ++ lit "ps/stenprot/" in
  let session_link := if (year <? 2010)%Z then link ++ lit "index.htm" else link in
  existsb (Z.eqb year) valid_years = true ->
  net (base_page_url ++ lit "index.htm") = Some (true, text) ->
  fst (get_all_stenos_links soup_of text year st) = Ok (pre ++ link :: post) ->
  for_fold pre (false, create_new_report) (run_session net soup_of year base_page_url)
           (set_log (log st ++ [(INFO, Connected)]) st) = (Ok loc, st1) ->
  rmatch_ reg_ex_session_id session_link = Some sid ->
  new_config year base_page_url (group_or_empty sid 1) session_link = Ok cfg ->
  parse_session net soup_of cfg (fresh_session (speakers st1) st1) = (Ok r, st2) ->
  speakers st2 = l1 ++ (key, sp) :: l2 ->
  for_each l1 (fun '(k, s) => enrich_speaker net soup_of k s) st2 = (Ok tt, st3) ->
  enrich_speaker net soup_of key sp st3 = (Raise x, st') ->
  main net soup_of year create_new_report st = (Raise x, st').
Proof.
  intros base slink Hy Hn Hl Hp Hm Hc Hs Hk He Hx.
  apply (main_aborts year create_new_report text pre post link loc st st1 st' x
           Hy Hn Hl Hp).
  apply (run_session_aborts year base link loc st1 st2 st' cfg sid r x Hm Hc Hs).
  exact (parse_speakers_aborts key sp l1 l2 st2 st3 st' x Hk He Hx).
Qed.

End Failures.

(** C8 (as stated, refuted).  The fetch of a biography page is not the
    only one whose failure ends the run: when the index page comes back
    with a bad status the main program exits at once. *)
Lemma index_fetch_failure_ends_run :
  main refusing_net sample_soup_of 2017 true empty_state
  = (Raise (SystemExit (-1)),
     set_log [(ERROR, UnableToOpen); (ERROR, CannotConnect)] empty_state).
Proof. vm_compute. reflexivity. Qed.

(** C8 (amended).  While a speaker without a name is enriched, a failed
    fetch of the government page ends in [SystemExit(-1)] and a failed
    fetch of the legislator page in an [AttributeError] raised by the
    handler before it can exit.  Neither the loop of [parse_speakers] nor
    the body and the loop of the main program catch what the enrichment
    of a record raises: whatever the records before it in the table and
    the sessions before this one, once the loop reaches the record the
    run ends there with that exception.  The other fetches of a session
    only give up their unit: the resolver returns false, the transcript
    is left out, [parse_session] returns false.  The fetch of the index
    page by the main program is the other fatal one. *)
Theorem enrichment_failure_is_fatal
        (net : str -> option (bool * str)) (soup_of : str -> Soup) :
  (forall key sp st st0 e,
      sp_name sp = [] ->
      contains (lit "https://www.vlada.cz/cz/") (sp_link sp) = true ->
      request net (sp_link sp) st = (Raise e, st0) ->
      enrich_speaker net soup_of key sp st
        = (Raise (SystemExit (-1)),
           set_log (log st0 ++ [(ERROR, FailedRetrieving)]) st0)) /\
  (forall key sp st st0 e m,
      sp_name sp = [] ->
      contains (lit "https://www.vlada.cz/cz/") (sp_link sp) = false ->
      contains (lit "/sqw/detail.sqw") (sp_link sp) = true ->
      search reg_ex_detail (sp_link sp) = Some m ->
      request net (lit "http://www.psp.cz/" ++ sp_link sp) st = (Raise e, st0) ->
      enrich_speaker net soup_of key sp st = (Raise AttributeError, st0)) /\
  (forall key sp l1 l2 st st1 st' x,
      speakers st = l1 ++ (key, sp) :: l2 ->
      for_each l1 (fun '(k, s) => enrich_speaker net soup_of k s) st = (Ok tt, st1) ->
      enrich_speaker net soup_of key sp st1 = (Raise x, st') ->
      parse_speakers net soup_of st = (Raise x, st')) /\
  (forall year base_page_url link loc st st1 st2 cfg sid r x,
      rmatch_ reg_ex_session_id
              (if (year <? 2010)%Z then link ++ lit "index.htm" else link) = Some sid ->
      new_config year base_page_url (group_or_empty sid 1)
                 (if (year <? 2010)%Z then link ++ lit "index.htm" else link) = Ok cfg ->
      parse_session net soup_of cfg (fresh_session (speakers st) st) = (Ok r, st1) ->
      parse_speakers net soup_of st1 = (Raise x, st2) ->
      run_session net soup_of year base_page_url link loc st = (Raise x, st2)) /\
  (forall cfg order_id sublink page_idx st st0 e,
      page_name_of cfg sublink = Some page_idx ->
      Dict.mem page_idx (pages st) = false ->
      request net (sub_page_link cfg sublink page_idx) st = (Raise e, st0) ->
      parse_sublink_order net soup_of cfg order_id sublink st = (Ok false, st0)) /\
  (forall cfg int_info st st0 e,
      Dict.mem (stenopage int_info) (stenos st) = false ->
      request net (sublinks cfg ++ stenopage int_info) st = (Raise e, st0) ->
      fetch_steno net soup_of cfg int_info st
        = (Ok tt,
           set_log (log st0 ++ [(ERROR, CannotOpenSteno
                                          (sublinks cfg ++ stenopage int_info))]) st0)) /\
  (forall cfg st st0 e,
      request net (session_link cfg)
              (set_log (log st ++ [(INFO, ParsingSession (session_link cfg))]) st)
        = (Raise e, st0) ->
      parse_session net soup_of cfg st = (Ok (Some false), st0)) /\
  (forall year create_new_report text st,
      existsb (Z.eqb year) valid_years = true ->
      net ((if (2010 <=? year)%Z
            then lit "http://psp.cz/eknih/" ++ str_of_Z year ++ lit "ps/stenprot/"
            else lit "http://public.psp.cz/eknih/" ++ str_of_Z year
                   ++ lit "ps/stenprot/") ++ lit "index.htm") = Some (false, text) ->
      main net soup_of year create_new_report st
        = (Raise (SystemExit (-1)),
           set_log ((log st ++ [(ERROR, UnableToOpen)]) ++ [(ERROR, CannotConnect)]) st)) /\
  (forall year create_new_report text pre post link loc st st1 st' x,
      let base_page_url :=
        if (2010 <=? year)%Z
        then lit "http://psp.cz/eknih/" ++ str_of_Z year ++ lit "ps/stenprot/"
        else lit "http://public.psp.cz/eknih/" ++ str_of_Z year ++ lit "ps/stenprot/" in
      existsb (Z.eqb year) valid_years = true ->
      net (base_page_url ++ lit "index.htm") = Some (true, text) ->
      fst (get_all_stenos_links soup_of text year st) = Ok (pre ++ link :: post) ->
      for_fold pre (false, create_new_report)
               (run_session net soup_of year base_page_url)
               (set_log (log st ++ [(INFO, Connected)]) st) = (Ok loc, st1) ->
      run_session net soup_of year base_page_url link loc st1 = (Raise x, st') ->
      main net soup_of year create_new_report st = (Raise x, st')) /\
  (forall year create_new_report text pre post link loc st st1 st2 st3 st'
          cfg sid r key sp l1 l2 x,
      let base_page_url :=
        if (2010 <=? year)%Z
        then lit "http://psp.cz/eknih/" ++ str_of_Z year ++ lit "ps/stenprot/"
        else lit "http://public.psp.cz/eknih/" ++ str_of_Z year ++ lit "ps/stenprot/" in
      let session_link := if (year <? 2010)%Z then link ++ lit "index.htm" else link in
      existsb (Z.eqb year) valid_years = true ->
      net (base_page_url ++ lit "index.htm") = Some (true, text) ->
      fst (get_all_stenos_links soup_of text year st) = Ok (pre ++ link :: post) ->
      for_fold pre (false, create_new_report)
               (run_session net soup_of year base_page_url)
               (set_log (log st ++ [(INFO, Connected)]) st) = (Ok loc, st1) ->
      rmatch_ reg_ex_session_id session_link = Some sid ->
      new_config year base_page_url (group_or_empty sid 1) session_link = Ok cfg ->
      parse_session net soup_of cfg (fresh_session (speakers st1) st1) = (Ok r, st2) ->
      speakers st2 = l1 ++ (key, sp) :: l2 ->
      for_each l1 (fun '(k, s) => enrich_speaker net soup_of k s) st2 = (Ok tt, st3) ->
      enrich_speaker net soup_of key sp st3 = (Raise x, st') ->
      main net soup_of year create_new_report st = (Raise x, st')).
Proof.
  split; [exact (enrich_government_failure net soup_of)|].
  split; [exact (enrich_legislator_failure net soup_of)|].
  split; [exact (parse_speakers_aborts net soup_of)|].
  split; [exact (run_session_aborts net soup_of)|].
  split; [exact (resolver_fetch_failure net soup_of)|].
  split; [exact (steno_fetch_failure net soup_of)|].
  split; [exact (session_fetch_failure net soup_of)|].
  split; [exact (index_fetch_failure net soup_of)|].
  split; [exact (main_aborts net soup_of) | exact (biography_failure_ends_run net soup_of)].
Qed.

Lemma enrichment_failure_is_fatal_witness :
  enrich_speaker dead_net sample_soup_of (lit "Ministr_financí_Petr_Svoboda")
                 sample_minister empty_state
    = (Raise (SystemExit (-1)), set_log [(ERROR, FailedRetrieving)] empty_state) /\
  enrich_speaker refusing_net sample_soup_of (lit "Poslanec_Jan_Novák")
                 sample_deputy empty_state
    = (Raise AttributeError,
       set_log [(ERROR, UnableToOpen)] (set_request_counter 1 empty_state)) /\
  parse_sublink_order dead_net sample_soup_of sample_config
                      (lit "q1") (lit "s005001.html#q1") empty_state
    = (Ok false, empty_state) /\
  exists st',
    main sample_net_no_biography sample_soup_of 2017 true empty_state
    = (Raise AttributeError, st').
Proof.
  split; [|split; [|split]].
  - apply (proj1 (enrichment_failure_is_fatal dead_net sample_soup_of)
                 (lit "Ministr_financí_Petr_Svoboda") sample_minister
                 empty_state empty_state RequestFailed).
    + reflexivity.
    + vm_compute. reflexivity.
    + vm_compute. reflexivity.
  - apply (proj1 (proj2 (enrichment_failure_is_fatal refusing_net sample_soup_of))
                 (lit "Poslanec_Jan_Novák") sample_deputy empty_state
                 (set_log [(ERROR, UnableToOpen)] (set_request_counter 1 empty_state))
                 RequestFailed
                 (mkMatch 0 20 (lit "/sqw/detail.sqw?id=5") [(1, lit "5")])).
    + reflexivity.
    + vm_compute. reflexivity.
    + vm_compute. reflexivity.
    + vm_compute. reflexivity.
    + vm_compute. reflexivity.
  - apply (proj1 (proj2 (proj2 (proj2 (proj2
                   (enrichment_failure_is_fatal dead_net sample_soup_of)))))
                 sample_config (lit "q1") (lit "s005001.html#q1") (lit "s005001.html")
                 empty_state empty_state RequestFailed).
    + vm_compute. reflexivity.
    + reflexivity.
    + vm_compute. reflexivity.
  - eexists.
    eapply (proj2 (proj2 (proj2 (proj2 (proj2 (proj2 (proj2 (proj2 (proj2
              (enrichment_failure_is_fatal sample_net_no_biography sample_soup_of))))))))))
      with (year := 2017%Z) (text := lit "index page") (pre := [])
           (link := lit "005schuz/index.htm") (post := []) (l1 := []);
      try (vm_compute; reflexivity).
Defined.

(** ** The sample site from end to end *)

(** Without the biography page of its one speaker the run over the sample
    site ends in the exception of the handler, before any file is written. *)
Lemma sample_run_without_biography :
  exists st',
    main sample_net_no_biography sample_soup_of 2017 true empty_state
      = (Raise AttributeError, st') /\
    out_files st' = [] /\ file_summary st' = None.
Proof. eexists. vm_compute. repeat split. Qed.

(** With it the run completes, and the reference the session page links
    twice is written twice. *)
Lemma sample_run_writes_twice :
  exists st',
    main sample_net sample_soup_of 2017 true empty_state = (Ok tt, st') /\
    topics st' = [(1%Z, [sample_info; sample_info])] /\
    Dict.keys (out_files st') =
      [lit "s_005_20150203_t_001_i_001_Poslanec_Jan_Novák.txt";
       lit "s_005_20150203_t_001_i_002_Poslanec_Jan_Novák.txt"] /\
    option_map (@length (list N)) (file_summary st') = Some 3.
Proof. eexists. vm_compute. repeat split. Qed.

(* ================================================================== *)
(** * Further properties of the program *)
(* ================================================================== *)

(** ** Frames *)

Section Keeps.
Context {X : Type} (proj : State -> X).

Lemma keeps_ret {A} (a : A) : keeps proj (ret a).
Proof. intros st r st' H. now injection H as <- <-. Qed.

Lemma keeps_raise {A} (e : exn) : keeps proj (@raise A e).
Proof. intros st r st' H. now injection H as <- <-. Qed.

Lemma keeps_get_state : keeps proj get_state.
Proof. intros st r st' H. now injection H as <- <-. Qed.

Lemma keeps_modify (f : State -> State) :
  (forall st, proj (f st) = proj st) -> keeps proj (modify f).
Proof. intros Hf st r st' H. injection H as <- <-. apply Hf. Qed.

Lemma keeps_bind {A B} (m : M A) (f : A -> M B) :
  keeps proj m -> (forall a, keeps proj (f a)) -> keeps proj (bind m f).
Proof.
  intros Hm Hf st r st'. unfold bind.
  destruct (m st) as [[a|e] st1] eqn:E; intros H.
  - rewrite (Hf a _ _ _ H). exact (Hm _ _ _ E).
  - injection H as <- <-. exact (Hm _ _ _ E).
Qed.

Lemma keeps_try_except {A} (m h : M A) (caught : exn -> bool) :
  keeps proj m -> keeps proj h -> keeps proj (try_except m caught h).
Proof.
  intros Hm Hh st r st'. unfold try_except.
  destruct (m st) as [[a|e] st1] eqn:E; intros H.
  - injection H as <- <-. exact (Hm _ _ _ E).
  - destruct (caught e).
    + rewrite (Hh _ _ _ H). exact (Hm _ _ _ E).
    + injection H as <- <-. exact (Hm _ _ _ E).
Qed.

Lemma keeps_subscript {K V} `{Dict.Key K} (d : Dict.t K V) (k : K) :
  keeps proj (subscript d k).
Proof. unfold subscript. destruct (Dict.get k d); [apply keeps_ret | apply keeps_raise]. Qed.

Lemma keeps_for_each {A} (body : A -> M unit) (xs : list A) :
  (forall x, keeps proj (body x)) -> keeps proj (for_each xs body).
Proof.
  intros Hb. induction xs as [|x xs IH]; simpl; [apply keeps_ret|].
  apply keeps_bind; [apply Hb | intros _; exact IH].
Qed.

Lemma keeps_for_fold {A B} (body : A -> B -> M B) (xs : list A) :
  (forall x acc, keeps proj (body x acc)) ->
  forall acc, keeps proj (for_fold xs acc body).
Proof.
  intros Hb. induction xs as [|x xs IH]; intros acc; simpl; [apply keeps_ret|].
  apply keeps_bind; [apply Hb | intros acc'; apply IH].
Qed.

Lemma keeps_logging (l : level) (e : event) :
  (forall v st, proj (set_log v st) = proj st) -> keeps proj (logging l e).
Proof. intros H. apply keeps_modify. intros st. apply H. Qed.

End Keeps.

(** One step of a frame proof: split the computation at its head. *)
Ltac keeps_step :=
  match goal with
  | |- keeps _ (bind _ _) => apply keeps_bind; [|intros ?]
  | |- keeps _ (ret _) => apply keeps_ret
  | |- keeps _ (raise _) => apply keeps_raise
  | |- keeps _ get_state => apply keeps_get_state
  | |- keeps _ (logging _ _) => apply keeps_logging; assumption
  | |- keeps _ (modify _) => apply keeps_modify; intros ?; auto
  | |- keeps _ (try_except _ _ _) => apply keeps_try_except
  | |- keeps _ (subscript _ _) => apply keeps_subscript
  | |- keeps _ (for_each _ _) => apply keeps_for_each; intros ?
  | |- keeps _ (for_fold _ _ _) => apply keeps_for_fold; intros ? ?
  | |- keeps _ (if ?b then _ else _) => destruct b
  | |- keeps _ (match ?x with _ => _ end) => destruct x
  end.

Section Frames.
Context {X : Type} (proj : State -> X).
Variable net : str -> option (bool * str).
Variable soup_of : str -> Soup.

Hypothesis proj_log : forall v st, proj (set_log v st) = proj st.

Lemma keeps_get_steno_date (soup : Soup) : keeps proj (get_steno_date soup).
Proof. unfold get_steno_date. repeat keeps_step. Qed.

Lemma keeps_get_qid_for_topic (link : str) : keeps proj (get_qid_for_topic link).
Proof. unfold get_qid_for_topic. repeat keeps_step. Qed.

Lemma keeps_get_hash_for_topic (year : Z) (link : str) :
  keeps proj (get_hash_for_topic year link).
Proof. unfold get_hash_for_topic. cbv zeta. repeat keeps_step. Qed.

Section Fetching.
Hypothesis proj_counter : forall v st, proj (set_request_counter v st) = proj st.
Hypothesis proj_cache : forall v st, proj (set_cache v st) = proj st.

Lemma keeps_request (link : str) : keeps proj (request net link).
Proof.
  unfold request.
  generalize (replace (lit "http://public.psp.cz/eknih/") [] link). intros f.
  unfold check_request. repeat keeps_step.
Qed.

Section Resolving.
Hypothesis proj_info : forall v st, proj (set_interventions_info v st) = proj st.
Hypothesis proj_pages : forall v st, proj (set_pages v st) = proj st.

Lemma keeps_interventions_page_step (date : str) (link : Tag) (q_id : str) :
  keeps proj (interventions_page_step date link q_id).
Proof. unfold interventions_page_step. repeat keeps_step. Qed.

Lemma keeps_parse_interventions_page (page_soup : Soup) (date : str) :
  keeps proj (parse_interventions_page page_soup date).
Proof.
  unfold parse_interventions_page. keeps_step; [|keeps_step].
  apply keeps_for_fold. intros link q. apply keeps_interventions_page_step.
Qed.

Lemma keeps_parse_sublink_order (cfg : Config) (order_id sublink : str) :
  keeps proj (parse_sublink_order net soup_of cfg order_id sublink).
Proof.
  unfold parse_sublink_order.
  repeat first [apply keeps_request | apply keeps_get_steno_date
                | apply keeps_parse_interventions_page | keeps_step].
Qed.

End Resolving.
End Fetching.
End Frames.

(** ** Requests and the cache *)









(** ** The resolver, whatever the outcome *)

(** X3.  A resolution is all or nothing.  It never touches the topics,
    their titles, the transcripts, the speakers or the output; and unless
    it returns true (in particular when it raises), the pages and the
    interventions index are as before as well.  When it returns true the
    page is among the pages. *)
Theorem resolver_all_or_nothing
        (net : str -> option (bool * str)) (soup_of : str -> Soup) (cfg : Config)
        (order_id sublink : str) (st st' : State) (r : result bool) :
  parse_sublink_order net soup_of cfg order_id sublink st = (r, st') ->
  beyond_resolver st' = beyond_resolver st /\
  (r <> Ok true -> pages st' = pages st /\
                   interventions_info st' = interventions_info st) /\
  (r = Ok true -> exists page_idx,
                    page_name_of cfg sublink = Some page_idx /\
                    Dict.mem page_idx (pages st') = true).
Proof.
  intros H. split.
  - revert H. apply keeps_parse_sublink_order; reflexivity.
  - apply parse_sublink_order_cases in H.
    destruct H as [(_ & -> & F)|(p & Hn & [(Hm & -> & ->)|[(_ & Hr & F)|(_ & -> & Hm & _)]])].
    + split; [intros _; destruct F as (-> & _ & _ & _ & -> & _); auto | discriminate].
    + split; [now intros [] | intros _; now exists p].
    + split; [intros _; destruct F as (-> & _ & _ & _ & -> & _); auto | now intros ->].
    + split; [now intros [] | intros _; now exists p].
Qed.

Lemma resolver_all_or_nothing_witness :
  let out := parse_sublink_order undated_net misdated_soup_of sample_config
                                 (lit "q1") (lit "s005002.html#q1") sample_report_state in
  fst out = Raise KeyError /\
  pages (snd out) = pages sample_report_state /\
  interventions_info (snd out) = interventions_info sample_report_state.
Proof.
  intros out. split; [vm_compute; reflexivity|].
  apply (proj1 (proj2 (resolver_all_or_nothing undated_net misdated_soup_of sample_config
                         (lit "q1") (lit "s005002.html#q1") sample_report_state
                         (snd out) (fst out) ltac:(vm_compute; reflexivity)))).
  vm_compute. discriminate.
Defined.

(** ** The outcomes of date derivation *)



(** ** More on the transcript segmenter *)

(** X5.  Text that comes before the first speaker label is dropped: a
    transcript in which no paragraph opens a turn gives an empty mapping,
    registers no speaker and leaves the state untouched. *)
Theorem transcript_without_speaker_is_empty (steno : Soup) (ps : list Para) (st : State) :
  main_content steno = Some ps ->
  (forall p, In p ps -> opens p = false) ->
  parse_steno steno st = (Ok [], st).
Proof.
  intros Hm Hp. unfold parse_steno. rewrite Hm. unfold bind.
  rewrite (steno_fold_continues ps Hp). reflexivity.
Qed.

Lemma transcript_without_speaker_is_empty_witness :
  parse_steno (mkSoup None [] [] (Some [sample_plain_vote; sample_vote]) None [])
              sample_report_state
  = (Ok [], sample_report_state).
Proof.
  apply (transcript_without_speaker_is_empty _ [sample_plain_vote; sample_vote]).
  - reflexivity.
  - intros p [<-|[<-|[]]]; vm_compute; reflexivity.
Defined.

(** X6.  A speaker anchor whose text is empty once filtered (only
    whitespace, or a lone colon) is not skipped: reading its last
    character raises [IndexError], nothing having been changed, and
    [parse_steno] ends with that exception when the anchor belongs to the
    first paragraph that opens a turn. *)
Theorem empty_label_raises (p : Para) (a : Tag) :
  opens p = true -> p_find_a p = Some a -> filter_text (text a) = [] ->
  (forall seg st, steno_step p seg st = (Raise IndexError, st)) /\
  (forall steno before after st,
      main_content steno = Some (before ++ p :: after) ->
      (forall q, In q before -> opens q = false) ->
      parse_steno steno st = (Raise IndexError, st)).
Proof.
  intros Ho Ha Hl.
  assert (S1 : forall seg st, steno_step p seg st = (Raise IndexError, st))
    by (intros seg st; exact (steno_step_empty_label p a seg st Ho Ha Hl)).
  split; [exact S1|].
  intros steno before after st Hm Hb. unfold parse_steno. rewrite Hm.
  unfold bind.
  erewrite for_fold_aborts; [reflexivity | apply (steno_fold_continues before Hb) | apply S1].
Qed.

Lemma empty_label_raises_witness :
  let a := mkTag [(lit "id", lit "r7")] (lit ":") None in
  steno_step [Anchor a; Txt (lit "Děkuji.")] sample_segmenter sample_report_state
  = (Raise IndexError, sample_report_state).
Proof.
  intros a.
  apply (proj1 (empty_label_raises [Anchor a; Txt (lit "Děkuji.")] a
                  ltac:(vm_compute; reflexivity) eq_refl
                  ltac:(vm_compute; reflexivity))).
Defined.

(** What one paragraph can do to the table of speakers: nothing, or add a
    stub under a key that was not there. *)
Lemma steno_step_speakers (p : Para) (seg : Segmenter) (st : State) r st' :
  steno_step p seg st = (r, st') ->
  speakers st' = speakers st \/
  exists k v, Dict.mem k (speakers st) = false /\
              speakers st' = Dict.set k v (speakers st).
Proof.
  unfold steno_step.
  destruct (str_eqb (p_text p) [NBSP] || str_eqb (p_text p) []);
    [intros H; injection H as <- <-; now left|].
  destruct (p_find_a p) as [a|]; [|intros H; injection H as <- <-; now left].
  destruct (Dict.get (lit "id") (attrs a)) as [id|];
    [|intros H; injection H as <- <-; now left].
  destruct (match Dict.get (lit "href") (attrs a) with
            | Some href => contains (lit "hlasy.sqw") href
            | None => false
            end); [intros H; injection H as <- <-; now left|].
  destruct (str_eqb (text a) []); [intros H; injection H as <- <-; now left|].
  destruct (speaker_label (text a)) as [l|e];
    [|intros H; injection H as <- <-; now left].
  unfold bind, get_state.
  destruct (negb (Dict.mem (speaker_key_of l) (speakers st))) eqn:E.
  - unfold logging, modify, ret. intros H; injection H as <- <-.
    right. do 2 eexists. apply negb_true_iff in E. split; [exact E | reflexivity].
  - unfold ret. intros H; injection H as <- <-. now left.
Qed.

Lemma get_kept_by_new_key {V} (k k' : str) (v v' : V) (d : Dict.t str V) :
  Dict.get k d = Some v -> Dict.mem k' d = false ->
  Dict.get k (Dict.set k' v' d) = Some v.
Proof.
  intros Hg Hm. rewrite get_set_other; [exact Hg|].
  intros ->. unfold Dict.mem in Hm. now rewrite Hg in Hm.
Qed.

Lemma steno_fold_speakers (ps : list Para) (key : str) (sp : Speaker) :
  forall seg st r st',
    Dict.get key (speakers st) = Some sp ->
    for_fold ps seg steno_step st = (r, st') ->
    Dict.get key (speakers st') = Some sp.
Proof.
  induction ps as [|p ps IH]; intros seg st r st' Hg; simpl.
  - intros H; injection H as <- <-. exact Hg.
  - unfold bind. destruct (steno_step p seg st) as [[seg1|e] st1] eqn:E;
      apply steno_step_speakers in E as [E|(k & v & Hm & E)].
    + apply IH. now rewrite E.
    + apply IH. rewrite E. now apply get_kept_by_new_key.
    + intros H; injection H as <- <-. now rewrite E.
    + intros H; injection H as <- <-. rewrite E. now apply get_kept_by_new_key.
Qed.

(** X7.  The first stub of a speaker wins: whatever a transcript holds
    and however its parse ends, a speaker record that was in the table
    before [parse_steno] is still there unchanged afterwards. *)
Theorem first_speaker_stub_wins (steno : Soup) (st st' : State)
        (r : result (Dict.t str Intervention)) (key : str) (sp : Speaker) :
  Dict.get key (speakers st) = Some sp ->
  parse_steno steno st = (r, st') ->
  Dict.get key (speakers st') = Some sp.
Proof.
  intros Hg. unfold parse_steno.
  destruct (main_content steno) as [ps|]; [|intros H; now injection H as <- <-].
  unfold bind.
  destruct (for_fold ps initial_segmenter steno_step st) as [[seg|e] st1] eqn:E;
    intros H; injection H as <- <-; exact (steno_fold_speakers ps key sp _ _ _ _ Hg E).
Qed.

Lemma first_speaker_stub_wins_witness :
  Dict.get (lit "Poslanec_Jan_Novák")
           (speakers (snd (parse_steno sample_transcript sample_report_state)))
  = Dict.get (lit "Poslanec_Jan_Novák") (speakers sample_report_state).
Proof.
  apply (first_speaker_stub_wins sample_transcript sample_report_state
           (snd (parse_steno sample_transcript sample_report_state))
           (fst (parse_steno sample_transcript sample_report_state))).
  - vm_compute. reflexivity.
  - vm_compute. reflexivity.
Defined.

Lemma strip_fixed (s : str) :
  (forall c r, s = c :: r -> isspace c = false) ->
  (forall c r, s = r ++ [c] -> isspace c = false) ->
  strip s = s.
Proof.
  intros Hh Hl. unfold strip. rewrite (lstrip_fixed s Hh). unfold rstrip.
  rewrite lstrip_fixed; [apply rev_involutive|].
  intros c r E. apply (Hl c (rev r)).
  apply (f_equal (@rev _)) in E. rewrite rev_involutive in E. exact E.
Qed.

Lemma strip_idempotent (s : str) : strip (strip s) = strip s.
Proof. apply strip_fixed; [apply strip_head | apply strip_last]. Qed.

Lemma in_set {K V} `{Dict.Key K} (k k' : K) (v v' : V) (d : Dict.t K V) :
  In (k', v') (Dict.set k v d) -> (k' = k /\ v' = v) \/ In (k', v') d.
Proof.
  induction d as [|[k0 v0] d IH]; simpl.
  - intros [E|[]]. injection E as <- <-. now left.
  - destruct (Dict.keqb k0 k) eqn:E; simpl.
    + apply Dict.keqb_eq in E. subst k0.
      intros [E'|Hin]; [injection E' as <- <-; now left | right; now right].
    + intros [E'|Hin]; [right; now left|].
      destruct (IH Hin) as [?|?]; [now left | right; now right].
Qed.

Lemma mem_set_grows {V} (k k' : str) (v : V) (d : Dict.t str V) :
  Dict.mem k d = true -> Dict.mem k (Dict.set k' v d) = true.
Proof.
  intros H. destruct (str_eq_dec k k') as [->|Hne]; [apply mem_set_same|].
  unfold Dict.mem. now rewrite get_set_other.
Qed.

Lemma stored_turn_grows (sps : Dict.t str Speaker) k' v (k : str) (i : Intervention) :
  stored_turn sps k i -> stored_turn (Dict.set k' v sps) k i.
Proof.
  intros (H1 & H2 & H3 & H4). repeat split; auto. now apply mem_set_grows.
Qed.

Lemma flush_sound (seg : Segmenter) (sps : Dict.t str Speaker) :
  segmenter_sound seg sps ->
  forall k i, In (k, i) (flush seg) -> stored_turn sps k i.
Proof.
  intros (Ha & Hb & Hc) k i. unfold flush.
  destruct (negb (str_eqb (r_id seg) [])) eqn:E; [|apply Hc].
  intros Hin. apply in_set in Hin as [[-> ->]|Hin]; [|now apply Hc].
  assert (Hr : r_id seg <> []).
  { intros Hr. rewrite Hr in E. discriminate E. }
  repeat split; cbn [i_stenoname i_speaker_key i_text]; auto.
  apply strip_idempotent.
Qed.

Lemma steno_step_sound (p : Para) (seg seg' : Segmenter) (st st' : State) :
  steno_step p seg st = (Ok seg', st') ->
  segmenter_sound seg (speakers st) -> segmenter_sound seg' (speakers st').
Proof.
  unfold steno_step.
  destruct (str_eqb (p_text p) [NBSP] || str_eqb (p_text p) []);
    [intros H; now injection H as <- <-|].
  assert (C : forall b,
             segmenter_sound seg (speakers st) ->
             segmenter_sound (mkSeg (r_id seg) b (speaker seg) (interventions seg)
                                    (speaker_key seg)) (speakers st)).
  { intros b (Ha & Hb & Hc). unfold segmenter_sound.
    cbn [r_id speaker speaker_key interventions]. auto. }
  destruct (p_find_a p) as [a|]; [|intros H; injection H as <- <-; apply C].
  destruct (Dict.get (lit "id") (attrs a)) as [id|];
    [|intros H; injection H as <- <-; apply C].
  destruct (match Dict.get (lit "href") (attrs a) with
            | Some href => contains (lit "hlasy.sqw") href
            | None => false
            end); [intros H; now injection H as <- <-|].
  destruct (str_eqb (text a) []); [intros H; now injection H as <- <-|].
  destruct (speaker_label (text a)) as [l|e]; [|discriminate].
  unfold bind, get_state.
  destruct (negb (Dict.mem (speaker_key_of l) (speakers st))) eqn:E.
  - unfold logging, modify, ret. intros H; injection H as <- <-. intros Hs.
    cbn [speakers set_speakers set_log]. unfold segmenter_sound.
    cbn [r_id speaker speaker_key interventions]. split; [|split].
    + intros _. apply mem_set_same.
    + reflexivity.
    + intros k i Hin. apply stored_turn_grows. exact (flush_sound seg _ Hs k i Hin).
  - unfold ret. intros H; injection H as <- <-. intros Hs.
    apply negb_false_iff in E. unfold segmenter_sound.
    cbn [r_id speaker speaker_key interventions]. split; [|split].
    + intros _. exact E.
    + reflexivity.
    + exact (flush_sound seg _ Hs).
Qed.

Lemma steno_fold_sound (ps : list Para) :
  forall seg seg' st st',
    for_fold ps seg steno_step st = (Ok seg', st') ->
    segmenter_sound seg (speakers st) -> segmenter_sound seg' (speakers st').
Proof.
  induction ps as [|p ps IH]; intros seg seg' st st'; simpl.
  - intros H; now injection H as <- <-.
  - unfold bind. destruct (steno_step p seg st) as [[seg1|e] st1] eqn:E;
      [|discriminate].
    intros H Hs. apply (IH _ _ _ _ H). exact (steno_step_sound _ _ _ _ _ E Hs).
Qed.

(** X8.  Every turn [parse_steno] returns is ready for the report: its
    reference tag is not empty, its name is its speaker key, its text has
    no whitespace at either end, and its speaker key is a key of the table
    of speakers as [parse_steno] leaves it. *)
Theorem parsed_turns_have_speakers (steno : Soup) (st st' : State)
        (turns : Dict.t str Intervention) :
  parse_steno steno st = (Ok turns, st') ->
  forall k i, In (k, i) turns ->
    k <> [] /\ i_stenoname i = i_speaker_key i /\ strip (i_text i) = i_text i /\
    Dict.mem (i_speaker_key i) (speakers st') = true.
Proof.
  unfold parse_steno. destruct (main_content steno) as [ps|]; [|discriminate].
  unfold bind.
  destruct (for_fold ps initial_segmenter steno_step st) as [[seg|e] st1] eqn:E;
    [|discriminate].
  intros H; injection H as <- <-. apply (flush_sound seg).
  apply (steno_fold_sound ps _ _ _ _ E).
  unfold segmenter_sound. cbn [initial_segmenter r_id speaker speaker_key interventions].
  split; [now intros [] | split; [reflexivity | intros k i []]].
Qed.

Lemma parsed_turns_have_speakers_witness :
  exists i st',
    fst (parse_steno sample_transcript empty_state) = Ok [(lit "r1", i)] /\
    st' = snd (parse_steno sample_transcript empty_state) /\
    Dict.mem (i_speaker_key i) (speakers st') = true.
Proof.
  eexists. eexists. split; [vm_compute; reflexivity|]. split; [reflexivity|].
  eapply (parsed_turns_have_speakers sample_transcript empty_state).
  - vm_compute. reflexivity.
  - left. reflexivity.
Defined.

(** ** More on the report *)

Lemma appended_nil (st : State) : appended [] st st.
Proof. intros base H. now rewrite app_nil_r. Qed.

Lemma appended_trans (r1 r2 : list str) (a b c : State) :
  appended r1 a b -> appended r2 b c -> appended (r1 ++ r2) a c.
Proof.
  intros H1 H2 base Hb. rewrite app_assoc. apply H2, H1, Hb.
Qed.

Lemma appended_log (st : State) v : appended [] st (set_log v st).
Proof. intros base H. rewrite app_nil_r. exact H. Qed.

Lemma io_exn_of_io (e : io_error) : is_io_exn (exn_of_io e) = true.
Proof. now destruct e. Qed.

Lemma io_exn_not_KeyError (e : io_error) : is_KeyError (exn_of_io e) = false.
Proof. now destruct e. Qed.

Section Report.
Variable cfg : Config.

Lemma write_intervention_rows (topic_id : Z) (idx : nat) (x : InterventionInfo)
      (st st' : State) (r : result bool) :
  write_intervention cfg topic_id idx x st = (r, st') ->
  exists rows,
    report_step (fun b : bool => if b then 1 else 0) st r st' rows.
Proof.
  assert (N : forall s v, appended [] s (set_log v s) /\ disk (set_log v s) = disk s).
  { intros s v. split; [apply appended_log | reflexivity]. }
  unfold write_intervention, try_except.
  unfold bind at 1. unfold get_state.
  unfold bind at 1, subscript.
  destruct (Dict.get (stenopage x) (stenos st)) as [page|];
    [|intros H; injection H as <- <-; exists [];
      split; [apply appended_log | split; reflexivity]].
  unfold ret at 1. unfold bind at 1.
  destruct (Dict.get (reftag x) page) as [steno|];
    [|intros H; injection H as <- <-; exists [];
      split; [apply appended_log | split; reflexivity]].
  unfold ret at 1. cbv zeta.
  match goal with
  | |- context [write_out ?d ?o ?l ?n ?t] =>
      destruct (write_out d o l n t) as [|e|e partial] eqn:W
  end.
  - unfold bind at 1, modify. unfold bind at 1.
    destruct (Dict.get topic_id (topic_titles st)) as [topic_title|];
      [|intros H; injection H as <- <-; exists [];
        split; [intros base Hb; now rewrite app_nil_r | split; reflexivity]].
    unfold ret at 1. unfold bind at 1.
    destruct (Dict.get (i_speaker_key steno) (speakers st)) as [sp|];
      [|intros H; injection H as <- <-; exists [];
        split; [intros base Hb; now rewrite app_nil_r | split; reflexivity]].
    unfold ret at 1. unfold bind, ret. intros H; injection H as <- <-.
    eexists [_]. split; [|split; reflexivity].
    intros base Hb. cbn [file_summary set_file_summary set_out_files].
    rewrite Hb. reflexivity.
  - unfold raise. rewrite io_exn_not_KeyError. intros H; injection H as <- <-.
    exists []. split; [apply appended_nil|]. split; [reflexivity|].
    split; [apply io_exn_of_io|]. do 4 eexists. rewrite W. discriminate.
  - unfold bind, modify, raise. rewrite io_exn_not_KeyError.
    intros H; injection H as <- <-.
    exists []. split; [intros base Hb; now rewrite app_nil_r|]. split; [reflexivity|].
    split; [apply io_exn_of_io|]. do 4 eexists. rewrite W. discriminate.
Qed.

Lemma generate_step_rows (topic_id : Z) (idx : nat) (x : InterventionInfo)
      (visited : Dict.t str (list str)) (count : nat) (st st' : State)
      (r : result (Dict.t str (list str) * nat)) :
  generate_step cfg topic_id idx x (visited, count) st = (r, st') ->
  exists rows,
    report_step (fun loc : Dict.t str (list str) * nat => snd loc - count) st r st' rows
    /\ match r with Ok loc => count <= snd loc | Raise _ => True end.
Proof.
  unfold generate_step. cbv zeta.
  assert (P : forall v : Dict.t str (list str),
             (written <- write_intervention cfg topic_id idx x ;;
              ret (v, if written : bool then S count else count)) st = (r, st') ->
             exists rows,
               report_step (fun loc : Dict.t str (list str) * nat => snd loc - count)
                           st r st' rows
               /\ match r with Ok loc => count <= snd loc | Raise _ => True end).
  { intros v. unfold bind.
    destruct (write_intervention cfg topic_id idx x st) as [[b|e] s] eqn:E;
      apply write_intervention_rows in E as (rows & A & D & L);
      intros H; injection H as <- <-; exists rows.
    - split; [split; [exact A | split; [exact D|]] |]; destruct b; cbn [snd] in *; lia.
    - split; [split; [exact A | split; [exact D | exact L]] | exact I]. }
  destruct (Dict.get (stenopage x) visited) as [tags|]; [|apply P].
  destruct (existsb (str_eqb (reftag x)) tags); [|apply P].
  unfold bind, logging, modify, ret. intros H; injection H as <- <-.
  exists []. split; [|simpl; lia].
  split; [apply appended_log | split; [reflexivity | simpl; lia]].
Qed.

Lemma generate_topic_rows (topic_id : Z) (topic : list InterventionInfo) :
  forall idx visited count st st' r,
    generate_topic cfg topic_id idx topic (visited, count) st = (r, st') ->
    exists rows,
      report_step (fun loc : Dict.t str (list str) * nat => snd loc - count) st r st' rows
      /\ match r with Ok loc => count <= snd loc | Raise _ => True end.
Proof.
  induction topic as [|x topic IH]; intros idx visited count st st' r;
    cbn [generate_topic].
  - intros H; injection H as <- <-. exists []. split; [|simpl; lia].
    split; [apply appended_nil | split; [reflexivity | simpl; lia]].
  - unfold bind.
    destruct (generate_step cfg topic_id idx x (visited, count) st)
      as [[[v1 c1]|e] st1] eqn:E1;
      apply generate_step_rows in E1 as (r1 & (A1 & D1 & L1) & M1).
    + intros E2. apply IH in E2 as (r2 & (A2 & D2 & L2) & M2).
      exists (r1 ++ r2). cbn [snd] in *.
      split; [split; [exact (appended_trans _ _ _ _ _ A1 A2) | split; [congruence|]] |].
      * destruct r as [[v2 c2]|e]; cbn [snd] in *.
        -- rewrite length_app. lia.
        -- now rewrite <- D1.
      * destruct r as [[v2 c2]|e]; cbn [snd] in *; [lia | exact I].
    + intros H; injection H as <- <-. exists r1.
      split; [split; [exact A1 | split; [exact D1 | exact L1]] | exact I].
Qed.

Lemma generate_topics_rows (ts : Dict.t Z (list InterventionInfo)) :
  forall visited count st st' r,
    for_fold ts (visited, count)
      (fun '(topic_id, topic) loc =>
         logging DEBUG (TopicLength topic_id (length topic)) ;;
         generate_topic cfg topic_id 0 topic loc) st
      = (r, st') ->
    exists rows,
      report_step (fun loc : Dict.t str (list str) * nat => snd loc - count) st r st' rows
      /\ match r with Ok loc => count <= snd loc | Raise _ => True end.
Proof.
  induction ts as [|[topic_id topic] ts IH]; intros visited count st st' r;
    cbn [for_fold].
  - intros H; injection H as <- <-. exists []. split; [|simpl; lia].
    split; [apply appended_nil | split; [reflexivity | simpl; lia]].
  - unfold bind at 1. unfold bind at 1, logging, modify.
    match goal with
    | |- context [generate_topic cfg topic_id 0 topic (visited, count) ?s] =>
        destruct (generate_topic cfg topic_id 0 topic (visited, count) s)
          as [[[v1 c1]|e] st1] eqn:E1;
        apply generate_topic_rows in E1 as (r1 & (A1 & D1 & L1) & M1)
    end.
    + intros E2.
      match type of E2 with
      | for_fold ?a ?b ?f ?s = _ =>
          assert (E2' : for_fold ts (v1, c1)
                          (fun '(topic_id, topic) loc =>
                             (logging DEBUG (TopicLength topic_id (length topic)) ;;
                              generate_topic cfg topic_id 0 topic loc)%py) st1
                        = (r, st')) by exact E2
      end.
      apply IH in E2' as (r2 & (A2 & D2 & L2) & M2).
      exists (r1 ++ r2). cbn [snd] in *.
      assert (A0 : appended (r1 ++ r2) st st').
      { eapply (appended_trans [] (r1 ++ r2)); [apply appended_log|].
        exact (appended_trans _ _ _ _ _ A1 A2). }
      split; [split; [exact A0 | split; [rewrite D2, D1; reflexivity|]] |].
      * destruct r as [[v2 c2]|e]; cbn [snd] in *.
        -- rewrite length_app. lia.
        -- rewrite D1 in L2. exact L2.
      * destruct r as [[v2 c2]|e]; cbn [snd] in *; [lia | exact I].
    + intros H; injection H as <- <-. exists r1.
      split; [|exact I].
      split; [|split; [rewrite D1; reflexivity | exact L1]].
      eapply (appended_trans [] r1); [apply appended_log | exact A1].
Qed.

(** X9.  Writing the report can fail through its text files only.  It
    ends normally unless the disk refuses a text file (the name cannot be
    opened, or the text cannot be written), and then with the exception
    of that file: a missing transcript, title or speaker only costs an
    error line, as the [KeyError] is caught.  However it ends, the
    summary begins with the header line when a new one was asked for or
    there was none, and otherwise with every line it had, followed by the
    rows appended; after a normal end the rows are as many as the count
    logged last. *)
Theorem report_fails_only_on_files
        (create_new_report : bool) (st st' : State) (r : result unit) :
  generate_files_and_report cfg create_new_report st = (r, st') ->
  (exists rows,
      file_summary st' =
        Some (match file_summary st with
              | Some old => if create_new_report then [file_summary_header] else old
              | None => [file_summary_header]
              end ++ rows) /\
      match r with
      | Ok _ => exists earlier,
                  log st' = earlier ++ [(INFO, FilesGenerated (length rows))]
      | Raise e => is_io_exn e = true
      end) /\
  ((forall files history name text,
       write_out (disk st) files history name text = Written) ->
   r = Ok tt).
Proof.
  unfold generate_files_and_report. unfold bind at 1. unfold get_state. cbv zeta.
  unfold bind at 1.
  set (fresh := match file_summary st with
                | Some _ => create_new_report
                | None => true
                end).
  assert (S0 : exists st0,
             (if fresh then modify (set_file_summary (Some [file_summary_header]))
              else ret tt) st = (Ok tt, st0) /\
             file_summary st0 =
               Some (match file_summary st with
                     | Some old => if create_new_report then [file_summary_header] else old
                     | None => [file_summary_header]
                     end) /\
             disk st0 = disk st).
  { unfold fresh. destruct (file_summary st) as [old|] eqn:F.
    - destruct create_new_report; eexists; (split; [reflexivity|]);
        (split; [first [exact F | reflexivity] | reflexivity]).
    - eexists; split; [reflexivity|]. split; reflexivity. }
  destruct S0 as (st0 & E0 & F0 & D0). rewrite E0.
  unfold bind at 1.
  match goal with
  | |- context [for_fold ?a ?b ?f st0] =>
      destruct (for_fold a b f st0) as [[[v c]|e] st1] eqn:E;
      apply generate_topics_rows in E as (rows & (A & D & L) & _)
  end.
  - unfold logging, modify. intros H; injection H as <- <-. split.
    + exists rows. cbn [file_summary set_log log]. split; [exact (A _ F0)|].
      exists (log st1). cbn [snd] in L. rewrite <- L. now rewrite Nat.sub_0_r.
    + reflexivity.
  - intros H; injection H as <- <-. destruct L as [Le (f & h & n & t & W)]. split.
    + exists rows. split; [exact (A _ F0) | exact Le].
    + intros Hd. exfalso. apply W. rewrite D0. apply Hd.
Qed.

End Report.

Lemma report_fails_only_on_files_witness :
  (exists rows,
      file_summary (snd sample_report_run) =
        Some (match file_summary sample_report_state with
              | Some old => [file_summary_header]
              | None => [file_summary_header]
              end ++ rows) /\
      match fst sample_report_run with
      | Ok _ => exists earlier,
                  log (snd sample_report_run)
                  = earlier ++ [(INFO, FilesGenerated (length rows))]
      | Raise e => is_io_exn e = true
      end) /\
  ((forall files history name text,
       write_out (disk sample_report_state) files history name text = Written) ->
   fst sample_report_run = Ok tt).
Proof.
  apply (report_fails_only_on_files sample_config true sample_report_state
           (snd sample_report_run) (fst sample_report_run)).
  vm_compute. reflexivity.
Defined.

Section ReportFrames.
Context {X : Type} (proj : State -> X).
Variable cfg : Config.
Hypothesis proj_log : forall v st, proj (set_log v st) = proj st.
Hypothesis proj_out_files : forall v st, proj (set_out_files v st) = proj st.
Hypothesis proj_file_summary : forall v st, proj (set_file_summary v st) = proj st.

Lemma keeps_write_intervention (topic_id : Z) (idx : nat) (x : InterventionInfo) :
  keeps proj (write_intervention cfg topic_id idx x).
Proof. unfold write_intervention. cbv zeta. repeat keeps_step. Qed.

Lemma keeps_generate_step (topic_id : Z) (idx : nat) (x : InterventionInfo) loc :
  keeps proj (generate_step cfg topic_id idx x loc).
Proof.
  unfold generate_step. destruct loc as [visited count]. cbv zeta.
  repeat first [apply keeps_write_intervention | keeps_step].
Qed.

Lemma keeps_generate_topic (topic_id : Z) (topic : list InterventionInfo) :
  forall idx loc, keeps proj (generate_topic cfg topic_id idx topic loc).
Proof.
  induction topic as [|x topic IH]; intros idx loc; cbn [generate_topic].
  - apply keeps_ret.
  - apply keeps_bind; [apply keeps_generate_step | intros loc'; apply IH].
Qed.

Lemma keeps_generate_files_and_report (create_new_report : bool) :
  keeps proj (generate_files_and_report cfg create_new_report).
Proof.
  unfold generate_files_and_report.
  apply keeps_bind; [apply keeps_get_state | intros st0]. cbv zeta.
  apply keeps_bind; [repeat keeps_step | intros _].
  apply keeps_bind.
  - apply keeps_for_fold. intros [topic_id topic] loc.
    apply keeps_bind; [keeps_step | intros _; apply keeps_generate_topic].
  - intros [v c]. keeps_step.
Qed.

End ReportFrames.

(** X10.  Writing the report changes nothing but the output files, the
    summary and the log: the pages, transcripts, topics, titles, index and
    speakers, the cache, the request counter and the speakers summary are
    as before. *)
Theorem report_changes_only_output (cfg : Config) (create_new_report : bool)
        (st st' : State) (r : result unit) :
  generate_files_and_report cfg create_new_report st = (r, st') ->
  beyond_report st' = beyond_report st.
Proof. apply keeps_generate_files_and_report; reflexivity. Qed.

Lemma report_changes_only_output_witness :
  beyond_report (snd (generate_files_and_report sample_config true sample_report_state))
  = beyond_report sample_report_state.
Proof.
  apply (report_changes_only_output sample_config true sample_report_state _
           (fst (generate_files_and_report sample_config true sample_report_state))).
  vm_compute. reflexivity.
Defined.

(** ** The visited links *)

Section Visited.
Variable cfg : Config.

Lemma existsb_snoc (t : str) (tags : list str) :
  existsb (str_eqb t) (tags ++ [t]) = true.
Proof.
  rewrite existsb_app. simpl.
  replace (str_eqb t t) with true by (symmetry; now apply str_eqb_eq).
  now rewrite orb_true_r.
Qed.

Lemma visited_has_set (v : Dict.t str (list str)) (p t p' : str) (tags' : list str) :
  visited_has v p t ->
  (forall tags, Dict.get p' v = Some tags ->
                existsb (str_eqb t) tags = true -> existsb (str_eqb t) tags' = true) ->
  visited_has (Dict.set p' tags' v) p t.
Proof.
  intros (tags & G & E) H. destruct (str_eq_dec p p') as [->|Hne].
  - exists tags'. rewrite get_set_same. split; [reflexivity | exact (H _ G E)].
  - exists tags. rewrite get_set_other by exact Hne. now split.
Qed.

(** What one reference does to [visited_links]: tags stay, and when the
    page was known the tag of the reference is entered. *)
Lemma generate_step_visited (topic_id : Z) (idx : nat) (x : InterventionInfo)
      v c (st : State) v' c' st' :
  generate_step cfg topic_id idx x (v, c) st = (Ok (v', c'), st') ->
  (forall p t, visited_has v p t -> visited_has v' p t) /\
  (Dict.mem (stenopage x) v = true -> visited_has v' (stenopage x) (reftag x)).
Proof.
  unfold generate_step. cbv zeta. unfold Dict.mem.
  destruct (Dict.get (stenopage x) v) as [tags|] eqn:G.
  - destruct (existsb (str_eqb (reftag x)) tags) eqn:E.
    + unfold bind, logging, modify, ret. intros H; injection H as <- <- <-.
      split; [auto|]. intros _. now exists tags.
    + unfold bind.
      destruct (write_intervention cfg topic_id idx x st) as [[b|e] s]; [|discriminate].
      unfold ret. intros H; injection H as <- <- <-. split.
      * intros p t Hv. apply visited_has_set; [exact Hv|].
        intros tags0 G0 E0. rewrite G in G0. injection G0 as <-.
        rewrite existsb_app, E0. reflexivity.
      * intros _. exists (tags ++ [reftag x]). rewrite get_set_same.
        split; [reflexivity | apply existsb_snoc].
  - unfold bind.
    destruct (write_intervention cfg topic_id idx x st) as [[b|e] s]; [|discriminate].
    unfold ret. intros H; injection H as <- <- <-. split; [|discriminate].
    intros p t Hv. apply visited_has_set; [exact Hv|].
    intros tags0 G0. rewrite G in G0. discriminate G0.
Qed.

Lemma generate_topic_visited (topic_id : Z) (topic : list InterventionInfo) :
  forall idx v c st v' c' st',
    generate_topic cfg topic_id idx topic (v, c) st = (Ok (v', c'), st') ->
    forall p t, visited_has v p t -> visited_has v' p t.
Proof.
  induction topic as [|x topic IH]; intros idx v c st v' c' st';
    cbn [generate_topic].
  - intros H; injection H as <- <- <-. auto.
  - unfold bind.
    destruct (generate_step cfg topic_id idx x (v, c) st) as [[[v1 c1]|e] st1] eqn:E;
      [|discriminate].
    intros H p t Hv. apply (IH _ _ _ _ _ _ _ H).
    now apply (proj1 (generate_step_visited _ _ _ _ _ _ _ _ _ E)).
Qed.

(** X11.  Once a sub-page is known to the report loop, each of its
    reference tags is handled at most once: after a reference on a known
    page has been met (written, failed or skipped), every later reference
    with the same page and tag, after any number of other references, is
    skipped with a warning and changes neither the counter nor any file. *)
Theorem known_page_reference_handled_once
        (x x' : InterventionInfo) (between : list InterventionInfo)
        (t1 t2 t3 : Z) (i1 i2 i3 : nat)
        (v v1 v2 : Dict.t str (list str)) (c c1 c2 : nat) (st st1 st2 : State) :
  Dict.mem (stenopage x) v = true ->
  stenopage x' = stenopage x -> reftag x' = reftag x ->
  generate_step cfg t1 i1 x (v, c) st = (Ok (v1, c1), st1) ->
  generate_topic cfg t2 i2 between (v1, c1) st1 = (Ok (v2, c2), st2) ->
  generate_step cfg t3 i3 x' (v2, c2) st2
  = (Ok (v2, c2),
     set_log (log st2 ++ [(WARNING, SkipVisited (reftag x') (stenopage x'))]) st2).
Proof.
  intros Hm Hp Ht E1 E2.
  apply generate_step_visited in E1 as [_ H1]. specialize (H1 Hm).
  apply (generate_topic_visited _ _ _ _ _ _ _ _ _ E2) in H1.
  destruct H1 as (tags & G & E). rewrite <- Hp in G. rewrite <- Ht in E.
  unfold generate_step. cbv zeta. rewrite G, E. reflexivity.
Qed.

End Visited.

Lemma known_page_reference_handled_once_witness :
  match generate_step sample_config 1 1 sample_info ([(lit "s005001.htm", [])], 1)
                      sample_report_state with
  | (Ok (v1, c1), st1) =>
      generate_step sample_config 1 2 sample_info (v1, c1) st1
      = (Ok (v1, c1),
         set_log (log st1 ++ [(WARNING, SkipVisited (reftag sample_info)
                                                    (stenopage sample_info))]) st1)
  | _ => False
  end.
Proof.
  destruct (generate_step sample_config 1 1 sample_info ([(lit "s005001.htm", [])], 1)
                          sample_report_state) as [[[v1 c1]|e] st1] eqn:E.
  - apply (known_page_reference_handled_once sample_config sample_info sample_info []
             1 1 1 1 2 2 [(lit "s005001.htm", [])] v1 v1 1 c1 c1
             sample_report_state st1 st1);
      [vm_compute; reflexivity | reflexivity | reflexivity | exact E | reflexivity].
  - vm_compute in E. discriminate E.
Defined.

(** ** Errors while the report is written *)



(** ** Errors while the session page is scanned *)

(** X13.  In the scan of a session page of the terms up to 2013, the
    handler around the topic anchor catches [KeyError] only: an anchor
    whose [name], without its first character and every [b], is not a
    number makes [int] raise [ValueError], which ends the scan there, with
    the state as the anchors before it left it. *)
Theorem malformed_anchor_name_ends_scan
        (net : str -> option (bool * str)) (soup_of : str -> Soup) (cfg : Config)
        (soup : Soup) (before after : list Tag) (link : Tag) (name : str)
        (reg_ex_topic : regex) (st st1 : State) (topic_id : Z) :
  all_a soup = before ++ link :: after ->
  for_fold before 0%Z (named_topic_step net soup_of cfg reg_ex_topic) st
  = (Ok topic_id, st1) ->
  Dict.get (lit "name") (attrs link) = Some name ->
  int_of_str (replace (lit "b") [] (skipn 1 name)) = None ->
  (reg_ex_topic = reg_ex_topic_q ->
   parse_session_2013 net soup_of cfg soup st = (Raise ValueError, st1)) /\
  (reg_ex_topic = reg_ex_topic_digits ->
   parse_session_pre_2013 net soup_of cfg soup st = (Raise ValueError, st1)).
Proof.
  intros Ha Hb Hn Hi.
  assert (S : named_topic_step net soup_of cfg reg_ex_topic link topic_id st1
              = (Raise ValueError, st1)).
  { unfold named_topic_step. unfold bind at 1. unfold try_except at 1.
    unfold bind at 1. unfold subscript at 1. rewrite Hn. unfold ret at 1.
    unfold bind at 1. unfold py_int. rewrite Hi. reflexivity. }
  pose proof (for_fold_aborts _ link after ValueError before _ _ _ _ _ Hb S) as F.
  rewrite <- Ha in F.
  split; intros ->; [unfold parse_session_2013 | unfold parse_session_pre_2013];
    unfold bind; rewrite F; reflexivity.
Qed.

Lemma malformed_anchor_name_ends_scan_witness :
  parse_session_2013 dead_net sample_soup_of sample_config sample_top_page empty_state
  = (Raise ValueError, empty_state).
Proof.
  apply (proj1 (malformed_anchor_name_ends_scan dead_net sample_soup_of sample_config
           sample_top_page [] [] (mkTag [(lit "name", lit "top")] [] None)
           (lit "top") reg_ex_topic_q empty_state empty_state 0%Z
           eq_refl eq_refl eq_refl eq_refl)).
  reflexivity.
Defined.

(** ** The links of the index page *)

(** X14.  The session links of the index page are the [href] values that
    match the pattern of the term, in the order of the page; one anchor
    without [href] anywhere on the page makes the whole call raise
    [TypeError]. *)
Theorem index_links_or_type_error (soup_of : str -> Soup) (res : str) (year : Z)
        (st : State) :
  get_all_stenos_links soup_of res year st
  = (if forallb (fun l => Dict.mem (lit "href") (attrs l)) (all_a (soup_of res))
     then Ok (filter (fun href => match search (reg_ex_steno_main year) href with
                                  | Some _ => true
                                  | None => false
                                  end)
                     (flat_map (fun l => match Dict.get (lit "href") (attrs l) with
                                         | Some href => [href]
                                         | None => []
                                         end)
                               (all_a (soup_of res))))
     else Raise TypeError,
     st).
Proof.
  unfold get_all_stenos_links.
  generalize (reg_ex_steno_main year) as re. intros re.
  induction (all_a (soup_of res)) as [|l ls IH]; [reflexivity|].
  cbn [session_links_of forallb flat_map]. unfold Dict.mem at 1.
  destruct (Dict.get (lit "href") (attrs l)) as [href|]; [|reflexivity].
  unfold bind. rewrite IH. cbn [andb app filter].
  destruct (forallb _ ls); [|reflexivity].
  unfold ret. destruct (search re href); reflexivity.
Qed.

(** ** The speakers summary *)



(** ** A run that finds no session *)

Section NoSession.
Variable net : str -> option (bool * str).
Variable soup_of : str -> Soup.

Lemma set_log_twice v w (st : State) : set_log v (set_log w st) = set_log v st.
Proof. reflexivity. Qed.

Lemma set_log_same (st : State) : set_log (log st) st = st.
Proof. destruct st; reflexivity. Qed.

Lemma run_session_fold_without_id (year : Z) (base_page_url : str) (links : list str) :
  Forall (fun link =>
            rmatch_ reg_ex_session_id
                    (if (year <? 2010)%Z then link ++ lit "index.htm" else link) = None)
         links ->
  forall loc st, exists st',
    for_fold links loc (run_session net soup_of year base_page_url) st = (Ok loc, st')
    /\ st' = set_log (log st') st.
Proof.
  induction 1 as [|link links H _ IH]; intros loc st.
  - exists st. split; [reflexivity | now rewrite set_log_same].
  - cbn [for_fold]. unfold bind at 1. unfold run_session at 1.
    destruct loc as [have_session create_new_report]. cbv zeta. rewrite H.
    unfold bind at 1. unfold logging, modify, ret.
    destruct (IH (have_session, create_new_report)
                 (set_log (log st ++ [(DEBUG,
                     NoSessionNumber (if (year <? 2010)%Z then link ++ lit "index.htm"
                                      else link))]) st)) as (st' & E & F).
    exists st'. split; [exact E|]. rewrite F at 1. apply set_log_twice.
Qed.

End NoSession.

(** X16.  When the index page is fetched but none of its session links
    has the form of the index of a sitting, no session is ever created and
    the final call on the last session raises [AttributeError]; no page
    was requested and nothing but the log has changed. *)
Theorem run_without_session_fails
        (net : str -> option (bool * str)) (soup_of : str -> Soup)
        (year : Z) (create_new_report : bool) (st : State)
        (text : str) (links : list str) :
  existsb (Z.eqb year) valid_years = true ->
  net ((if (2010 <=? year)%Z
        then lit "http://psp.cz/eknih/" ++ str_of_Z year ++ lit "ps/stenprot/"
        else lit "http://public.psp.cz/eknih/" ++ str_of_Z year ++ lit "ps/stenprot/")
       ++ lit "index.htm") = Some (true, text) ->
  fst (get_all_stenos_links soup_of text year st) = Ok links ->
  Forall (fun link =>
            rmatch_ reg_ex_session_id
                    (if (year <? 2010)%Z then link ++ lit "index.htm" else link) = None)
         links ->
  exists st',
    main net soup_of year create_new_report st = (Raise AttributeError, st') /\
    st' = set_log (log st') st.
Proof.
  intros Hy Hn Hl Hf. unfold main. rewrite Hy. cbv zeta.
  cbv beta iota delta [negb]. rewrite Hn.
  unfold bind at 1. unfold check_request. unfold bind at 1.
  unfold logging at 1. unfold modify at 1. unfold ret at 1.
  cbv beta iota delta [negb].
  unfold bind at 1. unfold get_all_stenos_links in *.
  assert (E : forall s, session_links_of (reg_ex_steno_main year)
                                         (all_a (soup_of text)) s = (Ok links, s)).
  { intros s. rewrite (session_links_of_pure _ _ s st), Hl. reflexivity. }
  rewrite E.
  destruct (run_session_fold_without_id net soup_of year
              (if (2010 <=? year)%Z
               then lit "http://psp.cz/eknih/" ++ str_of_Z year ++ lit "ps/stenprot/"
               else lit "http://public.psp.cz/eknih/" ++ str_of_Z year
                      ++ lit "ps/stenprot/")
              links Hf (false, create_new_report)
              (set_log (log st ++ [(INFO, Connected)]) st)) as (st' & R & F).
  unfold bind at 1.
  match goal with
  | |- context [for_fold ?a ?b ?f ?s] =>
      assert (R' : for_fold a b f s = (Ok (false, create_new_report), st')) by exact R;
      rewrite R'
  end.
  exists st'. split; [reflexivity|]. rewrite F at 1. apply set_log_twice.
Qed.

Lemma run_without_session_fails_witness :
  exists st',
    main stray_net stray_soup_of 2017 true empty_state = (Raise AttributeError, st') /\
    st' = set_log (log st') empty_state.
Proof.
  apply (run_without_session_fails stray_net stray_soup_of 2017 true empty_state
           [] [lit "005schuz/s005001.htm"]).
  - reflexivity.
  - reflexivity.
  - vm_compute. reflexivity.
  - constructor; [vm_compute; reflexivity | constructor].
Defined.

(** ** Filtering a text twice *)

Lemma squeeze_fixed (s : str) : forall b, tidy b s = true -> squeeze b s = s.
Proof.
  induction s as [|c s IH]; intros b H; cbn [squeeze tidy] in *; [reflexivity|].
  destruct (isspace c).
  - apply andb_prop in H as [H Hs]. apply andb_prop in H as [Hc Hb].
    apply N.eqb_eq in Hc. destruct b; [discriminate Hb|].
    rewrite (IH true Hs). now subst c.
  - now rewrite (IH false H).
Qed.

Lemma replace_from_absent (c : char) (new s : str) :
  ~ In c s -> replace_from [c] new 0 s = s.
Proof.
  induction s as [|a s IH]; intros H; [reflexivity|]. cbn [replace_from startswith].
  destruct (c =? a)%N eqn:E.
  - apply N.eqb_eq in E. exfalso. apply H. left. now symmetry.
  - cbn [andb]. rewrite IH; [reflexivity|]. intros Hin. apply H. now right.
Qed.

(** X17.  [filter_text] is idempotent on every text whose filtered form
    does not begin with a colon; the condition is needed, since only one
    leading colon is removed per call. *)
Theorem filter_text_idempotent :
  (forall t : str,
      startswith [COLON] (filter_text t) = false ->
      filter_text (filter_text t) = filter_text t) /\
  filter_text (lit ": :a") = lit ":a" /\
  filter_text (filter_text (lit ": :a")) = lit "a".
Proof.
  split; [|split; vm_compute; reflexivity].
  intros t H.
  pose proof (filter_text_tidy t) as T.
  assert (S : strip (filter_text t) = filter_text t).
  { destruct t; [reflexivity|]. unfold filter_text. cbv zeta. apply strip_idempotent. }
  destruct (filter_text t) as [|c r]; [reflexivity|].
  cbn [startswith] in H. rewrite andb_true_r, N.eqb_sym in H.
  unfold filter_text. cbv beta iota zeta. rewrite H.
  rewrite replace_nonempty, replace_from_absent by (apply (tidy_no_nbsp _ false T)).
  rewrite sub_spaces, (squeeze_fixed _ false T). exact S.
Qed.

Lemma filter_text_idempotent_witness :
  filter_text (filter_text (lit ":  Dobrý   den, ")) = filter_text (lit ":  Dobrý   den, ").
Proof.
  apply (proj1 filter_text_idempotent (lit ":  Dobrý   den, ")).
  vm_compute. reflexivity.
Defined.

(** ** Invariants *)

Section Preserves.
Variable I : State -> Prop.

Lemma preserves_ret {A} (a : A) : preserves I (ret a).
Proof. intros st r st' H E. injection E as <- <-. exact H. Qed.

Lemma preserves_raise {A} (e : exn) : preserves I (@raise A e).
Proof. intros st r st' H E. injection E as <- <-. exact H. Qed.

Lemma preserves_get_state : preserves I get_state.
Proof. intros st r st' H E. injection E as <- <-. exact H. Qed.

Lemma preserves_subscript {K V} `{Dict.Key K} (d : Dict.t K V) (k : K) :
  preserves I (subscript d k).
Proof.
  unfold subscript. destruct (Dict.get k d); [apply preserves_ret | apply preserves_raise].
Qed.

Lemma preserves_modify (f : State -> State) :
  (forall st, I st -> I (f st)) -> preserves I (modify f).
Proof. intros Hf st r st' H E. injection E as <- <-. now apply Hf. Qed.

Lemma preserves_bind {A B} (m : M A) (f : A -> M B) :
  preserves I m ->
  (forall a, (exists st st', m st = (Ok a, st')) -> preserves I (f a)) ->
  preserves I (bind m f).
Proof.
  intros Hm Hf st r st' H. unfold bind.
  destruct (m st) as [[a|e] s] eqn:E.
  - apply (Hf a); [now exists st, s | exact (Hm _ _ _ H E)].
  - intros E'. injection E' as <- <-. exact (Hm _ _ _ H E).
Qed.

Lemma preserves_try_except {A} (m : M A) (caught : exn -> bool) (h : M A) :
  preserves I m -> preserves I h -> preserves I (try_except m caught h).
Proof.
  intros Hm Hh st r st' H. unfold try_except.
  destruct (m st) as [[a|e] s] eqn:E.
  - intros E'. injection E' as <- <-. exact (Hm _ _ _ H E).
  - destruct (caught e).
    + apply Hh. exact (Hm _ _ _ H E).
    + intros E'. injection E' as <- <-. exact (Hm _ _ _ H E).
Qed.

Lemma preserves_for_each {A} (xs : list A) (body : A -> M unit) :
  (forall x, In x xs -> preserves I (body x)) -> preserves I (for_each xs body).
Proof.
  induction xs as [|x xs IH]; intros Hb; cbn [for_each]; [apply preserves_ret|].
  apply preserves_bind; [apply Hb; now left|].
  intros _ _. apply IH. intros y Hy. apply Hb. now right.
Qed.

Lemma preserves_for_fold {A B} (xs : list A) (body : A -> B -> M B) :
  (forall x acc, In x xs -> preserves I (body x acc)) ->
  forall acc, preserves I (for_fold xs acc body).
Proof.
  induction xs as [|x xs IH]; intros Hb acc; cbn [for_fold]; [apply preserves_ret|].
  apply preserves_bind; [apply Hb; now left|].
  intros acc' _. apply IH. intros y a Hy. apply Hb. now right.
Qed.

Lemma keeps_preserves {X A} (proj : State -> X) (m : M A) :
  keeps proj m -> (forall s s', proj s' = proj s -> I s -> I s') -> preserves I m.
Proof. intros Hk Hp st r st' H E. exact (Hp st st' (Hk _ _ _ E) H). Qed.

End Preserves.

(** ** The 2013 term *)

(** The identifier read off a link of the 2013 term keeps its [#]. *)
Lemma hash_of_2013_link (link : str) (m : rmatch) :
  rmatch_ reg_ex_topic_hash link = Some m ->
  startswith (lit "#") (group_or_empty m 1) = true.
Proof.
  unfold rmatch_. intros H. apply match_at_sound in H as (n & _ & _ & _ & _ & D).
  unfold reg_ex_topic_hash, plus, star in D. cbn [seq den] in D.
  destruct D as (w0 & r0 & c0 & _ & [_ ->] & D).
  destruct D as (w1 & r1 & c1 & _ & (_ & _ & _ & ->) & D).
  destruct D as (w2 & r2 & c2 & _ & [_ ->] & D).
  destruct D as (w3 & r3 & c3 & _ & (c3' & D3 & ->) & [_ E]).
  destruct D3 as (w4 & r4 & c4 & -> & [-> _] & _).
  unfold group_or_empty, group. rewrite E. reflexivity.
Qed.

Lemma get_hash_2013 (link : str) (st st' : State) (h : str) :
  get_hash_for_topic 2013 link st = (Ok (Some h), st') ->
  startswith (lit "#") h = true.
Proof.
  unfold get_hash_for_topic. cbv zeta. rewrite Z.eqb_refl.
  destruct (rmatch_ reg_ex_topic_hash link) as [m|] eqn:E.
  - intros H. injection H as <- _. exact (hash_of_2013_link _ _ E).
  - unfold bind, logging, modify, ret. discriminate.
Qed.

Lemma no_hash_key_set (d : Dict.t str (list InterventionInfo)) (q : str)
      (v : list InterventionInfo) :
  no_hash_key d ->
  startswith (lit "#") q = false \/ Dict.mem q d = true ->
  no_hash_key (Dict.set q v d).
Proof.
  intros Hd Hq k Hk. destruct (str_eq_dec k q) as [->|Hne].
  - exfalso. destruct Hq as [Hq|Hq]; [congruence|].
    unfold Dict.mem in Hq. now rewrite (Hd q Hk) in Hq.
  - rewrite get_set_other by exact Hne. now apply Hd.
Qed.

Lemma interventions_page_step_no_hash (date : str) (link : Tag) (q_id : str) :
  match Dict.get (lit "name") (attrs link) with
  | Some n => negb (startswith (lit "#") n)
  | None => true
  end = true ->
  preserves (fun st => no_hash_key (interventions_info st))
            (interventions_page_step date link q_id).
Proof.
  intros Hn st r st' H. unfold interventions_page_step.
  destruct (Dict.get (lit "name") (attrs link)) as [q0|].
  - apply negb_true_iff in Hn.
    unfold bind, get_state, modify, ret.
    destruct (negb (Dict.mem q0 (interventions_info st)));
      intros E; injection E as <- <-; [|exact H].
    cbn [interventions_info set_interventions_info].
    apply no_hash_key_set; [exact H | now left].
  - destruct (Dict.get (lit "href") (attrs link)) as [href|];
      [|intros E; injection E as <- <-; exact H].
    destruct (negb (str_eqb q_id []));
      [|intros E; injection E as <- <-; exact H].
    destruct (search intervention_link href) as [info|];
      [|intros E; injection E as <- <-; exact H].
    unfold bind, get_state, subscript, modify, ret, raise.
    destruct (Dict.get q_id (interventions_info st)) as [l|] eqn:G;
      [|intros E; injection E as <- <-; exact H].
    destruct (negb (info_in _ l)); intros E; injection E as <- <-; [|exact H].
    cbn [interventions_info set_interventions_info].
    apply no_hash_key_set; [exact H | right]. unfold Dict.mem. now rewrite G.
Qed.

Lemma parse_interventions_page_no_hash (page_soup : Soup) (date : str) :
  names_without_hash page_soup = true ->
  preserves (fun st => no_hash_key (interventions_info st))
            (parse_interventions_page page_soup date).
Proof.
  intros Hn. unfold parse_interventions_page.
  apply preserves_bind; [|intros; apply preserves_ret].
  apply preserves_for_fold. intros link q Hin.
  apply interventions_page_step_no_hash.
  unfold names_without_hash in Hn. rewrite forallb_forall in Hn. now apply Hn.
Qed.

Section Term2013.
Variable net : str -> option (bool * str).
Variable soup_of : str -> Soup.
Variable cfg : Config.
Hypothesis year_2013 : year cfg = 2013%Z.
Hypothesis names_ok : forall text, names_without_hash (soup_of text) = true.

Lemma parse_sublink_order_hashless (order_id sublink : str) :
  preserves hashless (parse_sublink_order net soup_of cfg order_id sublink).
Proof.
  assert (P : preserves (fun st => no_hash_key (interventions_info st))
                        (parse_sublink_order net soup_of cfg order_id sublink));
    [|intros st r st' [Hk He] E; split; [exact (P _ _ _ Hk E)|]].
  - unfold parse_sublink_order.
    destruct (rmatch_ (reg_ex_page (year cfg)) sublink) as [m|].
    + cbv zeta. apply preserves_bind; [apply preserves_get_state | intros s0 _].
      destruct (negb (Dict.mem (group_or_empty m 1) (pages s0)));
        [|apply preserves_ret].
      apply preserves_bind.
      * apply (keeps_preserves _ interventions_info).
        -- apply keeps_try_except; [|apply keeps_ret].
           apply keeps_bind; [|intros; apply keeps_ret].
           apply keeps_request; reflexivity.
        -- intros s s' ->. auto.
      * intros [text|] _; [|apply preserves_ret].
        apply preserves_bind.
        -- apply (keeps_preserves _ interventions_info).
           ++ apply keeps_get_steno_date; reflexivity.
           ++ intros s s' ->. auto.
        -- intros [rc date] _. destruct (negb rc).
           ++ apply preserves_bind; [|intros; apply preserves_ret].
              apply preserves_modify. auto.
           ++ apply preserves_bind;
                [apply parse_interventions_page_no_hash, names_ok | intros _ _].
              apply preserves_bind; [|intros; apply preserves_ret].
              apply preserves_modify. auto.
    + apply preserves_bind; [|intros; apply preserves_ret].
      apply preserves_modify. auto.
  - rewrite (keeps_parse_sublink_order topics net soup_of
               (fun _ _ => eq_refl) (fun _ _ => eq_refl) (fun _ _ => eq_refl)
               (fun _ _ => eq_refl) (fun _ _ => eq_refl)
               cfg order_id sublink _ _ _ E).
    exact He.
Qed.

Lemma extend_topic_hashless (topic_id : Z) (hash_id : str) :
  startswith (lit "#") hash_id = true ->
  preserves hashless (extend_topic topic_id hash_id).
Proof.
  intros Hh st r st' [Hk He]. unfold extend_topic, bind, get_state, subscript, ret, raise.
  destruct (Dict.get topic_id (topics st)).
  - rewrite (Hk hash_id Hh). intros E. injection E as <- <-. now split.
  - intros E. injection E as <- <-. now split.
Qed.

Lemma topics_empty_set (d : Dict.t Z (list InterventionInfo)) (topic_id : Z) :
  topics_empty d -> topics_empty (Dict.set topic_id [] d).
Proof.
  intros Hd k refs Hin. apply in_set in Hin as [[_ ->]|Hin]; [reflexivity|].
  exact (Hd k refs Hin).
Qed.

Lemma hashless_log v (st : State) : hashless st -> hashless (set_log v st).
Proof. auto. Qed.

Lemma named_topic_step_hashless (reg_ex_topic : regex) (link : Tag) (topic_id : Z) :
  preserves hashless (named_topic_step net soup_of cfg reg_ex_topic link topic_id).
Proof.
  unfold named_topic_step. apply preserves_bind.
  - intros st r st' [Hk He].
    unfold try_except, bind, subscript, py_int, get_state, modify, sibling_text,
      logging, ret, raise.
    destruct (Dict.get (lit "name") (attrs link)) as [name|].
    + destruct (int_of_str _) as [t|].
      * destruct (negb (Dict.mem t (topics st))).
        -- destruct (next_sibling_text link); cbv beta iota;
             intros E; injection E as <- <-;
             (split; [exact Hk | apply topics_empty_set, He]).
        -- intros E. injection E as <- <-. now split.
      * cbv beta iota. intros E. injection E as <- <-. now split.
    + cbv beta iota. unfold modify. intros E. injection E as <- <-. now split.
  - intros [t continue] _. destruct continue; [apply preserves_ret|].
    apply preserves_bind; [|intros; apply preserves_ret].
    apply preserves_try_except; [|apply preserves_ret].
    apply preserves_bind; [apply preserves_subscript | intros sublink _].
    destruct (rmatch_ reg_ex_topic sublink); [|apply preserves_ret].
    rewrite year_2013. apply preserves_bind.
    + apply (keeps_preserves _ (fun st => (interventions_info st, topics st))).
      * apply keeps_get_hash_for_topic. reflexivity.
      * intros s s' E [Hk He]. injection E as E1 E2. unfold hashless.
        now rewrite E1, E2.
    + intros [hash_id|] (s & s' & E).
      * apply get_hash_2013 in E.
        apply preserves_bind; [apply parse_sublink_order_hashless | intros ok _].
        destruct ok; [now apply extend_topic_hashless | apply preserves_ret].
      * apply preserves_modify. intros s0. apply hashless_log.
Qed.

Lemma parse_session_2013_hashless (session_soup : Soup) :
  preserves hashless (parse_session_2013 net soup_of cfg session_soup).
Proof.
  unfold parse_session_2013. apply preserves_bind; [|intros; apply preserves_ret].
  apply preserves_for_fold. intros link t _. apply named_topic_step_hashless.
Qed.

End Term2013.

Section ScanFrames.
Context {X : Type} (proj : State -> X).
Variable net : str -> option (bool * str).
Variable soup_of : str -> Soup.
Variable cfg : Config.
Hypothesis proj_log : forall v st, proj (set_log v st) = proj st.
Hypothesis proj_counter : forall v st, proj (set_request_counter v st) = proj st.
Hypothesis proj_cache : forall v st, proj (set_cache v st) = proj st.
Hypothesis proj_info : forall v st, proj (set_interventions_info v st) = proj st.
Hypothesis proj_pages : forall v st, proj (set_pages v st) = proj st.
Hypothesis proj_topics : forall v st, proj (set_topics v st) = proj st.
Hypothesis proj_topic_titles : forall v st, proj (set_topic_titles v st) = proj st.

Lemma keeps_extend_topic (topic_id : Z) (q_id : str) :
  keeps proj (extend_topic topic_id q_id).
Proof. unfold extend_topic. repeat keeps_step. Qed.

Lemma keeps_named_topic_step (reg_ex_topic : regex) (link : Tag) (topic_id : Z) :
  keeps proj (named_topic_step net soup_of cfg reg_ex_topic link topic_id).
Proof.
  unfold named_topic_step, py_int, sibling_text.
  repeat first [ apply keeps_extend_topic
               | apply keeps_get_hash_for_topic; assumption
               | apply keeps_parse_sublink_order; assumption
               | keeps_step ].
Qed.

Lemma keeps_parse_session_2013 (session_soup : Soup) :
  keeps proj (parse_session_2013 net soup_of cfg session_soup).
Proof.
  unfold parse_session_2013. keeps_step; [|keeps_step].
  apply keeps_for_fold. intros link t. apply keeps_named_topic_step.
Qed.

Lemma keeps_parse_session_pre_2013 (session_soup : Soup) :
  keeps proj (parse_session_pre_2013 net soup_of cfg session_soup).
Proof.
  unfold parse_session_pre_2013. keeps_step; [|keeps_step].
  apply keeps_for_fold. intros link t. apply keeps_named_topic_step.
Qed.

End ScanFrames.

Lemma preserves_conj {A} (I1 I2 : State -> Prop) (m : M A) :
  preserves I1 m -> preserves I2 m -> preserves (fun st => I1 st /\ I2 st) m.
Proof. intros H1 H2 st r st' [A1 A2] E. split; eauto. Qed.

Lemma keeps_preserves_eq {X A} (proj : State -> X) (x : X) (m : M A) :
  keeps proj m -> preserves (fun st => proj st = x) m.
Proof. intros Hk. apply (keeps_preserves _ proj m Hk). intros s s' ->. auto. Qed.

(** With every topic empty there is no transcript to fetch. *)
Lemma get_all_stenos_idle (net : str -> option (bool * str)) (soup_of : str -> Soup)
      (cfg : Config) (st : State) :
  topics_empty (topics st) -> get_all_stenos net soup_of cfg st = (Ok tt, st).
Proof.
  unfold get_all_stenos. unfold bind at 1. unfold get_state.
  generalize (topics st) as d. intros d. revert st.
  induction d as [|[k refs] d IH]; intros st Hd; [reflexivity|].
  cbn [Dict.values map snd for_each].
  rewrite (Hd k refs (or_introl eq_refl)). cbn [for_each]. unfold bind at 1, ret at 1.
  apply IH. intros k' refs' Hin. apply (Hd k' refs'). now right.
Qed.

(** With every topic empty the report loop only logs. *)
Lemma generate_topics_idle (cfg : Config) (ts : Dict.t Z (list InterventionInfo)) :
  topics_empty ts ->
  forall loc st, exists st',
    for_fold ts loc
      (fun '(topic_id, topic) loc =>
         (logging DEBUG (TopicLength topic_id (length topic)) ;;
          generate_topic cfg topic_id 0 topic loc)%py) st
    = (Ok loc, st') /\
    st' = set_log (log st') st.
Proof.
  induction ts as [|[k refs] ts IH]; intros Hd loc st.
  - exists st. split; [reflexivity | now rewrite set_log_same].
  - rewrite (Hd k refs (or_introl eq_refl)). cbn [for_fold generate_topic length].
    unfold bind at 1. unfold bind at 1. unfold logging, modify, ret.
    destruct (IH (fun k' refs' Hin => Hd k' refs' (or_intror Hin)) loc
                 (set_log (log st ++ [(DEBUG, TopicLength k 0)]) st)) as (st' & E & F).
    exists st'. split; [exact E|]. rewrite F at 1. apply set_log_twice.
Qed.

(** X18.  In the 2013 term the group identifier read off a link keeps its
    [#], while the index is keyed by the names of the anchors of the
    sub-pages.  So when no anchor name begins with [#], the lookup that
    should extend a topic always raises the [KeyError] the scan swallows:
    parsing a sitting leaves every topic empty and fetches no transcript,
    and the report that follows writes no file and counts none. *)
Theorem term_2013_yields_no_file
        (net : str -> option (bool * str)) (soup_of : str -> Soup) (cfg : Config)
        (st st1 : State) (r : result (option bool)) :
  year cfg = 2013%Z ->
  (forall text, names_without_hash (soup_of text) = true) ->
  no_hash_key (interventions_info st) ->
  topics_empty (topics st) ->
  parse_session net soup_of cfg st = (r, st1) ->
  topics_empty (topics st1) /\
  stenos st1 = stenos st /\
  forall create_new_report, exists st2 earlier,
    generate_files_and_report cfg create_new_report st1 = (Ok tt, st2) /\
    out_files st2 = out_files st1 /\
    log st2 = earlier ++ [(INFO, FilesGenerated 0)].
Proof.
  intros Hy Hn Hk He E.
  assert (P : preserves (fun s => hashless s /\ stenos s = stenos st)
                        (parse_session net soup_of cfg)).
  { unfold parse_session.
    apply preserves_bind; [apply preserves_modify; auto | intros _ _].
    apply preserves_bind.
    - apply (keeps_preserves _ (fun s => (interventions_info s, topics s, stenos s))).
      + apply keeps_try_except; [|apply keeps_ret].
        apply keeps_bind; [|intros; apply keeps_ret].
        apply keeps_request; reflexivity.
      + intros s s' Ep [[Hk' He'] Hs]. injection Ep as E1 E2 E3.
        unfold hashless. now rewrite E1, E2, E3.
    - intros [text|] _; [|apply preserves_ret].
      apply preserves_bind; [apply preserves_modify; auto | intros _ _].
      rewrite Hy, Z.eqb_refl.
      apply preserves_bind.
      + apply preserves_conj.
        * now apply parse_session_2013_hashless.
        * apply keeps_preserves_eq. apply keeps_parse_session_2013; reflexivity.
      + intros _ _. apply preserves_bind; [|intros; apply preserves_ret].
        intros s r' s' [[Hk' He'] Hs] Eg.
        rewrite (get_all_stenos_idle _ _ _ _ He') in Eg. injection Eg as <- <-.
        now repeat split. }
  destruct (P st r st1 (conj (conj Hk He) eq_refl) E) as [[Hk1 He1] Hs1].
  split; [exact He1|]. split; [exact Hs1|].
  intros create_new_report.
  unfold generate_files_and_report. unfold bind at 1. unfold get_state. cbv zeta.
  set (hdr := if match file_summary st1 with
                 | Some _ => create_new_report
                 | None => true
                 end
              then modify (set_file_summary (Some [file_summary_header]))
              else ret tt).
  destruct (hdr st1) as [rh sh] eqn:Eh.
  assert (Hh : rh = Ok tt /\ topics sh = topics st1 /\ out_files sh = out_files st1
               /\ topics st1 = topics st1).
  { unfold hdr in Eh.
    destruct (match file_summary st1 with Some _ => create_new_report | None => true end);
      injection Eh as <- <-; auto. }
  destruct Hh as (-> & Ht & Ho & _).
  destruct (generate_topics_idle cfg (topics st1) He1 ([], 0) sh) as (s2 & Ef & F).
  unfold bind at 1. rewrite Eh. unfold bind at 1.
  match goal with
  | |- context [for_fold ?a ?b ?f ?s] =>
      assert (Ef' : for_fold a b f s = (Ok ([], 0), s2)) by exact Ef; rewrite Ef'
  end.
  unfold logging, modify.
  exists (set_log (log s2 ++ [(INFO, FilesGenerated 0)]) s2), (log s2).
  split; [reflexivity|]. split; [|reflexivity].
  cbn [out_files set_log]. rewrite F. cbn [out_files set_log]. exact Ho.
Qed.

Lemma term_2013_yields_no_file_witness :
  topics_empty
    (topics (snd (parse_session stray_net soup_of_2013 sample_config_2013 empty_state))) /\
  request_counter
    (snd (parse_session stray_net soup_of_2013 sample_config_2013 empty_state)) = 2.
Proof.
  split; [|vm_compute; reflexivity].
  apply (term_2013_yields_no_file stray_net soup_of_2013 sample_config_2013 empty_state
           (snd (parse_session stray_net soup_of_2013 sample_config_2013 empty_state))
           (fst (parse_session stray_net soup_of_2013 sample_config_2013 empty_state))).
  - reflexivity.
  - intros text. vm_compute. reflexivity.
  - intros k _. reflexivity.
  - intros k refs [].
  - vm_compute. reflexivity.
Defined.

(** ** Invariants of a whole run *)

Ltac preserves_step :=
  match goal with
  | |- preserves _ (bind _ _) => apply preserves_bind; [|intros ? _]
  | |- preserves _ (ret _) => apply preserves_ret
  | |- preserves _ (raise _) => apply preserves_raise
  | |- preserves _ get_state => apply preserves_get_state
  | |- preserves _ (logging _ _) => apply preserves_modify; intros ? ?; auto
  | |- preserves _ (modify _) => apply preserves_modify; intros ? ?; auto
  | |- preserves _ (try_except _ _ _) => apply preserves_try_except
  | |- preserves _ (subscript _ _) => apply preserves_subscript
  | |- preserves _ (for_each _ _) => apply preserves_for_each; intros ? _
  | |- preserves _ (for_fold _ _ _) => apply preserves_for_fold; intros ? ? _
  | |- preserves _ (if ?b then _ else _) => destruct b
  | |- preserves _ (match ?x with _ => _ end) => destruct x
  end.

(** An invariant that no assignment to a field other than the cache can
    break, and that [request] keeps, holds throughout the program. *)
Section RunInvariant.
Variable net : str -> option (bool * str).
Variable soup_of : str -> Soup.
Variable I : State -> Prop.
Hypothesis I_pages : forall v st, I st -> I (set_pages v st).
Hypothesis I_stenos : forall v st, I st -> I (set_stenos v st).
Hypothesis I_topics : forall v st, I st -> I (set_topics v st).
Hypothesis I_topic_titles : forall v st, I st -> I (set_topic_titles v st).
Hypothesis I_info : forall v st, I st -> I (set_interventions_info v st).
Hypothesis I_speakers : forall v st, I st -> I (set_speakers v st).
Hypothesis I_soup : forall v st, I st -> I (set_session_soup v st).
Hypothesis I_log : forall v st, I st -> I (set_log v st).
Hypothesis I_out_files : forall v st, I st -> I (set_out_files v st).
Hypothesis I_file_summary : forall v st, I st -> I (set_file_summary v st).
Hypothesis I_speakers_summary : forall v st, I st -> I (set_speakers_summary v st).
Hypothesis I_fresh : forall sps st, I st -> I (fresh_session sps st).
Hypothesis I_request : forall link, preserves I (request net link).

Ltac run_step :=
  first [ apply I_request | preserves_step ].

Lemma run_get_steno_date (soup : Soup) : preserves I (get_steno_date soup).
Proof. unfold get_steno_date. repeat run_step. Qed.

Lemma run_parse_interventions_page (page_soup : Soup) (date : str) :
  preserves I (parse_interventions_page page_soup date).
Proof. unfold parse_interventions_page, interventions_page_step. repeat run_step. Qed.

Lemma run_parse_sublink_order (cfg : Config) (order_id sublink : str) :
  preserves I (parse_sublink_order net soup_of cfg order_id sublink).
Proof.
  unfold parse_sublink_order.
  repeat first [ apply run_get_steno_date | apply run_parse_interventions_page
               | run_step ].
Qed.

Lemma run_extend_topic (topic_id : Z) (q_id : str) :
  preserves I (extend_topic topic_id q_id).
Proof. unfold extend_topic. repeat run_step. Qed.

Lemma run_named_topic_step (cfg : Config) (reg_ex_topic : regex) (link : Tag)
      (topic_id : Z) :
  preserves I (named_topic_step net soup_of cfg reg_ex_topic link topic_id).
Proof.
  unfold named_topic_step, py_int, sibling_text, get_hash_for_topic.
  repeat first [ apply run_extend_topic | apply run_parse_sublink_order | run_step ].
Qed.

Lemma run_post_2013_topic (cfg : Config) (topic : Para) :
  preserves I (post_2013_topic net soup_of cfg topic).
Proof.
  unfold post_2013_topic, post_2013_link, py_int, sibling_text, get_qid_for_topic.
  repeat first [ apply run_extend_topic | apply run_parse_sublink_order | run_step ].
Qed.

Lemma run_parse_steno (steno : Soup) : preserves I (parse_steno steno).
Proof. unfold parse_steno, steno_step. repeat run_step. Qed.

Lemma run_get_all_stenos (cfg : Config) : preserves I (get_all_stenos net soup_of cfg).
Proof.
  unfold get_all_stenos, fetch_steno.
  repeat first [ apply run_parse_steno | run_step ].
Qed.

Lemma run_parse_session (cfg : Config) : preserves I (parse_session net soup_of cfg).
Proof.
  unfold parse_session, parse_session_2013, parse_session_post_2013,
    parse_session_pre_2013.
  repeat first [ apply run_get_all_stenos | apply run_named_topic_step
               | apply run_post_2013_topic | run_step ].
Qed.

Lemma run_enrich_speaker (key : str) (speaker : Speaker) :
  preserves I (enrich_speaker net soup_of key speaker).
Proof. unfold enrich_speaker, h1_text. repeat run_step. Qed.

Lemma run_parse_speakers : preserves I (parse_speakers net soup_of).
Proof.
  unfold parse_speakers.
  repeat first [ apply run_enrich_speaker | run_step ].
Qed.

Lemma run_generate_topic (cfg : Config) (topic_id : Z) (topic : list InterventionInfo) :
  forall idx loc, preserves I (generate_topic cfg topic_id idx topic loc).
Proof.
  induction topic as [|x topic IH]; intros idx loc; cbn [generate_topic].
  - apply preserves_ret.
  - apply preserves_bind; [|intros loc' _; apply IH].
    unfold generate_step, write_intervention. repeat run_step.
Qed.

Lemma run_generate_files_and_report (cfg : Config) (create_new_report : bool) :
  preserves I (generate_files_and_report cfg create_new_report).
Proof.
  unfold generate_files_and_report.
  apply preserves_bind; [apply preserves_get_state | intros st0 _]. cbv zeta.
  apply preserves_bind; [repeat run_step | intros _ _].
  apply preserves_bind.
  - apply preserves_for_fold. intros [topic_id topic] loc _.
    apply preserves_bind; [run_step | intros _ _; apply run_generate_topic].
  - intros [v c] _. run_step.
Qed.

Lemma run_generate_speakers_report (sps : Dict.t str Speaker) (create_new_report : bool) :
  preserves I (generate_speakers_report sps create_new_report).
Proof.
  unfold generate_speakers_report.
  apply preserves_bind; [apply preserves_get_state | intros st0 _]. cbv zeta.
  repeat run_step.
Qed.

Lemma run_session_links_of (re : regex) (anchors : list Tag) :
  preserves I (session_links_of re anchors).
Proof.
  induction anchors as [|l ls IH]; cbn [session_links_of]; [apply preserves_ret|].
  destruct (Dict.get (lit "href") (attrs l)); [|apply preserves_raise].
  apply preserves_bind; [exact IH | intros; apply preserves_ret].
Qed.

Lemma run_run_session (year : Z) (base_page_url link : str) (loc : bool * bool) :
  preserves I (run_session net soup_of year base_page_url link loc).
Proof.
  unfold run_session.
  repeat first [ apply run_parse_session | apply run_parse_speakers
               | apply run_generate_files_and_report | run_step ].
Qed.

Lemma run_main (year : Z) (create_new_report : bool) :
  preserves I (main net soup_of year create_new_report).
Proof.
  unfold main, check_request, get_all_stenos_links.
  repeat first [ apply run_run_session | apply run_session_links_of
               | apply run_generate_speakers_report | run_step ].
Qed.

End RunInvariant.

Lemma request_keeps_cached (net : str -> option (bool * str)) (f text link : str) :
  preserves (fun st => Dict.get f (cache st) = Some text) (request net link).
Proof.
  intros st r st' H. unfold request.
  generalize (replace (lit "http://public.psp.cz/eknih/") [] link). intros g.
  unfold check_request, logging. unfold bind, get_state, modify, ret, raise.
  destruct (Dict.get g (cache st)) eqn:G;
    [intros E; injection E as <- <-; exact H|].
  destruct (probe_cache (disk st) (cache st) (log st) g);
    try (intros E; injection E as <- <-; exact H).
  destruct (net link) as [[[|] body]|]; cbv beta iota delta [negb];
    try (intros E; injection E as <- <-; exact H).
  match goal with
  | |- context [store_cache ?d ?c ?l ?n ?t] => destruct (store_cache d c l n t)
  end; intros E; injection E as <- <-; [exact H|].
  cbn [cache set_cache set_log set_request_counter].
  rewrite get_set_other; [exact H|]. intros ->. congruence.
Qed.

(** X19.  The cache is append-only over a whole run: a page that is in
    the cache stays there with the same content, whatever the run does
    and however it ends. *)
Theorem cache_is_append_only
        (net : str -> option (bool * str)) (soup_of : str -> Soup)
        (year : Z) (create_new_report : bool) (st st' : State) (r : result unit)
        (f text : str) :
  Dict.get f (cache st) = Some text ->
  main net soup_of year create_new_report st = (r, st') ->
  Dict.get f (cache st') = Some text.
Proof.
  intros H E.
  exact (run_main net soup_of (fun s => Dict.get f (cache s) = Some text)
           (fun _ _ h => h) (fun _ _ h => h) (fun _ _ h => h) (fun _ _ h => h)
           (fun _ _ h => h) (fun _ _ h => h) (fun _ _ h => h) (fun _ _ h => h)
           (fun _ _ h => h) (fun _ _ h => h) (fun _ _ h => h) (fun _ _ h => h)
           (request_keeps_cached net f text)
           year create_new_report st r st' H E).
Qed.

Lemma cache_is_append_only_witness :
  Dict.get (lit "old") (cache (snd (main sample_net sample_soup_of 2017 true
                                         (set_cache [(lit "old", lit "page")] empty_state))))
  = Some (lit "page").
Proof.
  apply (cache_is_append_only sample_net sample_soup_of 2017 true
           (set_cache [(lit "old", lit "page")] empty_state)
           (snd (main sample_net sample_soup_of 2017 true
                      (set_cache [(lit "old", lit "page")] empty_state)))
           (fst (main sample_net sample_soup_of 2017 true
                      (set_cache [(lit "old", lit "page")] empty_state)))).
  - reflexivity.
  - vm_compute. reflexivity.
Defined.

(** ** The speakers table under enrichment *)

Lemma keys_set_mem {V} (k : str) (v : V) (d : Dict.t str V) :
  Dict.mem k d = true -> Dict.keys (Dict.set k v d) = Dict.keys d.
Proof.
  unfold Dict.mem, Dict.keys.
  induction d as [|[k0 v0] d IH]; cbn [Dict.get Dict.set]; [discriminate|].
  destruct (Dict.keqb k0 k); [reflexivity|].
  intros H. cbn [map fst]. now rewrite IH.
Qed.

Section Enrichment.
Variable net : str -> option (bool * str).
Variable soup_of : str -> Soup.

(** An entry of the loop either leaves the table alone or replaces the
    record under its key by one with the same label and link. *)
Lemma enrich_speaker_record (key : str) (sp : Speaker) (st : State) r st' :
  enrich_speaker net soup_of key sp st = (r, st') ->
  speakers st' = speakers st \/
  exists v, speakers st' = Dict.set key v (speakers st) /\
            sp_stenoname v = sp_stenoname sp /\ sp_link v = sp_link sp.
Proof.
  unfold enrich_speaker.
  destruct (0 <? length (sp_name sp)); [intros H; injection H as <- <-; now left|].
  unfold bind at 1.
  match goal with
  | |- (let (r0, st0) := ?m st in _) = _ -> _ =>
      assert (F : keeps speakers m);
      [|destruct (m st) as [[[[page_name group] birth]|e] s1] eqn:E;
        apply F in E]
  end.
  - unfold h1_text.
    repeat first [ apply keeps_request; reflexivity
                 | apply keeps_logging; reflexivity
                 | keeps_step ].
  - destruct (get_speakers_name page_name (sp_stenoname sp)) as [[[n t] f] s].
    unfold modify. intros H; injection H as <- <-. right.
    cbn [speakers set_speakers]. rewrite E. eexists. split; [reflexivity|].
    split; reflexivity.
  - intros H; injection H as <- <-. now left.
Qed.

Lemma parse_speakers_loop_shape (l : Dict.t str Speaker) :
  forall cur r st',
    NoDup (Dict.keys l) ->
    (forall k s, In (k, s) l -> Dict.get k (speakers cur) = Some s) ->
    for_each l (fun '(key, speaker) => enrich_speaker net soup_of key speaker) cur
    = (r, st') ->
    Dict.keys (speakers st') = Dict.keys (speakers cur) /\
    forall key sp,
      Dict.get key (speakers cur) = Some sp ->
      exists sp', Dict.get key (speakers st') = Some sp' /\
                  sp_stenoname sp' = sp_stenoname sp /\ sp_link sp' = sp_link sp.
Proof.
  induction l as [|[k0 s0] l IH]; intros cur r st' Hn Hl; cbn [for_each].
  - intros H; injection H as <- <-. split; [reflexivity|]. intros key sp Hg. now exists sp.
  - unfold Dict.keys in Hn. cbn [map fst] in Hn. inversion Hn as [|? ? Hk Hn']; subst.
    pose proof (Hl k0 s0 (or_introl eq_refl)) as H0.
    unfold bind.
    destruct (enrich_speaker net soup_of k0 s0 cur) as [[u|e] cur1] eqn:E.
    + apply enrich_speaker_record in E.
      intros F. apply IH in F; [|exact Hn'|].
      * destruct F as [Fk Fv]. destruct E as [E|(v & E & Ev1 & Ev2)]; rewrite E in *.
        -- now split.
        -- split; [rewrite Fk; apply keys_set_mem; unfold Dict.mem; now rewrite H0|].
           intros key sp Hg. destruct (str_eq_dec key k0) as [->|Hne].
           ++ rewrite H0 in Hg. injection Hg as <-.
              destruct (Fv k0 v (get_set_same _ _ _)) as (sp' & G & L1 & L2).
              exists sp'. split; [exact G|]. split; congruence.
           ++ apply Fv. now rewrite get_set_other.
      * intros k s Hin. destruct E as [E|(v & E & _)]; rewrite E.
        -- apply Hl. now right.
        -- rewrite get_set_other; [apply Hl; now right|].
           intros ->. apply Hk. unfold Dict.keys. apply in_map_iff. now exists (k0, s).
    + apply enrich_speaker_record in E.
      intros F; injection F as <- <-.
      destruct E as [E|(v & E & Ev1 & Ev2)]; rewrite E.
      * split; [reflexivity|]. intros key sp Hg. now exists sp.
      * split; [apply keys_set_mem; unfold Dict.mem; now rewrite H0|].
        intros key sp Hg. destruct (str_eq_dec key k0) as [->|Hne].
        -- rewrite H0 in Hg. injection Hg as <-. exists v.
           split; [apply get_set_same | now split].
        -- exists sp. now rewrite get_set_other.
Qed.

End Enrichment.

(** X20.  Enrichment never adds, drops or reorders speakers: however
    [parse_speakers] ends, the table has the keys it had, in the same
    order, and every record still has its label from the transcript and
    its link. *)
Theorem speakers_table_keeps_its_shape
        (net : str -> option (bool * str)) (soup_of : str -> Soup)
        (st st' : State) (r : result unit) :
  NoDup (Dict.keys (speakers st)) ->
  parse_speakers net soup_of st = (r, st') ->
  Dict.keys (speakers st') = Dict.keys (speakers st) /\
  forall key sp,
    Dict.get key (speakers st) = Some sp ->
    exists sp', Dict.get key (speakers st') = Some sp' /\
                sp_stenoname sp' = sp_stenoname sp /\ sp_link sp' = sp_link sp.
Proof.
  intros Hn. unfold parse_speakers. unfold bind at 1. unfold get_state.
  apply parse_speakers_loop_shape; [exact Hn|].
  intros k s Hin. now apply get_in_nodup.
Qed.

Lemma speakers_table_keeps_its_shape_witness :
  Dict.keys
    (speakers
       (snd (parse_speakers sample_net sample_soup_of
               (set_speakers [(lit "Poslanec_Jan_Novák", sample_deputy)] empty_state))))
  = [lit "Poslanec_Jan_Novák"] /\
  request_counter
    (snd (parse_speakers sample_net sample_soup_of
            (set_speakers [(lit "Poslanec_Jan_Novák", sample_deputy)] empty_state))) = 1.
Proof.
  split; [|vm_compute; reflexivity].
  refine (proj1 (speakers_table_keeps_its_shape sample_net sample_soup_of
                   (set_speakers [(lit "Poslanec_Jan_Novák", sample_deputy)] empty_state)
                   (snd (parse_speakers sample_net sample_soup_of
                           (set_speakers [(lit "Poslanec_Jan_Novák", sample_deputy)]
                                         empty_state)))
                   (fst (parse_speakers sample_net sample_soup_of
                           (set_speakers [(lit "Poslanec_Jan_Novák", sample_deputy)]
                                         empty_state)))
                   _ _)).
  - constructor; [intros [] | constructor].
  - vm_compute. reflexivity.
Defined.

(** ** File names *)

Lemma of_string_inj (a b : string) : of_string a = of_string b -> a = b.
Proof.
  unfold of_string. intros H.
  rewrite <- (string_of_list_ascii_of_string a), <- (string_of_list_ascii_of_string b).
  f_equal. revert H. generalize (list_ascii_of_string a) (list_ascii_of_string b).
  induction l as [|x l IH]; intros [|y l']; simpl; try discriminate; [reflexivity|].
  intros H. injection H as H1 H2. f_equal; [|now apply IH].
  rewrite <- (ascii_N_embedding x), <- (ascii_N_embedding y). now rewrite H1.
Qed.

Lemma str_of_Z_inj (n m : Z) : str_of_Z n = str_of_Z m -> n = m.
Proof.
  unfold str_of_Z. intros H. apply of_string_inj in H.
  apply DecimalZ.to_int_inj.
  assert (N : forall z, Z.to_int z <> Decimal.Pos Decimal.Nil /\
                        Z.to_int z <> Decimal.Neg Decimal.Nil).
  { intros [|p|p]; simpl; split; try discriminate;
      intros E; injection E as E; now apply DecimalPos.Unsigned.to_uint_nonnil in E. }
  destruct (N n) as [N1 N2], (N m) as [M1 M2].
  pose proof (NilZero.isi _ N1 N2) as E1. pose proof (NilZero.isi _ M1 M2) as E2.
  rewrite H in E1. rewrite E1 in E2. now injection E2.
Qed.

Lemma uint_digits (d : Decimal.uint) :
  Forall ascii_digit (of_string (NilEmpty.string_of_uint d)).
Proof.
  induction d; cbn; constructor; try assumption; unfold ascii_digit; lia.
Qed.

Lemma to_uint_head (p : positive) :
  exists c r, of_string (NilEmpty.string_of_uint (Pos.to_uint p)) = c :: r /\ c <> 48%N.
Proof.
  assert (U : Decimal.unorm (Pos.to_uint p) = Pos.to_uint p).
  { rewrite <- (DecimalPos.Unsigned.to_of (Pos.to_uint p)).
    now rewrite DecimalPos.Unsigned.of_to. }
  pose proof (DecimalPos.Unsigned.to_uint_nonzero p) as Z0.
  pose proof (DecimalPos.Unsigned.to_uint_nonnil p) as Z1.
  destruct (Pos.to_uint p) as [|d|d|d|d|d|d|d|d|d|d]; try easy;
    try (cbn; do 2 eexists; split; [reflexivity | discriminate]).
  exfalso. change (Decimal.unorm (Decimal.D0 d)) with (Decimal.unorm d) in U.
  assert (Hd : d <> Decimal.Nil) by (intros ->; now apply Z0).
  pose proof (DecimalFacts.nb_digits_unorm d Hd) as L. rewrite U in L.
  cbn [Decimal.nb_digits] in L. lia.
Qed.

Lemma str_of_Z_shape (n : Z) :
  (0 <= n)%Z -> Forall ascii_digit (str_of_Z n) /\ canonical (str_of_Z n).
Proof.
  intros H. unfold str_of_Z. destruct n as [|p|p]; [| |lia].
  - change (of_string (NilZero.string_of_int (Z.to_int 0))) with [48%N].
    split; [constructor; [unfold ascii_digit; lia | constructor] | now left].
  - cbn [Z.to_int NilZero.string_of_int]. unfold NilZero.string_of_uint.
    pose proof (DecimalPos.Unsigned.to_uint_nonnil p) as Z1.
    pose proof (to_uint_head p) as Hh. pose proof (uint_digits (Pos.to_uint p)) as Hd.
    destruct (Pos.to_uint p); try easy; split; auto; now right.
Qed.

Lemma drop_zeros_repeat (k : nat) (s : str) :
  drop_zeros (repeat 48%N k ++ s) = drop_zeros s.
Proof. induction k as [|k IH]; [reflexivity|exact IH]. Qed.

Lemma pad0_inj (w : nat) (s s' : str) :
  canonical s -> canonical s' -> pad0 w s = pad0 w s' -> s = s'.
Proof.
  intros C C' E. apply (f_equal drop_zeros) in E. unfold pad0 in E.
  rewrite !drop_zeros_repeat in E.
  destruct C as [->|(c & r & -> & Hc)], C' as [->|(c' & r' & -> & Hc')];
    cbn [drop_zeros] in E; try reflexivity.
  - apply N.eqb_neq in Hc'. rewrite Hc' in E. cbn in E. discriminate.
  - apply N.eqb_neq in Hc. rewrite Hc in E. cbn in E. discriminate.
  - apply N.eqb_neq in Hc, Hc'. now rewrite Hc, Hc' in E.
Qed.

Lemma pad0_digits (w : nat) (s : str) :
  Forall ascii_digit s -> Forall ascii_digit (pad0 w s).
Proof.
  intros H. unfold pad0. apply Forall_app. split; [|exact H].
  apply Forall_forall. intros x Hx. apply repeat_spec in Hx. subst. unfold ascii_digit. lia.
Qed.

Lemma split_at_underscore (a a' b b' : str) :
  Forall ascii_digit a -> Forall ascii_digit a' ->
  a ++ 95%N :: b = a' ++ 95%N :: b' -> a = a' /\ b = b'.
Proof.
  intros Ha. revert a'. induction Ha as [|x a Hx Ha IH]; intros a' Ha' E.
  - destruct Ha' as [|y a' Hy _]; cbn in E.
    + injection E as ->. now split.
    + injection E as <- _. unfold ascii_digit in Hy. lia.
  - destruct Ha' as [|y a' Hy Ha']; cbn in E.
    + injection E as -> _. unfold ascii_digit in Hx. lia.
    + injection E as -> E. destruct (IH a' Ha' E) as [-> ->]. now split.
Qed.

Lemma file_name_determines_entry (session_number : Z) (date_string : str)
      (topic_id topic_id' order order' : Z) (name name' : str) :
  (0 <= topic_id)%Z -> (0 <= topic_id')%Z -> (0 <= order)%Z -> (0 <= order')%Z ->
  generate_file_name session_number date_string topic_id order name
  = generate_file_name session_number date_string topic_id' order' name' ->
  topic_id = topic_id' /\ order = order' /\ name = name'.
Proof.
  intros Ht Ht' Ho Ho' E. unfold generate_file_name in E.
  do 5 apply app_inv_head in E.
  destruct (str_of_Z_shape _ Ht) as [D1 C1], (str_of_Z_shape _ Ht') as [D1' C1'].
  destruct (str_of_Z_shape _ Ho) as [D2 C2], (str_of_Z_shape _ Ho') as [D2' C2'].
  change (lit "_i_") with [95; 105; 95]%N in E.
  change (lit "_") with [95]%N in E.
  cbn [app] in E.
  apply split_at_underscore in E as [E1 E]; try now apply pad0_digits.
  injection E as E.
  apply split_at_underscore in E as [E2 E]; try now apply pad0_digits.
  apply app_inv_tail in E.
  apply pad0_inj in E1; [|assumption..]. apply pad0_inj in E2; [|assumption..].
  apply str_of_Z_inj in E1, E2. auto.
Qed.

(** X21.  Within a session and a day, entries that differ in topic, in
    position or in the speaker label get different file names (topic
    numbers and positions not negative): no entry overwrites the file of
    another. *)
Theorem distinct_entries_distinct_files (session_number : Z) (date_string : str)
        (topic_id topic_id' order order' : Z) (name name' : str) :
  (0 <= topic_id)%Z -> (0 <= topic_id')%Z -> (0 <= order)%Z -> (0 <= order')%Z ->
  (topic_id, order, name) <> (topic_id', order', name') ->
  generate_file_name session_number date_string topic_id order name
  <> generate_file_name session_number date_string topic_id' order' name'.
Proof.
  intros Ht Ht' Ho Ho' Hne E. apply Hne.
  apply file_name_determines_entry in E as (-> & -> & ->); auto.
Qed.

Lemma distinct_entries_distinct_files_witness :
  generate_file_name 5 (lit "20150203") 1 1 (lit "Poslanec_Jan_Novák")
  <> generate_file_name 5 (lit "20150203") 1 2 (lit "Poslanec_Jan_Novák").
Proof.
  apply (distinct_entries_distinct_files 5 (lit "20150203") 1 1 1 2
           (lit "Poslanec_Jan_Novák") (lit "Poslanec_Jan_Novák")); try lia.
  intros E. inversion E.
Defined.

(** ** Creating a session *)



(** ** The name of a speaker *)

Lemma strip_in (c : char) (s : str) : In c (strip s) -> In c s.
Proof.
  unfold strip. intros H.
  destruct (rstrip_prefix (lstrip s)) as [t Et], (lstrip_suffix s) as [u Eu].
  rewrite Eu. apply in_or_app. right. rewrite Et. apply in_or_app. now left.
Qed.

Lemma replace_in (old new : str) (x : char) (s : str) :
  In x (replace old new s) -> In x new \/ In x s.
Proof.
  destruct old as [|c old]; [|apply replace_from_in].
  unfold replace. intros H. apply in_app_or in H as [H|H]; [|now left].
  apply in_flat_map in H as (a & Ha & H). apply in_app_or in H as [H|[<-|[]]]; auto.
Qed.

Lemma split_titles_name (ts : list str) :
  forall titles page_name,
    strip page_name = page_name -> ~ In (ch ",") page_name ->
    strip (snd (split_titles ts titles page_name)) = snd (split_titles ts titles page_name)
    /\ ~ In (ch ",") (snd (split_titles ts titles page_name)).
Proof.
  induction ts as [|t ts IH]; intros titles page_name Hs Hc; cbn [split_titles].
  - now split.
  - destruct (contains t page_name); [|now apply IH].
    apply IH; [apply strip_idempotent|].
    intros H. apply strip_in, replace_in in H as [[]|H]. now apply Hc.
Qed.

Lemma replace_empty_by_empty (s : str) : replace [] [] s = s.
Proof.
  unfold replace. rewrite app_nil_r. induction s as [|c s IH]; [reflexivity|].
  simpl in *. now f_equal.
Qed.

Lemma split_titles_empty (ts : list str) :
  Forall (fun t => t <> []) ts ->
  forall titles, split_titles ts titles [] = (titles, []).
Proof.
  induction 1 as [|t ts Ht _ IH]; intros titles; cbn [split_titles]; [reflexivity|].
  destruct t as [|c t]; [easy|]. cbn [contains startswith orb]. apply IH.
Qed.

(** X23.  The name that [get_speakers_name] returns has no comma and no
    whitespace at either end, and the sex is one of the three values.
    With an empty page name (no biography found) nothing is removed from
    the label of the transcript: name and titles are empty and the
    function is the whole label, stripped. *)
Theorem speakers_name_outcomes :
  (forall page_name steno_name : str,
      let '(name, titles, function, sex) := get_speakers_name page_name steno_name in
      strip name = name /\ ~ In (ch ",") name /\
      (sex = lit "Woman" \/ sex = lit "Man" \/ sex = [])) /\
  (forall steno_name : str,
      exists sex, get_speakers_name [] steno_name = ([], [], strip steno_name, sex)).
Proof.
  split.
  - intros page_name steno_name. unfold get_speakers_name. cbv zeta.
    pose proof (split_titles_name title_strings []
                  (strip (replace (lit ",") [] page_name))
                  (strip_idempotent _)) as H.
    destruct (split_titles title_strings [] (strip (replace (lit ",") [] page_name)))
      as [titles name].
    cbn [snd] in H. destruct H as [H1 H2].
    + intros H. apply strip_in in H.
      change (lit ",") with [ch ","] in H. rewrite replace_nonempty in H.
      revert H. apply replace_char_gone. intros [].
    + split; [exact H1|]. split; [exact H2|].
      destruct (existsb _ female_strings); [now left|].
      destruct (existsb _ male_strings); [right; now left | right; now right].
  - intros steno_name. unfold get_speakers_name. cbv zeta.
    change (strip (replace (lit ",") [] [])) with (@nil N).
    rewrite split_titles_empty.
    + change (strip []) with (@nil N). rewrite replace_empty_by_empty. eexists. reflexivity.
    + unfold title_strings. repeat constructor; discriminate.
Qed.

(** ** Group identifiers *)

(** X24.  The identifier of a group, when one is returned, leaves the
    state alone and has a fixed form: [q] and at least one digit from
    [get_qid_for_topic], standing in the link right after [html#]; from
    [get_hash_for_topic] a [#], a lower-case letter and at least one
    digit in the 2013 term, and at least one digit alone in the others. *)
Theorem group_id_shapes :
  (forall link st q st',
      get_qid_for_topic link st = (Ok (Some q), st') ->
      st' = st /\
      exists before ds after,
        Forall (fun c => isdigit c = true) ds /\ ds <> [] /\
        q = lit "q" ++ ds /\ link = before ++ lit "html#" ++ q ++ after) /\
  (forall year link st h st',
      get_hash_for_topic year link st = (Ok (Some h), st') ->
      st' = st /\
      exists c ds,
        Forall (fun c => isdigit c = true) ds /\ ds <> [] /\
        if (year =? 2013)%Z then h = lit "#" ++ c :: ds /\ lower c = true
        else h = ds).
Proof.
  split.
  - intros link st q st'. unfold get_qid_for_topic.
    destruct (rmatch_ reg_ex_topic_q link) as [m|] eqn:E;
      [|unfold bind, logging, modify, ret; discriminate].
    intros H. injection H as <- <-. split; [reflexivity|].
    unfold rmatch_ in E. apply match_at_sound in E as (n & _ & _ & _ & _ & D).
    unfold reg_ex_topic_q, plus, star in D. cbn [seq den] in D.
    destruct D as (w0 & r0 & c0 & E0 & [-> ->] & D).
    destruct D as (w1 & r1 & c1 & -> & (_ & _ & _ & ->) & D).
    destruct D as (w2 & r2 & c2 & -> & [-> ->] & D).
    destruct D as (w3 & r3 & c3 & -> & (c3' & D3 & ->) & [-> E]).
    destruct D3 as (w4 & r4 & c4 & -> & [-> ->] & (F & L & _ & ->)).
    unfold group_or_empty, group. rewrite E. cbn [cap_lookup Nat.eqb].
    exists w1, r4, (skipn n link). split; [exact F|].
    split; [intros ->; simpl in L; lia|]. split; [reflexivity|].
    rewrite <- (firstn_skipn n link) at 1. rewrite E0.
    cbn [app]. rewrite app_nil_r, <- !app_assoc. reflexivity.
  - intros year link st h st'. unfold get_hash_for_topic. cbv zeta.
    destruct (year =? 2013)%Z.
    + destruct (rmatch_ reg_ex_topic_hash link) as [m|] eqn:E;
        [|unfold bind, logging, modify, ret; discriminate].
      intros H. injection H as <- <-. split; [reflexivity|].
      unfold rmatch_ in E. apply match_at_sound in E as (n & _ & _ & _ & _ & D).
      unfold reg_ex_topic_hash, plus, star in D. cbn [seq den] in D.
      destruct D as (w0 & r0 & c0 & E0 & [-> ->] & D).
      destruct D as (w1 & r1 & c1 & -> & (_ & _ & _ & ->) & D).
      destruct D as (w2 & r2 & c2 & -> & [-> ->] & D).
      destruct D as (w3 & r3 & c3 & -> & (c3' & D3 & ->) & [-> E]).
      destruct D3 as (w4 & r4 & c4 & -> & [-> ->] & D3).
      destruct D3 as (w5 & r5 & c5 & -> & [(c & -> & Hc) ->] & (F & L & _ & ->)).
      unfold group_or_empty, group. rewrite E. cbn [cap_lookup Nat.eqb].
      exists c, r5. split; [exact F|]. split; [intros ->; simpl in L; lia|].
      split; [reflexivity | exact Hc].
    + destruct (rmatch_ reg_ex_topic_digits link) as [m|] eqn:E;
        [|unfold bind, logging, modify, ret; discriminate].
      intros H. injection H as <- <-. split; [reflexivity|].
      unfold rmatch_ in E. apply match_at_sound in E as (n & _ & _ & _ & _ & D).
      unfold reg_ex_topic_digits, plus, star in D. cbn [seq den] in D.
      destruct D as (w0 & r0 & c0 & E0 & [-> ->] & D).
      destruct D as (w1 & r1 & c1 & -> & (_ & _ & _ & ->) & D).
      destruct D as (w2 & r2 & c2 & -> & [-> ->] & D).
      destruct D as (w3 & r3 & c3 & -> & (c3' & (F & L & _ & ->) & ->) & [-> E]).
      unfold group_or_empty, group. rewrite E. cbn [cap_lookup Nat.eqb].
      exists 0%N, w3. split; [exact F|]. split; [intros ->; simpl in L; lia|].
      reflexivity.
Qed.

Lemma group_id_shapes_witness :
  exists before ds after,
    Forall (fun c => isdigit c = true) ds /\ ds <> [] /\
    lit "q12" = lit "q" ++ ds /\
    lit "s005001.html#q12" = before ++ lit "html#" ++ lit "q12" ++ after.
Proof.
  apply (proj1 group_id_shapes (lit "s005001.html#q12") empty_state (lit "q12")
               empty_state).
  vm_compute. reflexivity.
Defined.

(** ** Transcripts are parsed once *)

Section Transcripts.
Variable net : str -> option (bool * str).
Variable soup_of : str -> Soup.
Variable cfg : Config.

Lemma keeps_stenos_parse_steno (steno : Soup) : keeps stenos (parse_steno steno).
Proof.
  unfold parse_steno, steno_step.
  repeat first [ apply keeps_logging; reflexivity | keeps_step ].
Qed.

Lemma keeps_stenos_post_2013_topic (topic : Para) :
  keeps stenos (post_2013_topic net soup_of cfg topic).
Proof.
  unfold post_2013_topic, post_2013_link, py_int, sibling_text.
  repeat first [ apply keeps_extend_topic; reflexivity
               | apply keeps_get_qid_for_topic; reflexivity
               | apply keeps_parse_sublink_order; reflexivity
               | apply keeps_logging; reflexivity
               | keeps_step ].
Qed.

Lemma fetch_steno_keeps_parsed (p : str) (t : Dict.t str Intervention)
      (int_info : InterventionInfo) :
  preserves (fun s => Dict.get p (stenos s) = Some t)
            (fetch_steno net soup_of cfg int_info).
Proof.
  intros st r st' H. unfold fetch_steno. unfold bind at 1. unfold get_state.
  destruct (negb (Dict.mem (stenopage int_info) (stenos st))) eqn:M;
    [|intros E; injection E as <- <-; exact H].
  apply negb_true_iff in M. cbv zeta. unfold bind at 1.
  match goal with
  | |- context [try_except ?m ?c ?h st] =>
      assert (K : keeps stenos (try_except m c h));
      [|destruct (try_except m c h st) as [[[text|]|e] s1] eqn:E1; apply K in E1]
  end.
  - apply keeps_try_except.
    + apply keeps_bind; [apply keeps_request; reflexivity | intros; apply keeps_ret].
    + apply keeps_bind; [apply keeps_logging; reflexivity | intros; apply keeps_ret].
  - unfold bind at 1.
    destruct (parse_steno (soup_of text) s1) as [[parsed|e] s2] eqn:E2;
      apply keeps_stenos_parse_steno in E2.
    + unfold modify. intros E; injection E as <- <-.
      cbn [stenos set_stenos]. rewrite E2, E1.
      rewrite get_set_other; [exact H|]. intros Ep. subst p.
      unfold Dict.mem in M. now rewrite H in M.
    + intros E; injection E as <- <-. now rewrite E2, E1.
  - intros E; injection E as <- <-. now rewrite E1.
  - intros E; injection E as <- <-. now rewrite E1.
Qed.

End Transcripts.

(** X25.  A transcript page is parsed once: a page that is in [stenos]
    is neither fetched again nor replaced by anything [parse_session]
    does, whatever the term and however the call ends. *)
Theorem transcripts_are_parsed_once
        (net : str -> option (bool * str)) (soup_of : str -> Soup) (cfg : Config)
        (st st' : State) (r : result (option bool))
        (p : str) (t : Dict.t str Intervention) :
  Dict.get p (stenos st) = Some t ->
  parse_session net soup_of cfg st = (r, st') ->
  Dict.get p (stenos st') = Some t.
Proof.
  revert st r st'.
  change (preserves (fun s => Dict.get p (stenos s) = Some t)
                    (parse_session net soup_of cfg)).
  assert (K : forall A (m : M A), keeps stenos m ->
                preserves (fun s => Dict.get p (stenos s) = Some t) m).
  { intros A m Hk. apply (keeps_preserves _ stenos m Hk). intros s s' ->. auto. }
  unfold parse_session.
  apply preserves_bind; [apply preserves_modify; auto | intros _ _].
  apply preserves_bind.
  - apply K, keeps_try_except; [|apply keeps_ret].
    apply keeps_bind; [apply keeps_request; reflexivity | intros; apply keeps_ret].
  - intros [text|] _; [|apply preserves_ret].
    apply preserves_bind; [apply preserves_modify; auto | intros _ _].
    apply preserves_bind.
    + apply K. destruct (year cfg =? 2013)%Z; [|destruct (2013 <? year cfg)%Z].
      * apply keeps_parse_session_2013; reflexivity.
      * unfold parse_session_post_2013. apply keeps_for_each. intros topic.
        apply keeps_stenos_post_2013_topic.
      * apply keeps_parse_session_pre_2013; reflexivity.
    + intros _ _. apply preserves_bind; [|intros; apply preserves_ret].
      unfold get_all_stenos. apply preserves_bind; [apply preserves_get_state|].
      intros s0 _. apply preserves_for_each. intros topic _.
      apply preserves_for_each. intros x _. apply fetch_steno_keeps_parsed.
Qed.

Lemma transcripts_are_parsed_once_witness :
  Dict.get (lit "s005001.htm")
           (stenos (snd (parse_session sample_net sample_soup_of sample_config
                                       sample_report_state)))
  = Dict.get (lit "s005001.htm") (stenos sample_report_state).
Proof.
  apply (transcripts_are_parsed_once sample_net sample_soup_of sample_config
           sample_report_state
           (snd (parse_session sample_net sample_soup_of sample_config
                               sample_report_state))
           (fst (parse_session sample_net sample_soup_of sample_config
                               sample_report_state))).
  - reflexivity.
  - vm_compute. reflexivity.
Defined.

(** ** The title of a topic *)

Section FetchFrames.
Context {X : Type} (proj : State -> X).
Variable net : str -> option (bool * str).
Variable soup_of : str -> Soup.
Variable cfg : Config.
Hypothesis proj_log : forall v st, proj (set_log v st) = proj st.
Hypothesis proj_counter : forall v st, proj (set_request_counter v st) = proj st.
Hypothesis proj_cache : forall v st, proj (set_cache v st) = proj st.
Hypothesis proj_stenos : forall v st, proj (set_stenos v st) = proj st.
Hypothesis proj_speakers : forall v st, proj (set_speakers v st) = proj st.

Lemma keeps_parse_steno (steno : Soup) : keeps proj (parse_steno steno).
Proof. unfold parse_steno, steno_step. repeat keeps_step. Qed.

Lemma keeps_get_all_stenos : keeps proj (get_all_stenos net soup_of cfg).
Proof.
  unfold get_all_stenos, fetch_steno.
  repeat first [ apply keeps_request; assumption | apply keeps_parse_steno
               | keeps_step ].
Qed.

End FetchFrames.

Section Titles.
Variable net : str -> option (bool * str).
Variable soup_of : str -> Soup.
Variable cfg : Config.
Variable topic : Z.
Variable title : option str.

Lemma titled_as_frame {A} (m : M A) :
  keeps (fun s => (topics s, topic_titles s)) m -> preserves (titled_as topic title) m.
Proof.
  intros Hk. apply (keeps_preserves _ _ m Hk).
  intros s s' E [H1 H2]. injection E as E1 E2. unfold titled_as. now rewrite E1, E2.
Qed.

Lemma titled_as_new_topic (t : Z) (s : State) :
  (titled_as topic title) s -> Dict.mem t (topics s) = false ->
  (titled_as topic title) (set_topics (Dict.set t [] (topics s)) s) /\
  forall v, (titled_as topic title) (set_topic_titles
                         (Dict.set t v (topic_titles s))
                         (set_topics (Dict.set t [] (topics s)) s)).
Proof.
  intros [H1 H2] Hm.
  assert (Hne : topic <> t) by (intros <-; congruence).
  unfold titled_as, Dict.mem in *. cbn [topics topic_titles set_topics set_topic_titles].
  rewrite !get_set_other by exact Hne.
  split; [now split | intros v; split; [exact H1 | now rewrite get_set_other]].
Qed.

Lemma extend_topic_titled (t : Z) (q_id : str) : preserves (titled_as topic title) (extend_topic t q_id).
Proof.
  intros st r st' [H1 H2].
  unfold extend_topic, bind, get_state, subscript, modify, ret, raise.
  destruct (Dict.get t (topics st)) as [l|] eqn:G;
    [|intros E; injection E as <- <-; now split].
  destruct (Dict.get q_id (interventions_info st));
    intros E; injection E as <- <-; [|now split].
  split; [|exact H2]. cbn [topics set_topics].
  destruct (Z.eq_dec topic t) as [->|Hne]; [apply mem_set_same|].
  unfold Dict.mem in *. now rewrite get_set_other.
Qed.

Lemma named_topic_step_titled (reg_ex_topic : regex) (link : Tag) (t : Z) :
  preserves (titled_as topic title) (named_topic_step net soup_of cfg reg_ex_topic link t).
Proof.
  unfold named_topic_step. apply preserves_bind.
  - intros st r st' H.
    unfold try_except, bind, subscript, py_int, get_state, modify, sibling_text,
      logging, ret, raise.
    destruct (Dict.get (lit "name") (attrs link)) as [name|].
    + destruct (int_of_str _) as [t0|].
      * destruct (negb (Dict.mem t0 (topics st))) eqn:M.
        -- apply negb_true_iff in M.
           destruct (titled_as_new_topic t0 st H M) as [T1 T2].
           destruct (next_sibling_text link); cbv beta iota;
             intros E; injection E as <- <-; [apply (T2 _) | exact T1].
        -- intros E. injection E as <- <-. exact H.
      * cbv beta iota. intros E. injection E as <- <-. exact H.
    + cbv beta iota. unfold modify. intros E. injection E as <- <-. exact H.
  - intros [t1 continue] _. destruct continue; [apply preserves_ret|].
    apply preserves_bind; [|intros; apply preserves_ret].
    apply preserves_try_except; [|apply preserves_ret].
    apply preserves_bind; [apply preserves_subscript | intros sublink _].
    destruct (rmatch_ reg_ex_topic sublink); [|apply preserves_ret].
    apply preserves_bind.
    + apply titled_as_frame, keeps_get_hash_for_topic. reflexivity.
    + intros [hash_id|] _.
      * apply preserves_bind.
        -- apply titled_as_frame, keeps_parse_sublink_order; reflexivity.
        -- intros ok _. destruct ok; [apply extend_topic_titled | apply preserves_ret].
      * apply titled_as_frame, keeps_logging. reflexivity.
Qed.

Lemma post_2013_topic_titled (p : Para) :
  preserves (titled_as topic title) (post_2013_topic net soup_of cfg p).
Proof.
  unfold post_2013_topic. destruct (p_find_all_a p) as [|first rest];
    [apply preserves_ret|].
  apply preserves_bind.
  - apply titled_as_frame. unfold py_int.
    repeat first [ apply keeps_logging; reflexivity | keeps_step ].
  - intros [t0|] _; [|apply preserves_ret].
    intros st r st' H. unfold bind at 1. unfold get_state. unfold bind at 1.
    assert (P : preserves (titled_as topic title) (for_each rest (post_2013_link net soup_of cfg t0))).
    { apply preserves_for_each. intros link _. unfold post_2013_link.
      apply preserves_try_except; [|apply preserves_ret].
      apply preserves_bind; [apply preserves_subscript | intros sublink _].
      destruct (negb (contains (lit "/sqw/historie.sqw") sublink)); [|apply preserves_ret].
      apply preserves_bind.
      - apply titled_as_frame, keeps_get_qid_for_topic. reflexivity.
      - intros [q_id|] _.
        + apply preserves_bind.
          * apply titled_as_frame, keeps_parse_sublink_order; reflexivity.
          * intros ok _. destruct ok; [apply extend_topic_titled | apply preserves_ret].
        + apply titled_as_frame, keeps_logging. reflexivity. }
    destruct (negb (Dict.mem t0 (topics st))) eqn:M.
    + apply negb_true_iff in M.
      destruct (titled_as_new_topic t0 st H M) as [T1 T2].
      unfold bind, modify, sibling_text, ret, raise.
      destruct (next_sibling_text first); cbv beta iota.
      * apply P, T2.
      * intros E; injection E as <- <-. exact T1.
    + unfold ret at 1. apply P, H.
Qed.

Lemma parse_session_titled : preserves (titled_as topic title) (parse_session net soup_of cfg).
Proof.
  unfold parse_session.
  apply preserves_bind; [apply titled_as_frame, keeps_logging; reflexivity | intros _ _].
  apply preserves_bind.
  - apply titled_as_frame, keeps_try_except; [|apply keeps_ret].
    apply keeps_bind; [apply keeps_request; reflexivity | intros; apply keeps_ret].
  - intros [text|] _; [|apply preserves_ret].
    apply preserves_bind;
      [apply titled_as_frame, keeps_modify; reflexivity | intros _ _].
    apply preserves_bind.
    + destruct (year cfg =? 2013)%Z; [|destruct (2013 <? year cfg)%Z].
      * unfold parse_session_2013.
        apply preserves_bind; [|intros; apply preserves_ret].
        apply preserves_for_fold. intros link t _. apply named_topic_step_titled.
      * unfold parse_session_post_2013. apply preserves_for_each. intros p _.
        apply post_2013_topic_titled.
      * unfold parse_session_pre_2013.
        apply preserves_bind; [|intros; apply preserves_ret].
        apply preserves_for_fold. intros link t _. apply named_topic_step_titled.
    + intros _ _. apply preserves_bind; [|intros; apply preserves_ret].
      apply titled_as_frame, keeps_get_all_stenos; reflexivity.
Qed.

End Titles.

(** X26.  The first title of a topic wins: once a topic is known, nothing
    [parse_session] does changes its title, and a topic known without a
    title never gets one; the topic also stays known.  This holds for
    every term and however the call ends. *)
Theorem first_topic_title_wins
        (net : str -> option (bool * str)) (soup_of : str -> Soup) (cfg : Config)
        (st st' : State) (r : result (option bool)) (topic : Z) :
  Dict.mem topic (topics st) = true ->
  parse_session net soup_of cfg st = (r, st') ->
  Dict.mem topic (topics st') = true /\
  Dict.get topic (topic_titles st') = Dict.get topic (topic_titles st).
Proof.
  intros H E.
  exact (parse_session_titled net soup_of cfg topic (Dict.get topic (topic_titles st))
           st r st' (conj H eq_refl) E).
Qed.

Lemma first_topic_title_wins_witness :
  Dict.get 1%Z
    (topic_titles
       (snd (parse_session sample_net sample_soup_of sample_config
               (set_topic_titles [(1%Z, lit "Starý název")]
                                 (set_topics [(1%Z, [])] empty_state)))))
  = Some (lit "Starý název").
Proof.
  apply (first_topic_title_wins sample_net sample_soup_of sample_config
           (set_topic_titles [(1%Z, lit "Starý název")]
                             (set_topics [(1%Z, [])] empty_state))
           (snd (parse_session sample_net sample_soup_of sample_config
                   (set_topic_titles [(1%Z, lit "Starý název")]
                                     (set_topics [(1%Z, [])] empty_state))))
           (fst (parse_session sample_net sample_soup_of sample_config
                   (set_topic_titles [(1%Z, lit "Starý název")]
                                     (set_topics [(1%Z, [])] empty_state))))
           1%Z).
  - reflexivity.
  - vm_compute. reflexivity.
Defined.
